(** * KeyVisualizer: input normalisation, key overlay state and configuration

    A shallow embedding of the logic of [keyVisualizer.py]:
    - [get_key_name] / [get_key_from_vk] and the keyboard listener handlers,
    - the display state of [KeyOverlay] ([add_key], [release_key],
      [_start_fade], [show_combo], [fade_key], [update_config]),
    - [load_config] / [save_config] of [KeyVisualizerApp].

    Conventions.  Python [str] values are [string]s holding the UTF-8 bytes
    of the text.  Python exceptions are the [Raise] results of the [res]
    type.  Python floats are idealised as exact rationals ([Q]).  Widget
    calls that only affect painting ([update], [show], [layout_bubbles],
    [deleteLater], [update_height], [update_position]) leave the logical
    state untouched and are not represented. *)

From Stdlib Require Import Ascii QArith Qround Qpower Qabs Lqa.
From stdpp Require Import gmap strings list sorting pretty functions.

Local Open Scope string_scope.
Local Open Scope Z_scope.

(** ** Python results *)

Inductive exn : Type :=
| ValueError
| TypeError
| KeyError
| IndexError
| JSONDecodeError
| RecursionError.

Inductive res (A : Type) : Type :=
| Ret (a : A)
| Raise (e : exn).
Arguments Ret {A} a.
Arguments Raise {A} e.

Global Instance res_ret : MRet res := λ A a, Ret a.

Global Instance res_bind : MBind res := λ A B k m,
  match m with
  | Ret a => k a
  | Raise e => Raise e
  end.

(** Truth value of a [str]: only the empty string is falsy. *)
Definition str_truthy (s : string) : bool :=
  match s with
  | EmptyString => false
  | String _ _ => true
  end.

(** [d[k]] on a dict: raises [KeyError] when the key is absent. *)
Definition py_getitem {K V : Type} `{Countable K} (d : gmap K V) (k : K) : res V :=
  match d !! k with
  | Some v => Ret v
  | None => Raise KeyError
  end.

(** [k in d] *)
Definition py_in {K V : Type} `{Countable K} (k : K) (d : gmap K V) : bool :=
  bool_decide (is_Some (d !! k)).

(** ** Characters *)

Definition byte_of_Z (z : Z) : Ascii.ascii := Ascii.ascii_of_N (Z.to_N z).

(** UTF-8 bytes of a code point. *)
Definition utf8_encode (i : Z) : string :=
  if i <? 0x80 then
    String (byte_of_Z i) ""
  else if i <? 0x800 then
    String (byte_of_Z (Z.lor 0xC0 (Z.shiftr i 6)))
      (String (byte_of_Z (Z.lor 0x80 (Z.land i 0x3F))) "")
  else if i <? 0x10000 then
    String (byte_of_Z (Z.lor 0xE0 (Z.shiftr i 12)))
      (String (byte_of_Z (Z.lor 0x80 (Z.land (Z.shiftr i 6) 0x3F)))
         (String (byte_of_Z (Z.lor 0x80 (Z.land i 0x3F))) ""))
  else
    String (byte_of_Z (Z.lor 0xF0 (Z.shiftr i 18)))
      (String (byte_of_Z (Z.lor 0x80 (Z.land (Z.shiftr i 12) 0x3F)))
         (String (byte_of_Z (Z.lor 0x80 (Z.land (Z.shiftr i 6) 0x3F)))
            (String (byte_of_Z (Z.lor 0x80 (Z.land i 0x3F))) ""))).

(** [chr(i)]: [ValueError] outside [range(0x110000)]. *)
Definition py_chr (i : Z) : res string :=
  if (0 <=? i) && (i <? 0x110000) then Ret (utf8_encode i) else Raise ValueError.

(** [s[n:]] *)
Fixpoint str_drop (n : nat) (s : string) : string :=
  match n, s with
  | O, _ => s
  | S n', String _ s' => str_drop n' s'
  | S _, EmptyString => EmptyString
  end.

(** [s.replace(a, b)] for one-byte [a] and [b]. *)
Fixpoint str_replace (a b : Ascii.ascii) (s : string) : string :=
  match s with
  | EmptyString => EmptyString
  | String c s' => String (if Ascii.eqb c a then b else c) (str_replace a b s')
  end.

(** ** Key tables *)

Definition KEY_DISPLAY_NAMES : gmap string string :=
  list_to_map [
    ("Key.space", "Space");
    ("Key.enter", "Enter");
    ("Key.tab", "Tab");
    ("Key.backspace", "Backspace");
    ("Key.delete", "Delete");
    ("Key.escape", "Esc");
    ("Key.shift", "Shift");
    ("Key.shift_r", "Shift");
    ("Key.ctrl", "Ctrl");
    ("Key.ctrl_l", "Ctrl");
    ("Key.ctrl_r", "Ctrl");
    ("Key.alt", "Alt");
    ("Key.alt_l", "Alt");
    ("Key.alt_r", "Alt");
    ("Key.alt_gr", "AltGr");
    ("Key.cmd", "Win");
    ("Key.cmd_l", "Win");
    ("Key.cmd_r", "Win");
    ("Key.caps_lock", "CapsLock");
    ("Key.num_lock", "NumLock");
    ("Key.scroll_lock", "ScrollLock");
    ("Key.print_screen", "PrtSc");
    ("Key.pause", "Pause");
    ("Key.insert", "Insert");
    ("Key.home", "Home");
    ("Key.end", "End");
    ("Key.page_up", "PgUp");
    ("Key.page_down", "PgDn");
    ("Key.up", "↑");
    ("Key.down", "↓");
    ("Key.left", "←");
    ("Key.right", "→");
    ("Key.f1", "F1");
    ("Key.f2", "F2");
    ("Key.f3", "F3");
    ("Key.f4", "F4");
    ("Key.f5", "F5");
    ("Key.f6", "F6");
    ("Key.f7", "F7");
    ("Key.f8", "F8");
    ("Key.f9", "F9");
    ("Key.f10", "F10");
    ("Key.f11", "F11");
    ("Key.f12", "F12");
    ("Key.menu", "Menu")
  ].

Definition numpad_map : gmap Z string :=
  list_to_map [
    (0x6A, "*");
    (0x6B, "+");
    (0x6D, "-");
    (0x6E, ".");
    (0x6F, "/")
  ].

Definition vk_map : gmap Z string :=
  list_to_map [
    (0xBB, "="); (0xBC, ","); (0xBD, "-"); (0xBE, "."); (0xBF, "/");
    (0xBA, ";"); (0xDB, "["); (0xDC, "\"); (0xDD, "]"); (0xDE, "'");
    (0xC0, "`")
  ].

(** A pynput key as the two functions read it: [str(key)], the [char]
    attribute and the [vk] attribute.  [None] stands for an attribute that
    is missing or holds [None]; the code treats both alike. *)
Record Key : Type := mkKey {
  key_str : string;
  key_char : option string;
  key_vk : option Z
}.

(** ** [get_key_from_vk] *)

Definition get_key_from_vk (key : Key) : res (option string) :=
  match key_vk key with
  | None => Ret None
  | Some vk =>
    if (0x41 <=? vk) && (vk <=? 0x5A) then
      c ← py_chr vk ; Ret (Some c)
    else if (0x30 <=? vk) && (vk <=? 0x39) then
      c ← py_chr vk ; Ret (Some c)
    else if (0x60 <=? vk) && (vk <=? 0x69) then
      Ret (Some (pretty (vk - 0x60)))
    else if py_in vk numpad_map then
      c ← py_getitem numpad_map vk ; Ret (Some c)
    else if py_in vk vk_map then
      c ← py_getitem vk_map vk ; Ret (Some c)
    else if (0x70 <=? vk) && (vk <=? 0x7B) then
      Ret (Some ("F" +:+ pretty (vk - 0x6F)))
    else if (0x20 <=? vk) && (vk <=? 0x7E) then
      c ← py_chr vk ; Ret (Some c)
    else
      Ret None
  end.

(** ** [get_key_name] and the keyboard listener

    [str.isalpha], [str.upper], [str.isprintable] and [str.title] are
    Python built-ins on Unicode text; they are total on [str] and are kept
    abstract here. *)

(** Modifier key identifiers *)
Definition MODIFIER_KEYS : gset string :=
  {[ "Ctrl"; "Alt"; "Shift"; "Win"; "AltGr" ]}.

(** The Qt signals of [KeyboardListener]. *)
Inductive signal : Type :=
| key_pressed (name : string)
| key_released (name : string)
| combo_pressed (combo : string).

Record KeyboardListener : Type := mkListener {
  active_modifiers : gset string
}.

Section Normalisation.

Variable str_isalpha : string → bool.
Variable str_upper : string → string.
Variable str_isprintable : string → bool.
Variable str_title : string → string.

Definition get_key_name (key : Key) : res (option string) :=
  if py_in (key_str key) KEY_DISPLAY_NAMES then
    name ← py_getitem KEY_DISPLAY_NAMES (key_str key); Ret (Some name)
  else
    match key_char key with
    | Some (String _ _ as char) =>
      if str_isalpha char then Ret (Some (str_upper char))
      else if str_isprintable char then Ret (Some char)
      else Ret None
    | _ =>
      if String.prefix "Key." (key_str key) then
        Ret (Some (str_title (str_replace "_"%char " "%char (str_drop 4 (key_str key)))))
      else Ret None
    end.

(** The first lines of both handlers: [get_key_name], then
    [get_key_from_vk] when that gave [None]. *)
Definition normalise (key : Key) : res (option string) :=
  key_name ← get_key_name key;
  match key_name with
  | None => get_key_from_vk key
  | Some _ => Ret key_name
  end.

(** The loop of [_on_press] over ['Ctrl', 'Alt', 'Shift', 'Win']. *)
Definition combo_parts (mods : gset string) (key_name : string) : list string :=
  filter (λ m, m ∈ mods) ["Ctrl"; "Alt"; "Shift"; "Win"] ++ [key_name].

Definition _on_press (self : KeyboardListener) (key : Key)
  : res (KeyboardListener * list signal) :=
  key_name ← normalise key;
  match key_name with
  | None => Ret (self, [])
  | Some key_name =>
    if bool_decide (key_name ∈ MODIFIER_KEYS) then
      Ret (mkListener ({[ key_name ]} ∪ active_modifiers self),
           [key_pressed key_name])
    else if bool_decide (active_modifiers self ≠ ∅) then
      Ret (self, [combo_pressed (String.concat "+" (combo_parts (active_modifiers self) key_name))])
    else
      Ret (self, [key_pressed key_name])
  end.

Definition _on_release (self : KeyboardListener) (key : Key)
  : res (KeyboardListener * list signal) :=
  key_name ← normalise key;
  match key_name with
  | None => Ret (self, [])
  | Some key_name =>
    let self' :=
      if bool_decide (key_name ∈ MODIFIER_KEYS)
      then mkListener (active_modifiers self ∖ {[ key_name ]})
      else self in
    Ret (self', [key_released key_name])
  end.

End Normalisation.

(** ASCII versions of the built-ins, for running the handlers on keys whose
    text is ASCII. *)
Definition ascii_is_upper (c : Ascii.ascii) : bool :=
  let n := Ascii.N_of_ascii c in (65 <=? n)%N && (n <=? 90)%N.
Definition ascii_is_lower (c : Ascii.ascii) : bool :=
  let n := Ascii.N_of_ascii c in (97 <=? n)%N && (n <=? 122)%N.
Definition ascii_to_upper (c : Ascii.ascii) : Ascii.ascii :=
  if ascii_is_lower c then Ascii.ascii_of_N (Ascii.N_of_ascii c - 32) else c.
Definition ascii_to_lower (c : Ascii.ascii) : Ascii.ascii :=
  if ascii_is_upper c then Ascii.ascii_of_N (Ascii.N_of_ascii c + 32) else c.

Fixpoint str_all (p : Ascii.ascii → bool) (s : string) : bool :=
  match s with
  | EmptyString => true
  | String c s' => p c && str_all p s'
  end.

Fixpoint str_map (f : Ascii.ascii → Ascii.ascii) (s : string) : string :=
  match s with
  | EmptyString => EmptyString
  | String c s' => String (f c) (str_map f s')
  end.

Definition ascii_isalpha (s : string) : bool :=
  str_truthy s && str_all (λ c, ascii_is_upper c || ascii_is_lower c) s.
Definition ascii_upper (s : string) : string := str_map ascii_to_upper s.
Definition ascii_isprintable (s : string) : bool :=
  str_all (λ c, let n := Ascii.N_of_ascii c in (32 <=? n)%N && (n <=? 126)%N) s.

Fixpoint ascii_title_from (in_word : bool) (s : string) : string :=
  match s with
  | EmptyString => EmptyString
  | String c s' =>
    let cased := ascii_is_upper c || ascii_is_lower c in
    String (if in_word then ascii_to_lower c else ascii_to_upper c)
           (ascii_title_from cased s')
  end.
Definition ascii_title (s : string) : string := ascii_title_from false s.

Definition normalise_ascii : Key → res (option string) :=
  normalise ascii_isalpha ascii_upper ascii_isprintable ascii_title.
Definition on_press_ascii :=
  _on_press ascii_isalpha ascii_upper ascii_isprintable ascii_title.
Definition on_release_ascii :=
  _on_release ascii_isalpha ascii_upper ascii_isprintable ascii_title.

(** ** Strings: [split] and slices *)

(** [s.split(sep)] for a one-byte separator: one part more than there are
    separators, empty parts included. *)
Fixpoint str_split (sep : Ascii.ascii) (s : string) : list string :=
  match s with
  | EmptyString => [EmptyString]
  | String c s' =>
    if Ascii.eqb c sep then EmptyString :: str_split sep s'
    else match str_split sep s' with
         | [] => [String c EmptyString]
         | part :: parts => String c part :: parts
         end
  end.

(** ** Insertion-ordered dictionaries

    [active_keys] is searched with [for k, v in ...items()] and a [break],
    so it is kept as the list of its items in insertion order. *)

Section Dict.
Context {V : Type}.

Fixpoint dict_get (k : string) (d : list (string * V)) : option V :=
  match d with
  | [] => None
  | (k', v) :: d' => if bool_decide (k' = k) then Some v else dict_get k d'
  end.

Definition dict_mem (k : string) (d : list (string * V)) : bool :=
  bool_decide (is_Some (dict_get k d)).

(** [d[k] = v]: in place when the key exists, at the end otherwise. *)
Fixpoint dict_set (k : string) (v : V) (d : list (string * V)) : list (string * V) :=
  match d with
  | [] => [(k, v)]
  | (k', v') :: d' =>
    if bool_decide (k' = k) then (k', v) :: d' else (k', v') :: dict_set k v d'
  end.

(** [del d[k]] for a key that is present: no item of that key is left. *)
Fixpoint dict_del (k : string) (d : list (string * V)) : list (string * V) :=
  match d with
  | [] => []
  | (k', v') :: d' =>
    if bool_decide (k' = k) then dict_del k d' else (k', v') :: dict_del k d'
  end.

Definition dict_keys (d : list (string * V)) : list string := d.*1.
Definition dict_values (d : list (string * V)) : list V := d.*2.
End Dict.

(** [l.remove(x)] for an element that is present: the first occurrence goes. *)
Fixpoint list_remove_first (x : nat) (l : list nat) : list nat :=
  match l with
  | [] => []
  | y :: l' => if bool_decide (y = x) then l' else y :: list_remove_first x l'
  end.

(** ** The key overlay *)

Record KeyBubble : Type := mkBubble {
  key_text : string;
  opacity : Q
}.

(** The two options the display state reads, with the types the
    settings dialog and the defaults give them: [max_keys] an [int],
    [fade_speed] a [float].  (A configuration edited by hand in the
    settings store can hold other types; the operations of the overlay
    are modelled for these two.) *)
Record OverlayConfig : Type := mkConfig {
  max_keys : Z;
  fade_speed : Q
}.

(** Bubbles are objects compared by identity and shared between
    [key_bubbles] and [active_keys]: they live in [heap] under the number
    they got at creation, [next_bubble] is the next free number.  A
    [fade_timers] entry is a running [QTimer] whose timeout calls
    [fade_key] with its key; the timer itself holds nothing else, so the
    dict is the set of its keys. *)
Record KeyOverlay : Type := mkOverlay {
  config : OverlayConfig;
  heap : nat → KeyBubble;
  next_bubble : nat;
  key_bubbles : list nat;
  fade_timers : gset string;
  active_keys : list (string * nat);
  combo_key_map : gmap string string
}.

Definition set_opacity (o : Q) (b : KeyBubble) : KeyBubble :=
  mkBubble (key_text b) o.

(** [KeyOverlay.__init__] *)
Definition new_overlay (cfg : OverlayConfig) : KeyOverlay :=
  mkOverlay cfg (λ _, mkBubble "" 1) 0 [] ∅ [] ∅.

(** The [for k, v in self.active_keys.items()] search of [add_key]. *)
Definition key_of_bubble (b : nat) (active : list (string * nat)) : option string :=
  fst <$> List.find (λ kv, bool_decide (kv.2 = b)) active.

(** The [while len(self.key_bubbles) > max_keys] loop of [add_key]; every
    round pops the head of the list. *)
Fixpoint limit_visible_keys (max : Z) (bubbles : list nat)
    (active : list (string * nat)) (timers : gset string)
  : res (list nat * list (string * nat) * gset string) :=
  if Z.of_nat (length bubbles) >? max then
    match bubbles with
    | [] => Raise IndexError
    | old_bubble :: bubbles' =>
      match key_of_bubble old_bubble active with
      | Some key_to_remove =>
        if str_truthy key_to_remove then
          limit_visible_keys max bubbles'
            (dict_del key_to_remove active) (timers ∖ {[ key_to_remove ]})
        else limit_visible_keys max bubbles' active timers
      | None => limit_visible_keys max bubbles' active timers
      end
    end
  else Ret (bubbles, active, timers).

Definition add_key (self : KeyOverlay) (key_name : string) : res KeyOverlay :=
  match dict_get key_name (active_keys self) with
  | Some bubble =>
    Ret (mkOverlay (config self)
           (<[ bubble := set_opacity 1 (heap self bubble) ]> (heap self))
           (next_bubble self) (key_bubbles self)
           (fade_timers self ∖ {[ key_name ]})
           (active_keys self) (combo_key_map self))
  | None =>
    let bubble := next_bubble self in
    '(bubbles, active, timers) ←
      limit_visible_keys (max_keys (config self))
        (key_bubbles self ++ [bubble])
        (dict_set key_name bubble (active_keys self))
        (fade_timers self);
    Ret (mkOverlay (config self)
           (<[ bubble := mkBubble key_name 1 ]> (heap self))
           (S bubble) bubbles timers active (combo_key_map self))
  end.

Definition _start_fade (self : KeyOverlay) (key_name : string) : KeyOverlay :=
  if dict_mem key_name (active_keys self) then
    mkOverlay (config self) (heap self) (next_bubble self) (key_bubbles self)
      ({[ key_name ]} ∪ fade_timers self)
      (active_keys self) (combo_key_map self)
  else self.

Definition release_key (self : KeyOverlay) (key_name : string) : KeyOverlay :=
  match combo_key_map self !! key_name with
  | Some combo =>
    let self1 := _start_fade self combo in
    mkOverlay (config self1) (heap self1) (next_bubble self1) (key_bubbles self1)
      (fade_timers self1) (active_keys self1)
      (filter (λ kv, kv.2 ≠ combo) (combo_key_map self1))
  | None => _start_fade self key_name
  end.

(** One round of the first loop of [show_combo]. *)
Definition remove_modifier_bubble (self : KeyOverlay) (part : string) : KeyOverlay :=
  match dict_get part (active_keys self) with
  | Some bubble =>
    mkOverlay (config self) (heap self) (next_bubble self)
      (list_remove_first bubble (key_bubbles self))
      (fade_timers self ∖ {[ part ]})
      (dict_del part (active_keys self))
      (combo_key_map self)
  | None => self
  end.

Definition show_combo (self : KeyOverlay) (combo : string) : res KeyOverlay :=
  let parts := str_split "+" combo in
  let self1 := foldl remove_modifier_bubble self (removelast parts) in
  let self2 :=
    mkOverlay (config self1) (heap self1) (next_bubble self1) (key_bubbles self1)
      (fade_timers self1) (active_keys self1)
      (foldl (λ m part, <[ part := combo ]> m) (combo_key_map self1) parts) in
  add_key self2 combo.

(** [fade_speed] of [fade_key]: the opacity lost per 50 ms tick. *)
Definition fade_per_tick (cfg : OverlayConfig) : Q :=
  (fade_speed cfg / 1000 * 50)%Q.

Definition fade_key (self : KeyOverlay) (key_name : string) : res KeyOverlay :=
  match dict_get key_name (active_keys self) with
  | None =>
    Ret (mkOverlay (config self) (heap self) (next_bubble self) (key_bubbles self)
           (fade_timers self ∖ {[ key_name ]})
           (active_keys self) (combo_key_map self))
  | Some bubble =>
    let o := (opacity (heap self bubble) - fade_per_tick (config self))%Q in
    let heap' := <[ bubble := set_opacity o (heap self bubble) ]> (heap self) in
    if Qle_bool o 0 then
      if bool_decide (key_name ∈ fade_timers self) then
        Ret (mkOverlay (config self) heap' (next_bubble self)
               (list_remove_first bubble (key_bubbles self))
               (fade_timers self ∖ {[ key_name ]})
               (dict_del key_name (active_keys self))
               (combo_key_map self))
      else Raise KeyError
    else
      Ret (mkOverlay (config self) heap' (next_bubble self) (key_bubbles self)
             (fade_timers self) (active_keys self) (combo_key_map self))
  end.

Definition update_config (self : KeyOverlay) (cfg : OverlayConfig) : KeyOverlay :=
  mkOverlay cfg (heap self) (next_bubble self) [] ∅ [] ∅.

(** [n] timeouts in a row of the timer of [key_name]. *)
Fixpoint fade_ticks (n : nat) (self : KeyOverlay) (key_name : string) : res KeyOverlay :=
  match n with
  | O => Ret self
  | S n' => self' ← fade_key self key_name; fade_ticks n' self' key_name
  end.

(** A sequence of [add_key] calls. *)
Fixpoint add_keys (self : KeyOverlay) (names : list string) : res KeyOverlay :=
  match names with
  | [] => Ret self
  | name :: names' => self' ← add_key self name; add_keys self' names'
  end.

(** ** Configuration

    A value as [json.loads] returns it.  The members of an object are the
    items of the Python dict in insertion order ([json.loads] yields each
    key once). *)

#[warnings="-register-all"]
Inductive json : Type :=
| JNull
| JBool (b : bool)
| JInt (z : Z)
| JFloat (q : Q)
| JStr (s : string)
| JArr (items : list json)
| JObj (members : list (string * json)).

(** Lists and dicts are unhashable and cannot be dict keys. *)
Definition json_hashable (j : json) : bool :=
  match j with
  | JArr _ | JObj _ => false
  | _ => true
  end.

Definition json_number (j : json) : option Q :=
  match j with
  | JBool b => Some (if b then 1 else 0)%Q
  | JInt z => Some (inject_Z z)
  | JFloat q => Some q
  | _ => None
  end.

(** Equality of dict keys: [1 == 1.0 == True], strings by content. *)
Definition key_eqb (a b : json) : bool :=
  match a, b with
  | JNull, JNull => true
  | JStr s, JStr t => bool_decide (s = t)
  | _, _ =>
    match json_number a, json_number b with
    | Some x, Some y => Qeq_bool x y
    | _, _ => false
    end
  end.

(** The configuration dict, items in insertion order. *)
Fixpoint pydict_get (k : json) (d : list (json * json)) : option json :=
  match d with
  | [] => None
  | (k', v) :: d' => if key_eqb k' k then Some v else pydict_get k d'
  end.

Fixpoint pydict_set (k v : json) (d : list (json * json)) : list (json * json) :=
  match d with
  | [] => [(k, v)]
  | (k', v') :: d' =>
    if key_eqb k' k then (k', v) :: d' else (k', v') :: pydict_set k v d'
  end.

(** The characters of a [str]: a lead byte with its continuation bytes. *)
Definition is_continuation (c : Ascii.ascii) : bool :=
  let n := Ascii.N_of_ascii c in (128 <=? n)%N && (n <? 192)%N.

Fixpoint utf8_chars (s : string) : list string :=
  match s with
  | EmptyString => []
  | String c s' =>
    match utf8_chars s' with
    | (String c' _ as ch) :: chars =>
      if is_continuation c' then String c ch :: chars
      else String c EmptyString :: ch :: chars
    | chars => String c EmptyString :: chars
    end
  end.

(** How [dict.update] ends. *)
Inductive update_end : Type :=
| Updated
| UpdateTypeError
| UpdateValueError.

(** What [dict.update] makes of one element of a sequence: the element
    must be iterable and must have exactly two items. *)
Inductive pair_view : Type :=
| IsPair (k v : json)
| NotIterable
| WrongLength.

Definition as_pair (item : json) : pair_view :=
  match item with
  | JNull | JBool _ | JInt _ | JFloat _ => NotIterable
  | JStr s =>
    match utf8_chars s with
    | [a; b] => IsPair (JStr a) (JStr b)
    | _ => WrongLength
    end
  | JArr [k; v] => IsPair k v
  | JArr _ => WrongLength
  | JObj [(k1, _); (k2, _)] => IsPair (JStr k1) (JStr k2)
  | JObj _ => WrongLength
  end.

(** [d.update(seq)] for a sequence of pairs: the items before a failing
    one stay in the dict. *)
Fixpoint update_from_seq (d : list (json * json)) (items : list json)
  : list (json * json) * update_end :=
  match items with
  | [] => (d, Updated)
  | item :: items' =>
    match as_pair item with
    | NotIterable => (d, UpdateTypeError)
    | WrongLength => (d, UpdateValueError)
    | IsPair k v =>
      if json_hashable k then update_from_seq (pydict_set k v d) items'
      else (d, UpdateTypeError)
    end
  end.

(** [d.update(other)] for a value returned by [json.loads]. *)
Definition pydict_update (d : list (json * json)) (other : json)
  : list (json * json) * update_end :=
  match other with
  | JObj members =>
    (foldl (λ d' kv, pydict_set (JStr kv.1) kv.2 d') d members, Updated)
  | JArr items => update_from_seq d items
  | JStr s => update_from_seq d (JStr <$> utf8_chars s)
  | JNull | JBool _ | JInt _ | JFloat _ => (d, UpdateTypeError)
  end.

Definition DEFAULT_CONFIG : list (json * json) := [
  (JStr "bg_color", JStr "#2b2b2b");
  (JStr "text_color", JStr "#ffffff");
  (JStr "border_color", JStr "#555555");
  (JStr "show_border", JBool true);
  (JStr "font_family", JStr "Segoe UI");
  (JStr "font_size", JInt 20);
  (JStr "font_bold", JBool true);
  (JStr "padding", JInt 15);
  (JStr "min_bubble_width", JInt 55);
  (JStr "border_radius", JInt 25);
  (JStr "border_width", JInt 3);
  (JStr "overlay_height", JInt 80);
  (JStr "margin_bottom", JInt 50);
  (JStr "margin_horizontal", JInt 0);
  (JStr "bubble_spacing", JInt 10);
  (JStr "fade_speed", JFloat (1 # 2));
  (JStr "max_keys", JInt 10);
  (JStr "start_minimized", JBool true);
  (JStr "autostart", JBool false);
  (JStr "position_horizontal", JStr "center");
  (JStr "position_vertical", JStr "bottom");
  (JStr "screen_selection", JStr "primary");
  (JStr "show_click_spot", JBool true);
  (JStr "click_spot_radius", JInt 45);
  (JStr "click_spot_fade_ms", JInt 400);
  (JStr "click_spot_color_left", JStr "#6490ff");
  (JStr "click_spot_color_right", JStr "#ff7864");
  (JStr "click_spot_color_middle", JStr "#8cc88c");
  (JStr "click_spot_opacity", JFloat (7 # 10))
].

(** What [QSettings.value("config")] returns: nothing, a string, the
    bytes of a [bytes] or [bytearray], or a value of another type (with
    its truth value). *)
Inductive qvariant : Type :=
| QNone
| QString (s : string)
| QBytes (b : string)
| QOther (truthy : bool).

Definition qvariant_truthy (v : qvariant) : bool :=
  match v with
  | QNone => false
  | QString s => str_truthy s
  | QBytes b => str_truthy b
  | QOther t => t
  end.

Record KeyVisualizerApp : Type := mkApp {
  settings : qvariant;
  app_config : list (json * json)
}.

Section Persistence.

(** [json.loads] on the stored value and [json.dumps] on a dict.
    [json.loads] returns the parsed value or raises: [JSONDecodeError]
    for a text that is no JSON, [TypeError] for a value that is no [str],
    [bytes] or [bytearray], and other exceptions that the [except] clause
    of [load_config] does not name, such as [ValueError] for an integer
    of more digits than [int] converts and [RecursionError] for a deeply
    nested text. *)
Variable json_loads : qvariant → res json.
Variable json_dumps : list (json * json) → string.

Definition load_config (self : KeyVisualizerApp) : res (list (json * json)) :=
  let config := DEFAULT_CONFIG in
  let stored := settings self in
  if qvariant_truthy stored then
    match json_loads stored with
    | Ret stored_config =>
      match pydict_update config stored_config with
      | (config', Updated) => Ret config'
      | (config', UpdateTypeError) => Ret config'
      | (_, UpdateValueError) => Raise ValueError
      end
    | Raise JSONDecodeError => Ret config
    | Raise TypeError => Ret config
    | Raise e => Raise e
    end
  else Ret config.

Definition save_config (self : KeyVisualizerApp) : KeyVisualizerApp :=
  mkApp (QString (json_dumps (app_config self))) (app_config self).

End Persistence.

(** ** A JSON codec

    A printer and a parser for JSON text in the layout of [json.dumps]
    (items separated by [", "], keys by [": "]); strings are limited to the
    escapes of the quote and the backslash.  They stand in for [json.dumps]
    and [json.loads] when the persistence functions are run. *)

Definition is_digit (c : Ascii.ascii) : bool :=
  let n := Ascii.N_of_ascii c in (48 <=? n)%N && (n <=? 57)%N.

Definition is_space (c : Ascii.ascii) : bool :=
  let n := Ascii.N_of_ascii c in
  (n =? 32)%N || (n =? 9)%N || (n =? 10)%N || (n =? 13)%N.

Fixpoint skip_ws (s : string) : string :=
  match s with
  | String c s' => if is_space c then skip_ws s' else s
  | EmptyString => s
  end.

Fixpoint encode_chars (s : string) : string :=
  match s with
  | EmptyString => EmptyString
  | String c s' =>
    if Ascii.eqb c "034" then String "\" (String "034" (encode_chars s'))
    else if Ascii.eqb c "\" then String "\" (String "\" (encode_chars s'))
    else String c (encode_chars s')
  end.

Definition encode_string (s : string) : string :=
  String "034" (encode_chars s +:+ String "034" EmptyString).

(** The least [k] in [1 .. 1 + fuel] with [q * 10^k] integral. *)
Fixpoint decimal_places (fuel : nat) (k : nat) (q : Q) : nat :=
  match fuel with
  | O => k
  | S fuel' =>
    if (Qnum q * 10 ^ Z.of_nat k) `mod` Zpos (Qden q) =? 0 then k
    else decimal_places fuel' (S k) q
  end.

Fixpoint pad_zeros (n : nat) (s : string) : string :=
  match n with
  | O => s
  | S n' => if (String.length s <? n)%nat then pad_zeros n' ("0" +:+ s) else s
  end.

Definition encode_float (q : Q) : string :=
  let k := decimal_places 17 1 q in
  let m := (Qnum q * 10 ^ Z.of_nat k) `div` Zpos (Qden q) in
  let a := Z.abs m in
  (if m <? 0 then "-" else "") +:+ pretty (a `div` 10 ^ Z.of_nat k) +:+ "." +:+
  pad_zeros k (pretty (a `mod` 10 ^ Z.of_nat k)).

Fixpoint json_encode (j : json) : string :=
  match j with
  | JNull => "null"
  | JBool true => "true"
  | JBool false => "false"
  | JInt z => pretty z
  | JFloat q => encode_float q
  | JStr s => encode_string s
  | JArr items =>
    "[" +:+
    (fix go (l : list json) : string :=
       match l with
       | [] => ""
       | x :: l' =>
         match l' with
         | [] => json_encode x
         | _ => json_encode x +:+ ", " +:+ go l'
         end
       end) items +:+ "]"
  | JObj members =>
    "{" +:+
    (fix go (l : list (string * json)) : string :=
       match l with
       | [] => ""
       | (k, v) :: l' =>
         match l' with
         | [] => encode_string k +:+ ": " +:+ json_encode v
         | _ => encode_string k +:+ ": " +:+ json_encode v +:+ ", " +:+ go l'
         end
       end) members +:+ "}"
  end.

(** A dict key as [json.dumps] writes it. *)
Definition key_text_of (k : json) : string :=
  match k with
  | JStr s => s
  | other => json_encode other
  end.

Definition json_encode_dict (d : list (json * json)) : string :=
  json_encode (JObj ((λ kv, (key_text_of kv.1, kv.2)) <$> d)).

Fixpoint read_digits (s : string) (acc : Z) (n : nat) : Z * nat * string :=
  match s with
  | String c s' =>
    if is_digit c
    then read_digits s' (acc * 10 + (Z.of_N (Ascii.N_of_ascii c) - 48)) (S n)
    else (acc, n, s)
  | EmptyString => (acc, n, s)
  end.

Definition parse_number (s : string) : option (json * string) :=
  let '(sign, s1) :=
    match s with
    | String "-" s' => (-1, s')
    | _ => (1, s)
    end in
  let '(m, n, s2) := read_digits s1 0 0 in
  if (n =? 0)%nat then None
  else
    match s2 with
    | String "." s3 =>
      let '(f, k, s4) := read_digits s3 0 0 in
      if (k =? 0)%nat then None
      else
        let num := sign * (m * 10 ^ Z.of_nat k + f) in
        Some (JFloat (Qred (Qmake num (Z.to_pos (10 ^ Z.of_nat k)))), s4)
    | _ => Some (JInt (sign * m), s2)
    end.

(** The text after an opening quote, up to the closing one. *)
Fixpoint parse_chars (s : string) : option (string * string) :=
  match s with
  | EmptyString => None
  | String c s' =>
    if Ascii.eqb c "034" then Some (EmptyString, s')
    else if Ascii.eqb c "\" then
      match s' with
      | String e s'' =>
        if Ascii.eqb e "034" || Ascii.eqb e "\" then
          '(t, r) ← parse_chars s''; Some (String e t, r)
        else None
      | EmptyString => None
      end
    else '(t, r) ← parse_chars s'; Some (String c t, r)
  end.

Definition expect (word : string) (v : json) (s : string) : option (json * string) :=
  if String.prefix word s then Some (v, str_drop (String.length word) s) else None.

Fixpoint parse_items (value : string → option (json * string)) (fuel : nat)
    (s : string) : option (list json * string) :=
  match fuel with
  | O => None
  | S fuel' =>
    '(v, r) ← value s;
    match skip_ws r with
    | String "," r' => '(vs, r'') ← parse_items value fuel' r'; Some (v :: vs, r'')
    | String "]" r' => Some ([v], r')
    | _ => None
    end
  end.

Fixpoint parse_members (value : string → option (json * string)) (fuel : nat)
    (s : string) : option (list (string * json) * string) :=
  match fuel with
  | O => None
  | S fuel' =>
    match skip_ws s with
    | String "034" r0 =>
      '(k, r1) ← parse_chars r0;
      match skip_ws r1 with
      | String ":" r2 =>
        '(v, r3) ← value r2;
        match skip_ws r3 with
        | String "," r4 =>
          '(kvs, r5) ← parse_members value fuel' r4; Some ((k, v) :: kvs, r5)
        | String "}" r4 => Some ([(k, v)], r4)
        | _ => None
        end
      | _ => None
      end
    | _ => None
    end
  end.

Fixpoint parse_value (fuel : nat) (s : string) : option (json * string) :=
  match fuel with
  | O => None
  | S fuel' =>
    match skip_ws s with
    | String "n" _ as t => expect "null" JNull t
    | String "t" _ as t => expect "true" (JBool true) t
    | String "f" _ as t => expect "false" (JBool false) t
    | String "034" r => '(str, r') ← parse_chars r; Some (JStr str, r')
    | String "[" r =>
      match skip_ws r with
      | String "]" r' => Some (JArr [], r')
      | _ => '(vs, r') ← parse_items (parse_value fuel') fuel' r; Some (JArr vs, r')
      end
    | String "{" r =>
      match skip_ws r with
      | String "}" r' => Some (JObj [], r')
      | _ => '(kvs, r') ← parse_members (parse_value fuel') fuel' r; Some (JObj kvs, r')
      end
    | t => parse_number t
    end
  end.

(** A document is one value with nothing but white space after it. *)
Definition json_decode (s : string) : option json :=
  '(v, r) ← parse_value (S (String.length s)) s;
  match skip_ws r with
  | EmptyString => Some v
  | _ => None
  end.

(** The codec in the place of [json.loads], for the examples: a text is
    decoded, bytes are decoded as UTF-8, any other value is refused. *)
Definition py_json_loads (stored : qvariant) : res json :=
  match stored with
  | QString text | QBytes text =>
    match json_decode text with
    | Some v => Ret v
    | None => Raise JSONDecodeError
    end
  | _ => Raise TypeError
  end.

(** ** Definitions used in the statements *)

(** A key that only has a virtual-key code. *)
Definition vk_key (vk : Z) : Key := mkKey "" None (Some vk).

(** Whether a result is a label. *)
Definition is_label (r : res (option string)) : bool :=
  match r with
  | Ret (Some _) => true
  | _ => false
  end.

(** The order in which [_on_press] looks for held modifiers. *)
Definition COMBO_ORDER : list string := ["Ctrl"; "Alt"; "Shift"; "Win"].

(** Bubbles are numbered in the order of their creation: the list is in
    creation order when the numbers increase along it and are all in use. *)
Definition creation_ordered (self : KeyOverlay) : Prop :=
  StronglySorted lt (key_bubbles self) ∧
  Forall (λ b, (b < next_bubble self)%nat) (key_bubbles self).

(** The configured ceiling holds. *)
Definition within_limit (self : KeyOverlay) : Prop :=
  Z.of_nat (length (key_bubbles self)) ≤ max_keys (config self).

(** No bubble of the list has a number that is still free. *)
Definition bubbles_numbered (self : KeyOverlay) : Prop :=
  Forall (λ b, (b < next_bubble self)%nat) (key_bubbles self).

(** An overlay with two keys shown, the first one released and one tick
    into its fade. *)
Definition faded_overlay : KeyOverlay :=
  mkOverlay (mkConfig 3 (1 # 2))
    (<[ 0%nat := mkBubble "A" (39 # 40) ]>
       (<[ 1%nat := mkBubble "B" 1 ]> (λ _, mkBubble "" 1)))
    2 [0%nat; 1%nat] {[ "A" ]} [("A", 0%nat); ("B", 1%nat)] ∅.

(** An overlay showing a held Ctrl key. *)
Definition ctrl_overlay : KeyOverlay :=
  mkOverlay (mkConfig 3 (1 # 2))
    (<[ 0%nat := mkBubble "Ctrl" 1 ]> (λ _, mkBubble "" 1))
    1 [0%nat] ∅ [("Ctrl", 0%nat)] ∅.

(** The default values of the two options of the overlay. *)
Definition default_overlay_config : OverlayConfig := mkConfig 10 (1 # 2).

(** The dict that has the members of a JSON object as its items. *)
Definition dict_of_members (members : list (string * json)) : list (json * json) :=
  (λ kv, (JStr kv.1, kv.2)) <$> members.

(** Every key of the dict is a string. *)
Definition str_keys (d : list (json * json)) : Prop :=
  Forall (λ kv, ∃ s, kv.1 = JStr s) d.

(** [null], booleans and numbers. *)
Definition json_scalar (j : json) : bool :=
  match j with
  | JNull | JBool _ | JInt _ | JFloat _ => true
  | _ => false
  end.

(** The value a JSON object gives to a key: the one of its last member of
    that name. *)
Definition member_value (s : string) (members : list (string * json)) : option json :=
  dict_get s (reverse members).

(** A stored configuration with a key that is no option. *)
Definition themed_text : string :=
  json_encode (JObj [("max_keys", JInt 3); ("theme", JStr "dark")]).

(** The members of the object [json.dumps] writes for a dict with string
    keys. *)
Definition members_of_dict (d : list (json * json)) : list (string * json) :=
  omap (λ kv, match kv.1 with JStr s => Some (s, kv.2) | _ => None end) d.

(** A configuration that differs from the defaults in two options. *)
Definition custom_members : list (string * json) :=
  members_of_dict
    (pydict_set (JStr "max_keys") (JInt 5)
       (pydict_set (JStr "fade_speed") (JFloat (3 # 2)) DEFAULT_CONFIG)).

(** A consistent display state: the bubbles of
    [active_keys] are exactly the bubbles of [key_bubbles], no bubble is
    listed or named twice, and every fade timer belongs to a shown name. *)
Definition consistent (self : KeyOverlay) : Prop :=
  (∀ b, b ∈ (active_keys self).*2 ↔ b ∈ key_bubbles self) ∧
  NoDup (active_keys self).*2 ∧
  NoDup (key_bubbles self) ∧
  (∀ k, k ∈ fade_timers self → is_Some (dict_get k (active_keys self))).

(** The invariant of the three containers of the display state: they name
    the same bubbles, once each, under names that are not empty, and every
    timer belongs to a shown name. *)
Definition display_inv (bubbles : list nat) (active : list (string * nat))
    (timers : gset string) : Prop :=
  (∀ b, b ∈ active.*2 ↔ b ∈ bubbles) ∧
  NoDup active.*2 ∧
  NoDup bubbles ∧
  (∀ k, k ∈ timers → is_Some (dict_get k active)) ∧
  NoDup active.*1 ∧
  (∀ k b, (k, b) ∈ active → k ≠ "").

Definition overlay_inv (self : KeyOverlay) : Prop :=
  display_inv (key_bubbles self) (active_keys self) (fade_timers self) ∧
  bubbles_numbered self.

(** Every shown entry has an opacity in (0, 1], and exactly 1.0 while no
    fade timer runs for it. *)
Definition opacity_inv (self : KeyOverlay) : Prop :=
  ∀ k b, dict_get k (active_keys self) = Some b →
    (0 < opacity (heap self b))%Q ∧
    (opacity (heap self b) <= 1)%Q ∧
    (k ∉ fade_timers self → opacity (heap self b) = 1%Q).

(** What happens to an overlay while the application runs: the slots of
    the listener signals, the timeout of a running fade timer, and a
    change of settings. *)
Inductive overlay_step (self : KeyOverlay) : KeyOverlay → Prop :=
| step_add_key (key_name : string) (self' : KeyOverlay) :
    key_name ≠ "" → add_key self key_name = Ret self' → overlay_step self self'
| step_release_key (key_name : string) :
    overlay_step self (release_key self key_name)
| step_show_combo (combo : string) (self' : KeyOverlay) :
    combo ≠ "" → show_combo self combo = Ret self' → overlay_step self self'
| step_timeout (key_name : string) (self' : KeyOverlay) :
    key_name ∈ fade_timers self → fade_key self key_name = Ret self' →
    overlay_step self self'
| step_update_config (cfg : OverlayConfig) :
    (0 <= fade_speed cfg)%Q → overlay_step self (update_config self cfg).

(** [c in s] for one byte. *)
Fixpoint str_mem (c : Ascii.ascii) (s : string) : bool :=
  match s with
  | EmptyString => false
  | String c' s' => Ascii.eqb c' c || str_mem c s'
  end.

(** ** Sequences of keyboard events *)

(** What pynput reports to the listener. *)
Inductive key_event : Type :=
| KeyDown (key : Key)
| KeyUp (key : Key).

(** The text a signal carries. *)
Definition signal_text (sig : signal) : string :=
  match sig with
  | key_pressed name => name
  | key_released name => name
  | combo_pressed combo => combo
  end.

Section ListenerRun.

Variable str_isalpha : string → bool.
Variable str_upper : string → string.
Variable str_isprintable : string → bool.
Variable str_title : string → string.

(** The callback pynput calls for an event. *)
Definition listener_event (self : KeyboardListener) (ev : key_event)
  : res (KeyboardListener * list signal) :=
  match ev with
  | KeyDown key => _on_press str_isalpha str_upper str_isprintable str_title self key
  | KeyUp key => _on_release str_isalpha str_upper str_isprintable str_title self key
  end.

(** The callbacks for a sequence of events, with the signals they emit. *)
Fixpoint listener_run (self : KeyboardListener) (events : list key_event)
  : res (KeyboardListener * list signal) :=
  match events with
  | [] => Ret (self, [])
  | ev :: events' =>
    '(self1, sigs1) ← listener_event self ev;
    '(self2, sigs2) ← listener_run self1 events';
    Ret (self2, (sigs1 ++ sigs2)%list)
  end.

End ListenerRun.

Definition listener_run_ascii :=
  listener_run ascii_isalpha ascii_upper ascii_isprintable ascii_title.

(** Whether a result is no empty label. *)
Definition not_empty_label (r : res (option string)) : bool :=
  match r with
  | Ret (Some EmptyString) => false
  | _ => true
  end.

(** ** The settings dialog *)

(** [d[k]] on the configuration dict. *)
Definition pydict_getitem (d : list (json * json)) (k : json) : res json :=
  match pydict_get k d with
  | Some v => Ret v
  | None => Raise KeyError
  end.

(** [d.get(k, default)] *)
Definition pydict_get_default (d : list (json * json)) (k default : json) : json :=
  match pydict_get k d with
  | Some v => v
  | None => default
  end.

(** The values of the widgets [get_config] reads: check boxes, spin
    boxes and sliders, the font family, and the [currentData()] of the
    three combo boxes, whose items all carry a string. *)
Record DialogWidgets : Type := mkWidgets {
  show_border_cb : bool;
  font_combo : string;
  font_size_spin : Z;
  font_bold_cb : bool;
  padding_spin : Z;
  min_width_spin : Z;
  radius_spin : Z;
  border_width_spin : Z;
  height_spin : Z;
  margin_spin : Z;
  h_margin_spin : Z;
  spacing_spin : Z;
  fade_slider : Z;
  max_keys_spin : Z;
  start_minimized_cb : bool;
  autostart_cb : bool;
  h_pos_combo : string;
  v_pos_combo : string;
  screen_combo : string;
  show_click_spot_cb : bool;
  click_spot_radius_spin : Z;
  click_spot_fade_spin : Z;
  click_spot_opacity_slider : Z
}.

Record SettingsDialog : Type := mkDialog {
  dialog_config : list (json * json);
  widgets : DialogWidgets
}.

Definition get_config (self : SettingsDialog) : res (list (json * json)) :=
  let w := widgets self in
  bg_color ← pydict_getitem (dialog_config self) (JStr "bg_color");
  text_color ← pydict_getitem (dialog_config self) (JStr "text_color");
  border_color ← pydict_getitem (dialog_config self) (JStr "border_color");
  Ret [
    (JStr "bg_color", bg_color);
    (JStr "text_color", text_color);
    (JStr "border_color", border_color);
    (JStr "show_border", JBool (show_border_cb w));
    (JStr "font_family", JStr (font_combo w));
    (JStr "font_size", JInt (font_size_spin w));
    (JStr "font_bold", JBool (font_bold_cb w));
    (JStr "padding", JInt (padding_spin w));
    (JStr "min_bubble_width", JInt (min_width_spin w));
    (JStr "border_radius", JInt (radius_spin w));
    (JStr "border_width", JInt (border_width_spin w));
    (JStr "overlay_height", JInt (height_spin w));
    (JStr "margin_bottom", JInt (margin_spin w));
    (JStr "margin_horizontal", JInt (h_margin_spin w));
    (JStr "bubble_spacing", JInt (spacing_spin w));
    (JStr "fade_speed", JFloat (inject_Z (fade_slider w) / 10));
    (JStr "max_keys", JInt (max_keys_spin w));
    (JStr "start_minimized", JBool (start_minimized_cb w));
    (JStr "autostart", JBool (autostart_cb w));
    (JStr "position_horizontal", JStr (h_pos_combo w));
    (JStr "position_vertical", JStr (v_pos_combo w));
    (JStr "screen_selection", JStr (screen_combo w));
    (JStr "show_click_spot", JBool (show_click_spot_cb w));
    (JStr "click_spot_radius", JInt (click_spot_radius_spin w));
    (JStr "click_spot_fade_ms", JInt (click_spot_fade_spin w));
    (JStr "click_spot_color_left",
       pydict_get_default (dialog_config self) (JStr "click_spot_color_left") (JStr "#6490ff"));
    (JStr "click_spot_color_right",
       pydict_get_default (dialog_config self) (JStr "click_spot_color_right") (JStr "#ff7864"));
    (JStr "click_spot_color_middle",
       pydict_get_default (dialog_config self) (JStr "click_spot_color_middle") (JStr "#8cc88c"));
    (JStr "click_spot_opacity", JFloat (inject_Z (click_spot_opacity_slider w) / 100))
  ].

(** The widgets of a dialog opened on the defaults and left as they are. *)
Definition default_widgets : DialogWidgets :=
  mkWidgets true "Segoe UI" 20 true 15 55 25 3 80 50 0 10 5 10 true false
    "center" "bottom" "primary" true 45 400 70.

(** ** Layout of the bubbles *)

(** The size Qt reports for a bubble widget. *)
Record BubbleSize : Type := mkSize {
  bubble_width : Z;
  bubble_height : Z
}.

(** [sum(b.width() for b in self.key_bubbles)] *)
Definition sum_widths (sizes : list BubbleSize) : Z :=
  foldr (λ b acc, bubble_width b + acc) 0 sizes.

(** The loop of [layout_bubbles]: the positions passed to [move]. *)
Fixpoint move_bubbles (x y spacing : Z) (sizes : list BubbleSize) : list (Z * Z) :=
  match sizes with
  | [] => []
  | bubble :: rest =>
    (x, y) :: move_bubbles (x + (bubble_width bubble + spacing)) y spacing rest
  end.

(** [layout_bubbles] for an overlay of the given width and height and an
    integer [bubble_spacing]: the position each bubble is moved to, in the
    order of [key_bubbles].  [//] on integers is floor division. *)
Definition layout_bubbles (width height spacing : Z) (sizes : list BubbleSize)
  : list (Z * Z) :=
  match sizes with
  | [] => []
  | first :: _ =>
    let total_width :=
      sum_widths sizes + spacing * (Z.of_nat (length sizes) - 1) in
    let start_x := (width - total_width) `div` 2 in
    let y := (height - bubble_height first) `div` 2 in
    move_bubbles start_x y spacing sizes
  end.

(** ** Click spots *)

Record Spot : Type := mkSpot {
  spot_x : Q;
  spot_y : Q;
  alpha : Q;
  button_name : string;
  created_at : Q
}.

(** The overlay of the click spots: its configuration, the spots in the
    order they were added, and whether [_fade_timer] runs. *)
Record ClickSpotOverlay : Type := mkSpots {
  spot_config : list (json * json);
  spots : list Spot;
  fade_timer_active : bool
}.

Definition _default_click_spot_config : list (json * json) := [
  (JStr "click_spot_radius", JInt 45);
  (JStr "click_spot_fade_ms", JInt 400);
  (JStr "click_spot_color_left", JStr "#6490ff");
  (JStr "click_spot_color_right", JStr "#ff7864");
  (JStr "click_spot_color_middle", JStr "#8cc88c");
  (JStr "click_spot_opacity", JFloat (7 # 10))
].

(** [d.update(other)] for a dict [other]. *)
Definition pydict_update_dict (d other : list (json * json)) : list (json * json) :=
  foldl (λ d' kv, pydict_set kv.1 kv.2 d') d other.

(** [add_spot]; [now] is the value of [time.perf_counter()]. *)
Definition add_spot (self : ClickSpotOverlay) (screen_x screen_y : Q)
    (name : string) (now : Q) : ClickSpotOverlay :=
  mkSpots (spot_config self)
    (spots self ++ [mkSpot screen_x screen_y 1 name now])
    true.

(** How a timeout of the fade timer ends. *)
Inductive tick_result (A : Type) : Type :=
| Ticked (a : A)
| TickZeroDivisionError
| TickTypeError.
Arguments Ticked {A} a.
Arguments TickZeroDivisionError {A}.
Arguments TickTypeError {A}.

(** [x / d] for a float [x] and a configuration value [d]. *)
Definition float_div (x : Q) (d : json) : tick_result Q :=
  match json_number d with
  | Some q => if Qeq_bool q 0 then TickZeroDivisionError else Ticked (x / q)%Q
  | None => TickTypeError
  end.

(** [a > b] on floats. *)
Definition Qgt_bool (a b : Q) : bool := negb (Qle_bool a b).

(** [max(a, b)]: the second argument when it is greater, else the first. *)
Definition py_max (a b : Q) : Q := if Qgt_bool b a then b else a.

Definition set_alpha (a : Q) (s : Spot) : Spot :=
  mkSpot (spot_x s) (spot_y s) a (button_name s) (created_at s).

(** The [for s in self.spots] loop of [_tick_fade]. *)
Fixpoint decay_spots (now : Q) (fade_ms : json) (l : list Spot)
  : tick_result (list Spot) :=
  match l with
  | [] => Ticked []
  | s :: rest =>
    let elapsed_ms := ((now - created_at s) * 1000)%Q in
    match float_div elapsed_ms fade_ms with
    | Ticked r =>
      match decay_spots now fade_ms rest with
      | Ticked rest' => Ticked (set_alpha (py_max 0 (1 - r)) s :: rest')
      | TickZeroDivisionError => TickZeroDivisionError
      | TickTypeError => TickTypeError
      end
    | TickZeroDivisionError => TickZeroDivisionError
    | TickTypeError => TickTypeError
    end
  end.

(** [cfg.get('click_spot_fade_ms', 400)] of [_tick_fade]. *)
Definition tick_fade_ms (self : ClickSpotOverlay) : json :=
  pydict_get_default
    (pydict_update_dict _default_click_spot_config (spot_config self))
    (JStr "click_spot_fade_ms") (JInt 400).

(** [_tick_fade]; [now] is the value of [time.perf_counter()]. *)
Definition _tick_fade (self : ClickSpotOverlay) (now : Q)
  : tick_result ClickSpotOverlay :=
  match decay_spots now (tick_fade_ms self) (spots self) with
  | Ticked decayed =>
    let alive := List.filter (λ s, Qgt_bool (alpha s) (1 # 1000)) decayed in
    Ticked (mkSpots (spot_config self) alive
              (match alive with
               | [] => false
               | _ :: _ => fade_timer_active self
               end))
  | TickZeroDivisionError => TickZeroDivisionError
  | TickTypeError => TickTypeError
  end.

(** The age of a spot in milliseconds. *)
Definition spot_age_ms (now : Q) (s : Spot) : Q := ((now - created_at s) * 1000)%Q.

(** [ClickSpotOverlay.__init__] *)
Definition new_click_spot_overlay (cfg : list (json * json)) : ClickSpotOverlay :=
  mkSpots cfg [] false.

(** [ClickSpotOverlay.update_config] *)
Definition click_spot_update_config (self : ClickSpotOverlay)
    (cfg : list (json * json)) : ClickSpotOverlay :=
  mkSpots cfg (spots self) (fade_timer_active self).

(** What happens to the overlay of the click spots while the application
    runs: a click, a timeout of the fade timer that does not raise, and a
    change of settings. *)
Inductive spot_step (self : ClickSpotOverlay) : ClickSpotOverlay → Prop :=
| spot_step_add (x y : Q) (name : string) (now : Q) :
    spot_step self (add_spot self x y name now)
| spot_step_tick (now : Q) (self' : ClickSpotOverlay) :
    _tick_fade self now = Ticked self' → spot_step self self'
| spot_step_config (cfg : list (json * json)) :
    spot_step self (click_spot_update_config self cfg).

(** ** Mouse clicks *)

(** The buttons pynput reports. *)
Module Button.
Inductive t : Type :=
| left
| middle
| right
| unknown
| extra (name : string).
End Button.

(** [MOUSE_BUTTON_NAMES.get(button)] *)
Definition MOUSE_BUTTON_NAMES (button : Button.t) : option string :=
  match button with
  | Button.left => Some "Left Click"
  | Button.right => Some "Right Click"
  | Button.middle => Some "Middle Click"
  | _ => None
  end.

(** The Qt signals of [MouseClickListener]. *)
Inductive click_signal : Type :=
| click_pressed (name : string) (x y : Q)
| click_released (name : string).

Definition _on_click (x y : Z) (button : Button.t) (pressed : bool)
  : list click_signal :=
  match MOUSE_BUTTON_NAMES button with
  | None => []
  | Some name =>
    if pressed then [click_pressed name (inject_Z x) (inject_Z y)]
    else [click_released name]
  end.

(** ** The application *)

(** The truth value of a configuration value. *)
Definition json_truthy (j : json) : bool :=
  match j with
  | JNull => false
  | JBool b => b
  | JInt z => negb (z =? 0)
  | JFloat q => negb (Qeq_bool q 0)
  | JStr s => str_truthy s
  | JArr items => match items with [] => false | _ :: _ => true end
  | JObj members => match members with [] => false | _ :: _ => true end
  end.

(** The two options a [KeyOverlay] reads from a configuration dict that
    has them as an integer and a number; [get_config] and
    [DEFAULT_CONFIG], the only configurations passed to
    [KeyOverlay.update_config], have both. *)
Definition overlay_options (cfg : list (json * json)) : option OverlayConfig :=
  match pydict_get (JStr "max_keys") cfg, pydict_get (JStr "fade_speed") cfg with
  | Some (JInt n), Some speed =>
    match json_number speed with
    | Some q => Some (mkConfig n q)
    | None => None
    end
  | _, _ => None
  end.

(** [overlay.update_config(config)] for a configuration dict; without the
    two options the typed overlay keeps the ones it has. *)
Definition overlay_update_config (self : KeyOverlay) (cfg : list (json * json))
  : KeyOverlay :=
  update_config self (default (config self) (overlay_options cfg)).

(** [KeyVisualizerApp] while it runs: the stored settings and [config],
    [is_active], the keyboard listener and the two overlays.  The mouse
    listener has no state of its own. *)
Record RunningApp : Type := mkRunning {
  stored : KeyVisualizerApp;
  is_active : bool;
  keyboard_listener : KeyboardListener;
  overlay : KeyOverlay;
  click_spot_overlay : ClickSpotOverlay
}.

Definition set_overlay (self : RunningApp) (o : KeyOverlay) : RunningApp :=
  mkRunning (stored self) (is_active self) (keyboard_listener self) o
    (click_spot_overlay self).

(** [toggle_active]; showing and hiding the windows is not part of the
    state. *)
Definition toggle_active (self : RunningApp) : RunningApp :=
  mkRunning (stored self) (negb (is_active self)) (keyboard_listener self)
    (overlay self) (click_spot_overlay self).

Definition on_key_pressed (self : RunningApp) (key_name : string) : res RunningApp :=
  if is_active self then
    o ← add_key (overlay self) key_name; Ret (set_overlay self o)
  else Ret self.

Definition on_key_released (self : RunningApp) (key_name : string) : res RunningApp :=
  if is_active self then
    Ret (set_overlay self (release_key (overlay self) key_name))
  else Ret self.

Definition on_combo_pressed (self : RunningApp) (combo : string) : res RunningApp :=
  if is_active self then
    o ← show_combo (overlay self) combo; Ret (set_overlay self o)
  else Ret self.

(** [on_click_pressed]; [now] is the value of [time.perf_counter()] in
    [add_spot]. *)
Definition on_click_pressed (self : RunningApp) (name : string) (x y : Q) (now : Q)
  : res RunningApp :=
  if is_active self then
    o ← add_key (overlay self) name;
    Ret (mkRunning (stored self) (is_active self) (keyboard_listener self) o
           (if json_truthy (pydict_get_default (app_config (stored self))
                              (JStr "show_click_spot") (JBool true))
            then add_spot (click_spot_overlay self) x y name now
            else click_spot_overlay self))
  else Ret self.

Definition on_click_released (self : RunningApp) (name : string) : res RunningApp :=
  if is_active self then
    Ret (set_overlay self (release_key (overlay self) name))
  else Ret self.

(** The slot a keyboard signal is connected to. *)
Definition keyboard_slot (self : RunningApp) (sig : signal) : res RunningApp :=
  match sig with
  | key_pressed name => on_key_pressed self name
  | key_released name => on_key_released self name
  | combo_pressed combo => on_combo_pressed self combo
  end.

(** The slot a mouse signal is connected to. *)
Definition mouse_slot (self : RunningApp) (now : Q) (sig : click_signal)
  : res RunningApp :=
  match sig with
  | click_pressed name x y => on_click_pressed self name x y now
  | click_released name => on_click_released self name
  end.

(** The slots of a list of signals, in the order of emission. *)
Fixpoint run_slots {S : Type} (slot : RunningApp → S → res RunningApp)
    (self : RunningApp) (sigs : list S) : res RunningApp :=
  match sigs with
  | [] => Ret self
  | sig :: sigs' => self' ← slot self sig; run_slots slot self' sigs'
  end.

(** What the event loop sees: a key event or a click from pynput, the
    timeout of the fade timer of a key, and the menu entry that pauses
    and resumes. *)
Inductive app_event : Type :=
| Keyboard (ev : key_event)
| Mouse (x y : Z) (button : Button.t) (pressed : bool) (now : Q)
| FadeTimeout (key_name : string)
| TogglePause.

Section AppRun.

Variable str_isalpha : string → bool.
Variable str_upper : string → string.
Variable str_isprintable : string → bool.
Variable str_title : string → string.

(** One event: the callback of the listener and the slots of the
    signals it emits.  A timeout comes only from a timer that is in
    [fade_timers]. *)
Definition app_event_step (self : RunningApp) (ev : app_event) : res RunningApp :=
  match ev with
  | Keyboard kev =>
    '(listener, sigs) ←
      listener_event str_isalpha str_upper str_isprintable str_title
        (keyboard_listener self) kev;
    run_slots keyboard_slot
      (mkRunning (stored self) (is_active self) listener (overlay self)
         (click_spot_overlay self))
      sigs
  | Mouse x y button pressed now =>
    run_slots (λ s sig, mouse_slot s now sig) self (_on_click x y button pressed)
  | FadeTimeout key_name =>
    if bool_decide (key_name ∈ fade_timers (overlay self)) then
      o ← fade_key (overlay self) key_name; Ret (set_overlay self o)
    else Ret self
  | TogglePause => Ret (toggle_active self)
  end.

Fixpoint app_run (self : RunningApp) (events : list app_event) : res RunningApp :=
  match events with
  | [] => Ret self
  | ev :: events' => self' ← app_event_step self ev; app_run self' events'
  end.

End AppRun.

Definition app_run_ascii :=
  app_run ascii_isalpha ascii_upper ascii_isprintable ascii_title.

Section Settings.

Variable json_dumps : list (json * json) → string.

(** [show_settings] for the dialog as it is when [exec()] returns and
    whether it was accepted.  The autostart entry and the visibility of
    the windows are not part of the state. *)
Definition show_settings (self : RunningApp) (dialog : SettingsDialog)
    (accepted : bool) : res RunningApp :=
  if accepted then
    cfg ← get_config dialog;
    Ret (mkRunning
           (save_config json_dumps (mkApp (settings (stored self)) cfg))
           (is_active self) (keyboard_listener self)
           (overlay_update_config (overlay self) cfg)
           (click_spot_update_config (click_spot_overlay self) cfg))
  else Ret self.

(** [reset_to_defaults] and the answer to its question. *)
Definition reset_to_defaults (self : RunningApp) (yes : bool) : RunningApp :=
  if yes then
    mkRunning
      (save_config json_dumps (mkApp (settings (stored self)) DEFAULT_CONFIG))
      (is_active self) (keyboard_listener self)
      (overlay_update_config (overlay self) DEFAULT_CONFIG)
      (click_spot_overlay self)
  else self.

End Settings.

(** Whether the key of a keyboard event has a text other than ['Key.']. *)
Definition named_event (ev : app_event) : Prop :=
  match ev with
  | Keyboard (KeyDown key) | Keyboard (KeyUp key) => key_str key ≠ "Key."
  | _ => True
  end.

(** The invariants of the display state with its two options. *)
Definition display_ok (self : KeyOverlay) : Prop :=
  overlay_inv self ∧ opacity_inv self ∧
  (0 <= fade_speed (config self))%Q ∧ 0 <= max_keys (config self).

(** The invariants of the running application: the display state, the
    held modifiers, and a fade timer for the spots exactly while there are
    spots. *)
Definition app_ok (self : RunningApp) : Prop :=
  display_ok (overlay self) ∧
  active_modifiers (keyboard_listener self) ⊆ MODIFIER_KEYS ∧
  (fade_timer_active (click_spot_overlay self) = true ↔
   spots (click_spot_overlay self) ≠ []).

(** What a step of the application leaves as it is. *)
Definition same_setup (self self' : RunningApp) : Prop :=
  stored self' = stored self ∧
  config (overlay self') = config (overlay self) ∧
  spot_config (click_spot_overlay self') = spot_config (click_spot_overlay self).

(** The application as [__init__] leaves it when nothing is stored. *)
Definition default_app : RunningApp :=
  mkRunning (mkApp QNone DEFAULT_CONFIG) true (mkListener ∅)
    (new_overlay default_overlay_config)
    (new_click_spot_overlay DEFAULT_CONFIG).

(** Ctrl and S as pynput reports them. *)
Definition ctrl_key : Key := mkKey "Key.ctrl_l" None (Some 162).
Definition s_key : Key := mkKey "'s'" (Some "s") (Some 83).

(** The keyboard events among the events of the application. *)
Definition keyboard_events (events : list app_event) : list key_event :=
  omap (λ ev, match ev with Keyboard kev => Some kev | _ => None end) events.

(** Events that come from the keyboard or the mouse. *)
Definition input_event (ev : app_event) : Prop :=
  match ev with
  | Keyboard _ | Mouse _ _ _ _ _ => True
  | _ => False
  end.

(** Widgets set to values other than the defaults. *)
Definition custom_widgets : DialogWidgets :=
  mkWidgets false "Consolas" 28 false 10 40 12 2 100 30 5 8 7 4 false false
    "left" "top" "screen_1" false 60 900 71.

(** What [get_config] returns for them. *)
Definition custom_config : list (json * json) :=
  Eval vm_compute in
    match get_config (mkDialog DEFAULT_CONFIG custom_widgets) with
    | Ret cfg => cfg
    | Raise _ => []
    end.

(** ** Presets of the settings dialog *)

(** [self.show_border_cb.setChecked(b)] *)
Definition set_show_border (b : bool) (w : DialogWidgets) : DialogWidgets :=
  mkWidgets b (font_combo w) (font_size_spin w) (font_bold_cb w) (padding_spin w)
    (min_width_spin w) (radius_spin w) (border_width_spin w) (height_spin w)
    (margin_spin w) (h_margin_spin w) (spacing_spin w) (fade_slider w)
    (max_keys_spin w) (start_minimized_cb w) (autostart_cb w) (h_pos_combo w)
    (v_pos_combo w) (screen_combo w) (show_click_spot_cb w)
    (click_spot_radius_spin w) (click_spot_fade_spin w) (click_spot_opacity_slider w).

(** The body the four presets share: [self.config.update] with the four
    entries of the preset, then [refresh_color_buttons], which checks the
    border box as the preset says. *)
Definition apply_preset (bg text border : string) (show : bool)
    (self : SettingsDialog) : SettingsDialog :=
  mkDialog
    (pydict_update_dict (dialog_config self)
       [(JStr "bg_color", JStr bg);
        (JStr "text_color", JStr text);
        (JStr "border_color", JStr border);
        (JStr "show_border", JBool show)])
    (set_show_border show (widgets self)).

Definition apply_dark_preset : SettingsDialog → SettingsDialog :=
  apply_preset "#2b2b2b" "#ffffff" "#555555" true.

Definition apply_light_preset : SettingsDialog → SettingsDialog :=
  apply_preset "#ffffff" "#333333" "#cccccc" true.

Definition apply_minimal_preset : SettingsDialog → SettingsDialog :=
  apply_preset "#000000" "#ffffff" "#000000" false.

Definition apply_colorful_preset : SettingsDialog → SettingsDialog :=
  apply_preset "#4a90d9" "#ffffff" "#2e6bb0" true.

(** The four presets with their entries. *)
Definition presets
  : list ((SettingsDialog → SettingsDialog) * (string * string * string * bool)) :=
  [(apply_dark_preset, ("#2b2b2b", "#ffffff", "#555555", true));
   (apply_light_preset, ("#ffffff", "#333333", "#cccccc", true));
   (apply_minimal_preset, ("#000000", "#ffffff", "#000000", false));
   (apply_colorful_preset, ("#4a90d9", "#ffffff", "#2e6bb0", true))].

(** The keys a preset sets. *)
Definition preset_keys : list string :=
  ["bg_color"; "text_color"; "border_color"; "show_border"].

(** ** Fading in float arithmetic

    Opacities and the fade speed are Python floats, that is doubles: an
    operation returns its exact result rounded to a double.  The
    functions below take this rounding as [rnd]. *)

(** The unit roundoff of a double, [2^-53]. *)
Definition unit_roundoff : Q := 1 # 9007199254740992.

(** The rounding of the three operations of a fade tick, 52 roundoffs. *)
Definition fade_slack : Q := 52 * unit_roundoff.

(** [round(s)] of an exact [s]: the nearest integer, the even one of two
    at the same distance. *)
Definition round_half_even (s : Q) : Z :=
  let f := Qfloor s in
  match (s - inject_Z f ?= 1 # 2)%Q with
  | Lt => f
  | Gt => f + 1
  | Eq => if Z.even f then f else f + 1
  end.

(** The exponent of the double for the exact value [x]: the [e] with
    [2^e <= |x| < 2^(e+1)], and -1022 for the subnormal numbers. *)
Definition double_exponent (x : Q) : Z :=
  let a := Qabs x in
  let e0 := Z.log2 (Qnum a) - Z.log2 (Z.pos (Qden a)) in
  Z.max (if Qle_bool (2 ^ e0) a then e0 else e0 - 1) (-1022).

(** The double nearest to the exact value [x]: round to nearest, ties to
    even, 53 bits.  Values beyond the largest double (which become
    [inf]) are not met in a fade tick and are not modelled. *)
Definition round_double (x : Q) : Q :=
  if Qeq_bool x 0 then 0%Q
  else
    let ulp := (2 ^ (double_exponent x - 52))%Q in
    (inject_Z (round_half_even (x / ulp)) * ulp)%Q.

(** The configuration with the largest fade speed of the slider, 2.0. *)
Definition fast_fade_config : OverlayConfig := mkConfig 10 2.

Section Rounded.

Variable rnd : Q → Q.

(** [fade_speed] of [fade_key]: [self.config['fade_speed'] / 1000.0 * 50]. *)
Definition fade_per_tick_rounded (cfg : OverlayConfig) : Q :=
  rnd (rnd (fade_speed cfg / 1000) * 50).

(** [fade_key] with the subtraction rounded as well. *)
Definition fade_key_rounded (self : KeyOverlay) (key_name : string) : res KeyOverlay :=
  match dict_get key_name (active_keys self) with
  | None =>
    Ret (mkOverlay (config self) (heap self) (next_bubble self) (key_bubbles self)
           (fade_timers self ∖ {[ key_name ]})
           (active_keys self) (combo_key_map self))
  | Some bubble =>
    let o := rnd (opacity (heap self bubble) - fade_per_tick_rounded (config self)) in
    let heap' := <[ bubble := set_opacity o (heap self bubble) ]> (heap self) in
    if Qle_bool o 0 then
      if bool_decide (key_name ∈ fade_timers self) then
        Ret (mkOverlay (config self) heap' (next_bubble self)
               (list_remove_first bubble (key_bubbles self))
               (fade_timers self ∖ {[ key_name ]})
               (dict_del key_name (active_keys self))
               (combo_key_map self))
      else Raise KeyError
    else
      Ret (mkOverlay (config self) heap' (next_bubble self) (key_bubbles self)
             (fade_timers self) (active_keys self) (combo_key_map self))
  end.

(** [n] timeouts in a row of the timer of [key_name]. *)
Fixpoint fade_ticks_rounded (n : nat) (self : KeyOverlay) (key_name : string)
  : res KeyOverlay :=
  match n with
  | O => Ret self
  | S n' => self' ← fade_key_rounded self key_name; fade_ticks_rounded n' self' key_name
  end.

End Rounded.

(** * Properties *)

(** ** The functions on small inputs *)

Example str_split_combo : str_split "+" "Ctrl+Shift+S" = ["Ctrl"; "Shift"; "S"].
Proof. reflexivity. Qed.

Example str_split_plus_key : str_split "+" "Ctrl++" = ["Ctrl"; ""; ""].
Proof. reflexivity. Qed.

Example str_split_no_separator : str_split "+" "S" = ["S"].
Proof. reflexivity. Qed.

Example utf8_chars_arrow : utf8_chars "a↑b" = ["a"; "↑"; "b"].
Proof. reflexivity. Qed.

Example py_chr_arrow : py_chr 0x2191 = Ret "↑".
Proof. reflexivity. Qed.

Example normalise_letter :
  normalise_ascii (mkKey "'a'" (Some "a") (Some 65)) = Ret (Some "A").
Proof. vm_compute. reflexivity. Qed.

Example normalise_named_key :
  normalise_ascii (mkKey "Key.ctrl_l" None None) = Ret (Some "Ctrl").
Proof. vm_compute. reflexivity. Qed.

Example normalise_unlisted_key :
  normalise_ascii (mkKey "Key.media_play_pause" None None) =
    Ret (Some "Media Play Pause").
Proof. vm_compute. reflexivity. Qed.

Example normalise_control_character :
  normalise_ascii (mkKey "'\x13'" (Some (String "019" "")) (Some 83)) = Ret (Some "S").
Proof. vm_compute. reflexivity. Qed.

Example normalise_unknown_code :
  normalise_ascii (mkKey "<255>" None (Some 255)) = Ret None.
Proof. vm_compute. reflexivity. Qed.

(** A full overlay drops its head although that entry is fading. *)
Example add_key_evicts_fading_head :
  ∃ self',
    add_key (mkOverlay (mkConfig 2 (1 # 2)) (heap faded_overlay) 2
               [0%nat; 1%nat] {[ "A" ]} [("A", 0%nat); ("B", 1%nat)] ∅) "C"
      = Ret self' ∧
    key_bubbles self' = [1%nat; 2%nat] ∧
    active_keys self' = [("B", 1%nat); ("C", 2%nat)] ∧
    fade_timers self' = ∅.
Proof.
  eexists. split; [reflexivity|]. cbn. split_and!; [done|done|].
  apply set_eq. intros k. rewrite elem_of_difference, elem_of_singleton.
  split; [tauto|]. by intros ?%elem_of_empty.
Qed.

(** Releasing the plus key after Ctrl and plus: the key is no part of
    ['Ctrl++'.split('+')], so the entry keeps waiting for Ctrl. *)
Example release_plus_key :
  ∃ shown,
    show_combo ctrl_overlay "Ctrl++" = Ret shown ∧
    combo_key_map shown !! "+" = None ∧
    fade_timers (release_key shown "+") = fade_timers shown ∧
    "Ctrl++" ∈ fade_timers (release_key shown "Ctrl").
Proof.
  eexists. split; [reflexivity|]. split_and!; [reflexivity|reflexivity|].
  compute_done.
Qed.

(** [dict.update] with a list: the pairs before a failing element stay. *)
Example update_from_seq_partial :
  update_from_seq [] [JArr [JStr "max_keys"; JInt 3]; JInt 5] =
    ([(JStr "max_keys", JInt 3)], UpdateTypeError).
Proof. reflexivity. Qed.

Example update_from_seq_two_characters :
  update_from_seq [] [JStr "ab"] = ([(JStr "a", JStr "b")], Updated).
Proof. reflexivity. Qed.

Example json_round_trip_defaults :
  json_decode (json_encode_dict DEFAULT_CONFIG) =
    Some (JObj (members_of_dict DEFAULT_CONFIG)).
Proof. vm_compute. reflexivity. Qed.

(** ** Input normalisation *)

Lemma numpad_map_keys (vk : Z) (label : string) :
  numpad_map !! vk = Some label → 0x6A ≤ vk ≤ 0x6F.
Proof.
  intros E. apply elem_of_list_to_map_2 in E.
  repeat (apply elem_of_cons in E as [E|E]; [injection E as -> _; lia|]).
  by apply elem_of_nil in E.
Qed.

Lemma vk_map_keys (vk : Z) (label : string) :
  vk_map !! vk = Some label → 0xBA ≤ vk ≤ 0xC0 ∨ 0xDB ≤ vk ≤ 0xDE.
Proof.
  intros E. apply elem_of_list_to_map_2 in E.
  repeat (apply elem_of_cons in E as [E|E]; [injection E as -> _; lia|]).
  by apply elem_of_nil in E.
Qed.

Lemma py_in_false {K V : Type} `{Countable K} (k : K) (d : gmap K V) :
  d !! k = None → py_in k d = false.
Proof.
  intros E. unfold py_in. apply bool_decide_eq_false_2.
  rewrite E. by intros [? ?].
Qed.

Lemma py_in_numpad_false (vk : Z) :
  ¬ (0x6A ≤ vk ≤ 0x6F) → py_in vk numpad_map = false.
Proof.
  intros Hr. apply py_in_false.
  destruct (numpad_map !! vk) eqn:E; [|done].
  by apply numpad_map_keys in E.
Qed.

Lemma py_in_vk_map_false (vk : Z) :
  ¬ (0xBA ≤ vk ≤ 0xC0 ∨ 0xDB ≤ vk ≤ 0xDE) → py_in vk vk_map = false.
Proof.
  intros Hr. apply py_in_false.
  destruct (vk_map !! vk) eqn:E; [|done].
  by apply vk_map_keys in E.
Qed.

(** Two functions that agree on the list [lo, lo+1, ..., lo+n-1] agree on
    every integer of that range. *)
Lemma agree_on_range {A : Type} (f g : Z → A) (lo : Z) (n : nat) (z : Z) :
  f <$> seqZ lo (Z.of_nat n) = g <$> seqZ lo (Z.of_nat n) →
  lo ≤ z < lo + Z.of_nat n → f z = g z.
Proof.
  intros Heq Hz.
  assert (Hl : seqZ lo (Z.of_nat n) !! Z.to_nat (z - lo) = Some z).
  { rewrite lookup_seqZ. split; [lia|lia]. }
  pose proof (f_equal (λ l, l !! Z.to_nat (z - lo)) Heq) as Hp. simpl in Hp.
  rewrite !list_lookup_fmap, Hl in Hp. simpl in Hp. congruence.
Qed.

Lemma get_key_from_vk_ignores_text (s : string) (c : option string) (vk : option Z) :
  get_key_from_vk (mkKey s c vk) = get_key_from_vk (mkKey "" None vk).
Proof. reflexivity. Qed.

(** The labels of the four ranges, one by one. *)
Example letter_labels :
  (get_key_from_vk ∘ vk_key) <$> seqZ 0x41 26 =
  (Ret ∘ Some) <$> ["A"; "B"; "C"; "D"; "E"; "F"; "G"; "H"; "I"; "J"; "K"; "L"; "M";
                    "N"; "O"; "P"; "Q"; "R"; "S"; "T"; "U"; "V"; "W"; "X"; "Y"; "Z"].
Proof. vm_compute. reflexivity. Qed.

Example digit_labels :
  (get_key_from_vk ∘ vk_key) <$> seqZ 0x30 10 =
  (Ret ∘ Some) <$> ["0"; "1"; "2"; "3"; "4"; "5"; "6"; "7"; "8"; "9"].
Proof. vm_compute. reflexivity. Qed.

Example numpad_labels :
  (get_key_from_vk ∘ vk_key) <$> seqZ 0x60 10 =
  (Ret ∘ Some) <$> ["0"; "1"; "2"; "3"; "4"; "5"; "6"; "7"; "8"; "9"].
Proof. vm_compute. reflexivity. Qed.

Example function_key_labels :
  (get_key_from_vk ∘ vk_key) <$> seqZ 0x70 12 =
  (Ret ∘ Some) <$> ["F1"; "F2"; "F3"; "F4"; "F5"; "F6"; "F7"; "F8"; "F9"; "F10";
                    "F11"; "F12"].
Proof. vm_compute. reflexivity. Qed.

Lemma printable_range_labelled (vk : Z) :
  0x20 ≤ vk ≤ 0x7E → is_label (get_key_from_vk (vk_key vk)) = true.
Proof.
  intros Hr.
  apply (agree_on_range (λ z, is_label (get_key_from_vk (vk_key z))) (λ _, true) 0x20 95).
  - vm_compute. reflexivity.
  - lia.
Qed.

Lemma vk_map_labelled (vk : Z) (label : string) :
  vk_map !! vk = Some label → is_label (get_key_from_vk (vk_key vk)) = true.
Proof.
  intros E. apply vk_map_keys in E as [Hr|Hr].
  - apply (agree_on_range (λ z, is_label (get_key_from_vk (vk_key z))) (λ _, true) 0xBA 7).
    + vm_compute. reflexivity.
    + lia.
  - apply (agree_on_range (λ z, is_label (get_key_from_vk (vk_key z))) (λ _, true) 0xDB 4).
    + vm_compute. reflexivity.
    + lia.
Qed.

Lemma unhandled_code_none (vk : Z) :
  ¬ (0x20 ≤ vk ≤ 0x7E) → vk_map !! vk = None →
  get_key_from_vk (vk_key vk) = Ret None.
Proof.
  intros Hr Hm. unfold get_key_from_vk, vk_key. simpl.
  rewrite (py_in_numpad_false vk) by lia.
  rewrite (py_in_false vk vk_map) by done.
  repeat match goal with
  | |- context [(?a <=? ?b) && (?c <=? ?d)] =>
    replace ((a <=? b) && (c <=? d)) with false
      by (symmetry; apply andb_false_iff; rewrite !Z.leb_gt; lia)
  end.
  reflexivity.
Qed.

Lemma vk_code_returns (vk : Z) :
  ∃ label, get_key_from_vk (vk_key vk) = Ret label.
Proof.
  destruct (decide (0x20 ≤ vk ≤ 0x7E)) as [Hin|Hout].
  - apply printable_range_labelled in Hin.
    destruct (get_key_from_vk (vk_key vk)) as [[l|]|]; try discriminate. eauto.
  - destruct (vk_map !! vk) eqn:E.
    + apply vk_map_labelled in E.
      destruct (get_key_from_vk (vk_key vk)) as [[l|]|]; try discriminate. eauto.
    + exists None. by apply unhandled_code_none.
Qed.

(** C6. For every virtual-key code [vk], [get_key_from_vk] returns
    [chr(vk)] on 65..90 (the upper-case letter) and on 48..57 (the digit),
    [str(vk - 96)] on 96..105, ['F1'] .. ['F12'] on 112..123, and it
    returns [None] only for codes outside every handled range: exactly
    those outside 0x20..0x7E that are no key of the punctuation table. *)
Theorem get_key_from_vk_ranges (s : string) (c : option string) (vk : Z) :
  let r := get_key_from_vk (mkKey s c (Some vk)) in
  (0x41 ≤ vk ≤ 0x5A →
     py_chr vk = Ret (String (byte_of_Z vk) "") ∧
     r = Ret (Some (String (byte_of_Z vk) ""))) ∧
  (0x30 ≤ vk ≤ 0x39 →
     py_chr vk = Ret (String (byte_of_Z vk) "") ∧
     r = Ret (Some (String (byte_of_Z vk) ""))) ∧
  (0x60 ≤ vk ≤ 0x69 → r = Ret (Some (pretty (vk - 96)))) ∧
  (0x70 ≤ vk ≤ 0x7B → r = Ret (Some ("F" +:+ pretty (vk - 111)))) ∧
  (r = Ret None ↔ ¬ (0x20 ≤ vk ≤ 0x7E) ∧ vk_map !! vk = None) ∧
  (∃ label, r = Ret label).
Proof.
  intros r. subst r. rewrite get_key_from_vk_ignores_text.
  change (mkKey "" None (Some vk)) with (vk_key vk).
  split_and!.
  - intros Hr. split.
    + apply (agree_on_range py_chr (λ z, Ret (String (byte_of_Z z) "")) 0x41 26);
        [vm_compute; reflexivity | lia].
    + apply (agree_on_range (get_key_from_vk ∘ vk_key)
               (λ z, Ret (Some (String (byte_of_Z z) ""))) 0x41 26);
        [vm_compute; reflexivity | lia].
  - intros Hr. split.
    + apply (agree_on_range py_chr (λ z, Ret (String (byte_of_Z z) "")) 0x30 10);
        [vm_compute; reflexivity | lia].
    + apply (agree_on_range (get_key_from_vk ∘ vk_key)
               (λ z, Ret (Some (String (byte_of_Z z) ""))) 0x30 10);
        [vm_compute; reflexivity | lia].
  - intros Hr.
    apply (agree_on_range (get_key_from_vk ∘ vk_key)
             (λ z, Ret (Some (pretty (z - 96)))) 0x60 10);
      [vm_compute; reflexivity | lia].
  - intros Hr.
    apply (agree_on_range (get_key_from_vk ∘ vk_key)
             (λ z, Ret (Some ("F" +:+ pretty (z - 111)))) 0x70 12);
      [vm_compute; reflexivity | lia].
  - split.
    + intros Hr. split.
      * intros Hin. apply printable_range_labelled in Hin.
        rewrite Hr in Hin. discriminate.
      * destruct (vk_map !! vk) eqn:E; [|done].
        apply vk_map_labelled in E. rewrite Hr in E. discriminate.
    + intros [Hr Hm]. by apply unhandled_code_none.
  - apply vk_code_returns.
Qed.

Section NormalisationFacts.

Variable str_isalpha : string → bool.
Variable str_upper : string → string.
Variable str_isprintable : string → bool.
Variable str_title : string → string.

Local Abbreviation get_key_name' := (get_key_name str_isalpha str_upper str_isprintable str_title).
Local Abbreviation normalise' := (normalise str_isalpha str_upper str_isprintable str_title).
Local Abbreviation on_press' := (_on_press str_isalpha str_upper str_isprintable str_title).
Local Abbreviation on_release' := (_on_release str_isalpha str_upper str_isprintable str_title).

Lemma py_getitem_in {K V : Type} `{Countable K} (d : gmap K V) (k : K) :
  py_in k d = true → ∃ v, py_getitem d k = Ret v.
Proof.
  unfold py_in, py_getitem. intros Hin.
  apply bool_decide_eq_true_1 in Hin as [v Hv]. rewrite Hv. eauto.
Qed.

Lemma get_key_name_returns (key : Key) :
  ∃ label, get_key_name' key = Ret label.
Proof.
  unfold get_key_name.
  destruct (py_in (key_str key) KEY_DISPLAY_NAMES) eqn:Hin.
  - apply py_getitem_in in Hin as [v Hv]. rewrite Hv. simpl. eauto.
  - destruct (key_char key) as [[|c char]|].
    + destruct (String.prefix _ _); eauto.
    + destruct (str_isalpha _); [eauto|]. destruct (str_isprintable _); eauto.
    + destruct (String.prefix _ _); eauto.
Qed.

Lemma get_key_from_vk_returns (key : Key) :
  ∃ label, get_key_from_vk key = Ret label.
Proof.
  destruct key as [s c [vk|]].
  - rewrite get_key_from_vk_ignores_text. apply vk_code_returns.
  - by exists None.
Qed.

Lemma normalise_returns (key : Key) :
  ∃ label, normalise' key = Ret label.
Proof.
  unfold normalise.
  destruct (get_key_name_returns key) as [[name|] ->]; simpl.
  - eauto.
  - apply get_key_from_vk_returns.
Qed.

(** C5. For every key (any text, optional [char], optional [vk]) the
    normalisation of the handlers returns a label or [None] and raises
    nothing, and so do [get_key_name] and [get_key_from_vk] on their own;
    it is a function of the key; and when it returns [None], [_on_press]
    and [_on_release] emit no signal and leave the held modifiers as they
    are. *)
Theorem normalise_total (key : Key) :
  (∃ label, get_key_name' key = Ret label) ∧
  (∃ label, get_key_from_vk key = Ret label) ∧
  (∃ label, normalise' key = Ret label ∧
     (∀ key', key' = key → normalise' key' = Ret label) ∧
     (label = None → ∀ self,
        on_press' self key = Ret (self, []) ∧
        on_release' self key = Ret (self, []))).
Proof.
  split_and!.
  - apply get_key_name_returns.
  - apply get_key_from_vk_returns.
  - destruct (normalise_returns key) as [label Hl]. exists label.
    split_and!; [done | by intros key' -> |].
    intros -> self. unfold _on_press, _on_release. by rewrite Hl.
Qed.

(** C4, as the code has it.  With a non-empty set of held modifiers, a
    key whose label is no modifier makes [_on_press] emit exactly one
    signal, [combo_pressed], whose label joins with ['+'] the held
    modifiers among Ctrl, Alt, Shift, Win, in that order and each once,
    followed by the label of the key.  Every held modifier of these four
    is a part of the label; nothing else is. *)
Theorem on_press_combo_label (self : KeyboardListener) (key : Key) (key_name : string) :
  active_modifiers self ≠ ∅ →
  normalise' key = Ret (Some key_name) →
  key_name ∉ MODIFIER_KEYS →
  ∃ held,
    on_press' self key =
      Ret (self, [combo_pressed (String.concat "+" (held ++ [key_name]))]) ∧
    held `sublist_of` COMBO_ORDER ∧
    (∀ m, m ∈ held ↔ m ∈ COMBO_ORDER ∧ m ∈ active_modifiers self) ∧
    "AltGr" ∉ held.
Proof.
  intros Hne Hn Hmod.
  exists (filter (λ m, m ∈ active_modifiers self) COMBO_ORDER).
  split_and!.
  - unfold _on_press. rewrite Hn. simpl.
    rewrite bool_decide_eq_false_2 by done.
    rewrite bool_decide_eq_true_2 by done.
    reflexivity.
  - apply sublist_filter.
  - intros m. rewrite list_elem_of_filter. tauto.
  - rewrite list_elem_of_filter. intros [_ Hin].
    revert Hin. compute_done.
Qed.

End NormalisationFacts.

(** A letter pressed while only AltGr is held: the label is the letter
    alone, although AltGr is a held modifier. *)
Lemma combo_label_omits_altgr :
  let self := mkListener {[ "AltGr" ]} in
  let key := mkKey "'q'" (Some "q") (Some 81) in
  active_modifiers self ≠ ∅ ∧
  normalise_ascii key = Ret (Some "Q") ∧
  ("Q" ∉ MODIFIER_KEYS) ∧
  on_press_ascii self key = Ret (self, [combo_pressed "Q"]) ∧
  ¬ (∀ m, m ∈ active_modifiers self → m ∈ str_split "+" "Q").
Proof.
  simpl. split_and!.
  - compute_done.
  - vm_compute. reflexivity.
  - compute_done.
  - vm_compute. reflexivity.
  - intros Hall. specialize (Hall "AltGr").
    assert (Hin : "AltGr" ∈ str_split "+" "Q") by (apply Hall; compute_done).
    revert Hin. compute_done.
Qed.

Lemma normalise_total_witness :
  normalise_ascii (mkKey "<255>" None (Some 255)) = Ret None ∧
  on_press_ascii (mkListener ∅) (mkKey "<255>" None (Some 255)) = Ret (mkListener ∅, []) ∧
  on_release_ascii (mkListener ∅) (mkKey "<255>" None (Some 255)) = Ret (mkListener ∅, []).
Proof.
  destruct (normalise_total ascii_isalpha ascii_upper ascii_isprintable ascii_title
              (mkKey "<255>" None (Some 255))) as (_ & _ & label & Hl & _ & Hnone).
  assert (Hlabel : label = None).
  { assert (Hc : normalise_ascii (mkKey "<255>" None (Some 255)) = Ret None)
      by (vm_compute; reflexivity).
    unfold normalise_ascii in Hc. congruence. }
  split_and!.
  - vm_compute. reflexivity.
  - apply (Hnone Hlabel).
  - apply (Hnone Hlabel).
Defined.

Lemma on_press_combo_label_witness :
  ∃ held,
    on_press_ascii (mkListener {[ "Shift"; "Ctrl" ]}) (mkKey "'s'" (Some "s") (Some 83)) =
      Ret (mkListener {[ "Shift"; "Ctrl" ]},
           [combo_pressed (String.concat "+" (held ++ ["S"]))]) ∧
    held `sublist_of` COMBO_ORDER ∧
    (∀ m, m ∈ held ↔ m ∈ COMBO_ORDER ∧ m ∈ active_modifiers (mkListener {[ "Shift"; "Ctrl" ]})) ∧
    "AltGr" ∉ held.
Proof.
  apply (on_press_combo_label ascii_isalpha ascii_upper ascii_isprintable ascii_title
           (mkListener {[ "Shift"; "Ctrl" ]}) (mkKey "'s'" (Some "s") (Some 83)) "S").
  - compute_done.
  - vm_compute. reflexivity.
  - compute_done.
Defined.

(** ** The key overlay: the ceiling on visible keys *)

Lemma limit_visible_keys_bubbles (max : Z) (bubbles : list nat)
    (active : list (string * nat)) (timers : gset string) :
  0 ≤ max →
  ∃ active' timers',
    limit_visible_keys max bubbles active timers =
      Ret (drop (length bubbles - Z.to_nat max) bubbles, active', timers').
Proof.
  intros Hmax. revert active timers.
  induction bubbles as [|old bubbles IH]; intros active timers.
  - cbn [limit_visible_keys length]. rewrite drop_nil.
    destruct (Z.gtb_spec (Z.of_nat 0) max); [lia|]. eauto.
  - cbn [limit_visible_keys].
    destruct (Z.gtb_spec (Z.of_nat (length (old :: bubbles))) max) as [Hgt|Hle].
    + cbn [length] in *.
      replace (S (length bubbles) - Z.to_nat max)%nat
        with (S (length bubbles - Z.to_nat max)) by lia.
      cbn [drop].
      destruct (key_of_bubble old active) as [k|]; [destruct (str_truthy k)|];
        apply IH.
    + cbn [length] in *.
      replace (S (length bubbles) - Z.to_nat max)%nat with O by lia.
      cbn [drop]. eauto.
Qed.

Lemma limit_visible_keys_within (max : Z) (bubbles : list nat)
    (active : list (string * nat)) (timers : gset string) :
  Z.of_nat (length bubbles) ≤ max →
  limit_visible_keys max bubbles active timers = Ret (bubbles, active, timers).
Proof.
  intros Hle. destruct bubbles as [|old bubbles]; cbn [limit_visible_keys].
  - destruct (Z.gtb_spec (Z.of_nat (length (@nil nat))) max); [lia|done].
  - destruct (Z.gtb_spec (Z.of_nat (length (old :: bubbles))) max); [lia|done].
Qed.

Lemma StronglySorted_drop (n : nat) (l : list nat) :
  StronglySorted lt l → StronglySorted lt (drop n l).
Proof.
  revert n. induction l as [|x l IH]; intros [|n] Hs; cbn; try done.
  apply IH. by apply StronglySorted_inv in Hs as [? _].
Qed.

Lemma StronglySorted_snoc (l : list nat) (x : nat) :
  StronglySorted lt l → Forall (λ y, (y < x)%nat) l → StronglySorted lt (l ++ [x]).
Proof.
  induction l as [|y l IH]; intros Hs Hf; cbn.
  - repeat constructor.
  - apply StronglySorted_inv in Hs as [Hs Hy].
    inversion_clear Hf as [|? ? Hyx Hf'].
    constructor; [by apply IH|].
    apply Forall_app. split; [done|]. by repeat constructor.
Qed.

(** What one [add_key] call does to the list of bubbles. *)
Lemma add_key_step (self : KeyOverlay) (key_name : string) :
  1 ≤ max_keys (config self) → within_limit self → creation_ordered self →
  ∃ self',
    add_key self key_name = Ret self' ∧
    config self' = config self ∧
    within_limit self' ∧
    creation_ordered self' ∧
    (dict_get key_name (active_keys self) = None →
       key_bubbles self' =
         ((if Z.of_nat (length (key_bubbles self)) <? max_keys (config self)
           then key_bubbles self else tail (key_bubbles self))
          ++ [next_bubble self])%list).
Proof.
  intros Hmax Hlim [Hsort Hused]. unfold add_key, within_limit in *.
  destruct (dict_get key_name (active_keys self)) as [bubble|] eqn:Hget.
  - eexists. split; [reflexivity|]. cbn. split_and!; try done.
  - destruct (limit_visible_keys_bubbles (max_keys (config self))
                (key_bubbles self ++ [next_bubble self])
                (dict_set key_name (next_bubble self) (active_keys self))
                (fade_timers self)) as (active' & timers' & ->); [lia|].
    cbn. eexists. split; [reflexivity|]. cbn.
    assert (Hall : StronglySorted lt (key_bubbles self ++ [next_bubble self]))
      by by apply StronglySorted_snoc.
    assert (Hused' : Forall (λ b, (b < S (next_bubble self))%nat)
                       (key_bubbles self ++ [next_bubble self])).
    { apply Forall_app. split.
      - eapply List.Forall_impl; [|exact Hused]. cbn. lia.
      - repeat constructor. }
    split_and!.
    + done.
    + rewrite length_drop, length_app. cbn. lia.
    + split; [by apply StronglySorted_drop | by apply Forall_drop].
    + intros _. rewrite length_app. cbn [length].
      destruct (Z.ltb_spec (Z.of_nat (length (key_bubbles self)))
                  (max_keys (config self))) as [Hlt|Hge].
      * replace (length (key_bubbles self) + 1 - Z.to_nat (max_keys (config self)))%nat
          with O by lia. done.
      * replace (length (key_bubbles self) + 1 - Z.to_nat (max_keys (config self)))%nat
          with 1%nat by lia.
        destruct (key_bubbles self) as [|old rest]; [cbn in *; lia|]. done.
Qed.

Lemma sorted_head_least (l : list nat) (old b : nat) :
  StronglySorted lt l → head l = Some old → b ∈ l → (old ≤ b)%nat.
Proof.
  intros Hs Hh Hb. destruct l as [|x l]; [done|].
  cbn in Hh. injection Hh as ->.
  apply StronglySorted_inv in Hs as [_ Hall].
  apply elem_of_cons in Hb as [->|Hb]; [lia|].
  rewrite List.Forall_forall in Hall.
  apply list_elem_of_In, Hall in Hb. lia.
Qed.

(** C1. With [max_keys >= 1], from an overlay whose bubbles are within the
    limit and in creation order (as in a new overlay), every sequence of
    [add_key] calls returns, leaves at most [max_keys] bubbles, and keeps
    the list in creation order, so that its head is the oldest bubble;
    and a further call with a new name appends the new bubble and, when
    the list was full, drops exactly its head, whatever [fade_timers]
    holds. *)
Theorem add_key_limit_oldest_first (self0 : KeyOverlay) (names : list string) :
  1 ≤ max_keys (config self0) → within_limit self0 → creation_ordered self0 →
  ∃ self,
    add_keys self0 names = Ret self ∧
    config self = config self0 ∧
    Z.of_nat (length (key_bubbles self)) ≤ max_keys (config self0) ∧
    creation_ordered self ∧
    (∀ old b, head (key_bubbles self) = Some old → b ∈ key_bubbles self →
       (old ≤ b)%nat) ∧
    (∀ key_name, dict_get key_name (active_keys self) = None →
       ∃ self',
         add_key self key_name = Ret self' ∧
         Z.of_nat (length (key_bubbles self')) ≤ max_keys (config self0) ∧
         key_bubbles self' =
           ((if Z.of_nat (length (key_bubbles self)) <? max_keys (config self0)
             then key_bubbles self else tail (key_bubbles self))
            ++ [next_bubble self])%list).
Proof.
  revert self0. induction names as [|name names IH]; intros self0 Hmax Hlim Hord.
  - exists self0. split_and!; try done.
    + intros old b. apply sorted_head_least, Hord.
    + intros key_name Hnew.
      destruct (add_key_step self0 key_name Hmax Hlim Hord)
        as (self' & Hadd & Hcfg & Hlim' & _ & Hlist).
      exists self'. unfold within_limit in Hlim'. rewrite Hcfg in Hlim'. eauto.
  - cbn [add_keys].
    destruct (add_key_step self0 name Hmax Hlim Hord)
      as (self1 & -> & Hcfg & Hlim1 & Hord1 & _).
    cbn. destruct (IH self1) as (self & Hrun & Hcfg' & Hrest); try done.
    + by rewrite Hcfg.
    + exists self. rewrite Hcfg in Hcfg', Hrest. eauto.
Qed.

Lemma add_key_limit_oldest_first_witness :
  ∃ self,
    add_keys (new_overlay (mkConfig 2 (1 # 2))) ["A"; "B"; "C"] = Ret self ∧
    key_bubbles self = [1%nat; 2%nat] ∧
    ∃ self', add_key self "D" = Ret self' ∧ key_bubbles self' = [2%nat; 3%nat].
Proof.
  destruct (add_key_limit_oldest_first (new_overlay (mkConfig 2 (1 # 2))) ["A"; "B"; "C"])
    as (self & Hrun & _ & _ & _ & _ & Hnext).
  - cbn. lia.
  - unfold within_limit. cbn. lia.
  - split; cbn; constructor.
  - exists self. split; [exact Hrun|].
    assert (Hself : add_keys (new_overlay (mkConfig 2 (1 # 2))) ["A"; "B"; "C"] =
                    Ret (mkOverlay (mkConfig 2 (1 # 2)) (heap self) 3
                           [1%nat; 2%nat] ∅ [("B", 1%nat); ("C", 2%nat)] ∅)).
    { rewrite Hrun. f_equal. vm_compute in Hrun. injection Hrun as <-. reflexivity. }
    rewrite Hrun in Hself. injection Hself as Hself.
    split; [by rewrite Hself|].
    destruct (Hnext "D") as (self' & Hadd & _ & Hlist).
    + rewrite Hself. reflexivity.
    + exists self'. split; [exact Hadd|]. rewrite Hlist, Hself. reflexivity.
Defined.

(** ** Dictionaries *)

Section DictFacts.
Context {V : Type}.
Implicit Types (d : list (string * V)) (k : string) (v : V).

Lemma dict_get_del_eq k d : dict_get k (dict_del k d) = None.
Proof.
  induction d as [|[k' v'] d IH]; [done|]. cbn.
  case_bool_decide as Hk; [done|]. cbn. by rewrite bool_decide_eq_false_2.
Qed.

Lemma dict_get_del_ne k k' d : k ≠ k' → dict_get k (dict_del k' d) = dict_get k d.
Proof.
  intros Hne. induction d as [|[k0 v0] d IH]; [done|]. cbn.
  case_bool_decide as Hk.
  - subst k0. by rewrite bool_decide_eq_false_2.
  - cbn. by rewrite IH.
Qed.

Lemma dict_get_set_eq k v d : dict_get k (dict_set k v d) = Some v.
Proof.
  induction d as [|[k' v'] d IH]; cbn.
  - by rewrite bool_decide_eq_true_2.
  - case_bool_decide as Hk; cbn.
    + by rewrite bool_decide_eq_true_2.
    + by rewrite bool_decide_eq_false_2.
Qed.

Lemma dict_get_set_ne k k' v d : k ≠ k' → dict_get k (dict_set k' v d) = dict_get k d.
Proof.
  intros Hne. induction d as [|[k0 v0] d IH]; cbn.
  - by rewrite bool_decide_eq_false_2.
  - case_bool_decide as Hk; cbn.
    + subst k0. by rewrite bool_decide_eq_false_2.
    + by rewrite IH.
Qed.

Lemma dict_set_absent k v d : dict_get k d = None → dict_set k v d = (d ++ [(k, v)])%list.
Proof.
  induction d as [|[k' v'] d IH]; cbn; [done|].
  case_bool_decide; [done|]. intros Hd. by rewrite IH.
Qed.

Lemma dict_get_elem k v d : dict_get k d = Some v → (k, v) ∈ d.
Proof.
  induction d as [|[k' v'] d IH]; cbn; [done|].
  case_bool_decide as Hk.
  - intros [= ->]. subst. apply elem_of_cons. by left.
  - intros Hd. apply elem_of_cons. right. by apply IH.
Qed.

Lemma dict_get_absent k v d : dict_get k d = None → (k, v) ∉ d.
Proof.
  induction d as [|[k' v'] d IH]; cbn.
  - intros _. apply not_elem_of_nil.
  - case_bool_decide as Hk; [done|]. intros Hd Hin.
    apply elem_of_cons in Hin as [[= <- <-]|Hin]; [done|]. by apply IH.
Qed.

Lemma elem_of_dict_del k k' v d : (k, v) ∈ dict_del k' d ↔ (k, v) ∈ d ∧ k ≠ k'.
Proof.
  induction d as [|[k0 v0] d IH]; cbn.
  - split; [by intros ?%elem_of_nil | by intros [?%elem_of_nil _]].
  - case_bool_decide as Hk.
    + subst k0. rewrite IH, elem_of_cons. split; [tauto|].
      intros [[[= -> ->]|Hin] Hne]; [done|tauto].
    + rewrite !elem_of_cons, IH. split.
      * intros [[= -> ->]|[Hin Hne]]; [split; [by left|congruence] | tauto].
      * intros [[Heq|Hin] Hne]; tauto.
Qed.

Lemma dict_mem_true k d : dict_mem k d = true ↔ is_Some (dict_get k d).
Proof. unfold dict_mem. apply bool_decide_eq_true. Qed.

End DictFacts.

Lemma key_of_bubble_elem (b : nat) (active : list (string * nat)) (k : string) :
  key_of_bubble b active = Some k → (k, b) ∈ active.
Proof.
  unfold key_of_bubble. destruct (List.find _ active) as [[k' b']|] eqn:Hf; [|done].
  cbn. intros [= ->]. apply List.find_some in Hf as [Hin Hb].
  apply bool_decide_eq_true_1 in Hb. cbn in Hb. subst b'.
  by apply list_elem_of_In.
Qed.

(** ** The key overlay: pressing a key that is shown *)

(** C9. [add_key] with a name that is in [active_keys] returns with the
    opacity of the bubble of that name back at 1.0 and no fade timer for
    that name, and changes nothing else: no bubble is created,
    [key_bubbles], [active_keys], [combo_key_map] and the configuration
    are the same, every other bubble is as it was, and every other name
    has a fade timer exactly when it had one. *)
Theorem add_key_existing_frame (self : KeyOverlay) (key_name : string) (bubble : nat) :
  dict_get key_name (active_keys self) = Some bubble →
  ∃ self',
    add_key self key_name = Ret self' ∧
    opacity (heap self' bubble) = 1%Q ∧
    key_text (heap self' bubble) = key_text (heap self bubble) ∧
    (key_name ∉ fade_timers self') ∧
    next_bubble self' = next_bubble self ∧
    key_bubbles self' = key_bubbles self ∧
    active_keys self' = active_keys self ∧
    combo_key_map self' = combo_key_map self ∧
    config self' = config self ∧
    (∀ b, b ≠ bubble → heap self' b = heap self b) ∧
    (∀ k, k ≠ key_name → k ∈ fade_timers self' ↔ k ∈ fade_timers self).
Proof.
  intros Hget. unfold add_key. rewrite Hget. eexists. split; [reflexivity|].
  cbn. split_and!; try done.
  - by rewrite fn_lookup_insert.
  - by rewrite fn_lookup_insert.
  - rewrite elem_of_difference, elem_of_singleton. tauto.
  - intros b Hb. by rewrite fn_lookup_insert_ne.
  - intros k Hk. rewrite elem_of_difference, elem_of_singleton. tauto.
Qed.

Lemma add_key_existing_frame_witness :
  ∃ self',
    add_key faded_overlay "A" = Ret self' ∧
    opacity (heap self' 0%nat) = 1%Q ∧
    key_text (heap self' 0%nat) = key_text (heap faded_overlay 0%nat) ∧
    ("A" ∉ fade_timers self') ∧
    next_bubble self' = next_bubble faded_overlay ∧
    key_bubbles self' = key_bubbles faded_overlay ∧
    active_keys self' = active_keys faded_overlay ∧
    combo_key_map self' = combo_key_map faded_overlay ∧
    config self' = config faded_overlay ∧
    (∀ b, b ≠ 0%nat → heap self' b = heap faded_overlay b) ∧
    (∀ k, k ≠ "A" → k ∈ fade_timers self' ↔ k ∈ fade_timers faded_overlay).
Proof.
  apply (add_key_existing_frame faded_overlay "A" 0%nat). reflexivity.
Defined.

(** ** The key overlay: combinations *)

Lemma removelast_cons_cons {A : Type} (x y : A) (l : list A) :
  removelast (x :: y :: l) = x :: removelast (y :: l).
Proof. reflexivity. Qed.

(** A name whose bubbles are not among the ones the loop can pop stays
    in [active_keys]. *)
Lemma limit_visible_keys_keeps (max : Z) (bubbles : list nat)
    (active : list (string * nat)) (timers : gset string) (k : string) :
  1 ≤ max →
  (∀ b, (k, b) ∈ active → b ∉ removelast bubbles) →
  ∃ bubbles' active' timers',
    limit_visible_keys max bubbles active timers = Ret (bubbles', active', timers') ∧
    dict_get k active' = dict_get k active.
Proof.
  intros Hmax. revert active timers.
  induction bubbles as [|old bubbles IH]; intros active timers Hk.
  - rewrite limit_visible_keys_within by (cbn; lia). eauto 6.
  - cbn [limit_visible_keys].
    destruct (Z.gtb_spec (Z.of_nat (length (old :: bubbles))) max) as [Hgt|Hle];
      [|eauto 6].
    destruct bubbles as [|next bubbles]; [cbn in Hgt; lia|].
    assert (Hrest : ∀ active0 : list (string * nat),
              (∀ b, (k, b) ∈ active0 → (k, b) ∈ active) →
              ∀ b, (k, b) ∈ active0 → b ∉ removelast (next :: bubbles)).
    { intros active0 Hsub b Hb Hin. apply (Hk b (Hsub b Hb)).
      rewrite removelast_cons_cons. apply elem_of_cons. by right. }
    destruct (key_of_bubble old active) as [k'|] eqn:Hkey;
      [destruct (str_truthy k')|].
    + apply key_of_bubble_elem in Hkey.
      assert (Hne : k ≠ k').
      { intros ->. apply (Hk old Hkey).
        rewrite removelast_cons_cons. apply elem_of_cons. by left. }
      destruct (IH (dict_del k' active) (timers ∖ {[ k' ]}))
        as (bubbles' & active' & timers' & -> & Hget).
      * apply Hrest. intros b Hb. by apply elem_of_dict_del in Hb as [? _].
      * exists bubbles', active', timers'. split; [done|].
        by rewrite Hget, dict_get_del_ne.
    + apply IH. by apply Hrest.
    + apply IH. by apply Hrest.
Qed.

(** With room for at least one key, a name is shown once [add_key]
    returns. *)
Lemma add_key_shows (self : KeyOverlay) (key_name : string) :
  1 ≤ max_keys (config self) → bubbles_numbered self →
  ∃ self',
    add_key self key_name = Ret self' ∧
    is_Some (dict_get key_name (active_keys self')) ∧
    combo_key_map self' = combo_key_map self.
Proof.
  intros Hmax Hnum. unfold add_key.
  destruct (dict_get key_name (active_keys self)) as [bubble|] eqn:Hget.
  - eexists. split; [reflexivity|]. cbn. rewrite Hget. eauto.
  - destruct (limit_visible_keys_keeps (max_keys (config self))
                (key_bubbles self ++ [next_bubble self])
                (dict_set key_name (next_bubble self) (active_keys self))
                (fade_timers self) key_name Hmax)
      as (bubbles' & active' & timers' & -> & Hkeep).
    + intros b Hb. rewrite removelast_last.
      rewrite dict_set_absent in Hb by done.
      apply elem_of_app in Hb as [Hb|Hb].
      * by apply dict_get_absent in Hb.
      * apply list_elem_of_singleton in Hb as [= ->].
        intros Hin. unfold bubbles_numbered in Hnum.
        rewrite List.Forall_forall in Hnum.
        apply list_elem_of_In, Hnum in Hin. lia.
    + cbn. eexists. split; [reflexivity|]. cbn.
      rewrite Hkeep, dict_get_set_eq. eauto.
Qed.

Lemma list_remove_first_subset (x b : nat) (l : list nat) :
  b ∈ list_remove_first x l → b ∈ l.
Proof.
  induction l as [|y l IH]; cbn; [done|].
  case_bool_decide; rewrite !elem_of_cons; [tauto|].
  intros [->|Hin]; [by left | right; by apply IH].
Qed.

Lemma remove_modifier_bubbles_numbered (self : KeyOverlay) (parts : list string) :
  bubbles_numbered self →
  bubbles_numbered (foldl remove_modifier_bubble self parts) ∧
  config (foldl remove_modifier_bubble self parts) = config self.
Proof.
  revert self. induction parts as [|part parts IH]; intros self Hnum; [done|].
  cbn [foldl].
  assert (Hstep : bubbles_numbered (remove_modifier_bubble self part) ∧
                  config (remove_modifier_bubble self part) = config self).
  { unfold remove_modifier_bubble.
    destruct (dict_get part (active_keys self)) as [bubble|]; [|done].
    split; [|done]. unfold bubbles_numbered in *. cbn.
    rewrite List.Forall_forall in *. intros b Hb.
    apply Hnum. apply list_elem_of_In.
    apply list_elem_of_In in Hb. by eapply list_remove_first_subset. }
  destruct Hstep as [Hnum' Hcfg].
  destruct (IH _ Hnum') as [? Hcfg']. split; [done|]. by rewrite Hcfg'.
Qed.

Lemma combo_map_parts (combo : string) (parts : list string)
    (m : gmap string string) (part : string) :
  part ∈ parts →
  foldl (λ m part, <[ part := combo ]> m) m parts !! part = Some combo.
Proof.
  revert m. induction parts as [|p parts IH] using rev_ind; intros m Hin.
  - by apply elem_of_nil in Hin.
  - rewrite foldl_snoc. destruct (decide (part = p)) as [->|Hne].
    + apply lookup_insert_eq.
    + rewrite lookup_insert_ne by done. apply IH.
      apply elem_of_app in Hin as [Hin|Hin]; [done|].
      by apply list_elem_of_singleton in Hin.
Qed.

(** What [release_key] does for a key that is mapped to a shown entry. *)
Lemma release_key_mapped (self : KeyOverlay) (key_name combo : string) :
  combo_key_map self !! key_name = Some combo →
  is_Some (dict_get combo (active_keys self)) →
  release_key self key_name =
    mkOverlay (config self) (heap self) (next_bubble self) (key_bubbles self)
      ({[ combo ]} ∪ fade_timers self) (active_keys self)
      (filter (λ kv, kv.2 ≠ combo) (combo_key_map self)).
Proof.
  intros Hmap Hshown. unfold release_key, _start_fade. rewrite Hmap.
  apply dict_mem_true in Hshown. by rewrite Hshown.
Qed.

(** C3, as the code has it.  [show_combo] (with room for at least one
    key) returns with the combination shown and with every part of the
    combination mapped to it in [combo_key_map]; and in any state where a
    key is mapped to a shown combination, [release_key] on that key
    starts the fade timer of the combination and of nothing else, removes
    every mapping to that combination and no other mapping, and leaves
    the shown entries as they are.  A key is mapped to one combination
    only, the one shown last with it. *)
Theorem release_key_releases_combo (self : KeyOverlay) (combo : string) :
  1 ≤ max_keys (config self) → bubbles_numbered self →
  ∃ shown,
    show_combo self combo = Ret shown ∧
    is_Some (dict_get combo (active_keys shown)) ∧
    (∀ part, part ∈ str_split "+" combo →
       combo_key_map shown !! part = Some combo) ∧
    (∀ later key_name,
       combo_key_map later !! key_name = Some combo →
       is_Some (dict_get combo (active_keys later)) →
       combo ∈ fade_timers (release_key later key_name) ∧
       fade_timers (release_key later key_name) = {[ combo ]} ∪ fade_timers later ∧
       (∀ k, combo_key_map (release_key later key_name) !! k ≠ Some combo) ∧
       (∀ k c, c ≠ combo →
          combo_key_map (release_key later key_name) !! k = Some c ↔
          combo_key_map later !! k = Some c) ∧
       active_keys (release_key later key_name) = active_keys later ∧
       key_bubbles (release_key later key_name) = key_bubbles later ∧
       heap (release_key later key_name) = heap later).
Proof.
  intros Hmax Hnum. unfold show_combo.
  destruct (remove_modifier_bubbles_numbered self
              (removelast (str_split "+" combo)) Hnum) as [Hnum1 Hcfg1].
  set (self1 := foldl remove_modifier_bubble self (removelast (str_split "+" combo))) in *.
  set (self2 := mkOverlay _ _ _ _ _ _ _).
  destruct (add_key_shows self2 combo) as (shown & Hadd & Hshown & Hmap).
  { subst self2. cbn. by rewrite Hcfg1. }
  { exact Hnum1. }
  exists shown. split_and!; try done.
  - intros part Hpart. rewrite Hmap. subst self2. cbn. by apply combo_map_parts.
  - intros later key_name Hk Hlater.
    rewrite (release_key_mapped later key_name combo Hk Hlater). cbn.
    split_and!; try done.
    + apply elem_of_union. left. by apply elem_of_singleton.
    + intros k Hf. apply map_lookup_filter_Some in Hf as [_ Hf]. by cbn in Hf.
    + intros k c Hc. rewrite map_lookup_filter_Some. cbn.
      split; [by intros [? _] | intros Hk'; split; [done|congruence]].
Qed.

Lemma release_key_releases_combo_witness :
  ∃ shown,
    show_combo ctrl_overlay "Ctrl+S" = Ret shown ∧
    "Ctrl+S" ∈ fade_timers (release_key shown "S") ∧
    combo_key_map (release_key shown "S") !! "Ctrl" ≠ Some "Ctrl+S".
Proof.
  destruct (release_key_releases_combo ctrl_overlay "Ctrl+S")
    as (shown & Hshow & Hshown & Hparts & Hrel).
  - cbn. lia.
  - repeat constructor.
  - exists shown. split; [exact Hshow|].
    destruct (Hrel shown "S") as (Hfade & _ & Hgone & _).
    + apply Hparts. compute_done.
    + exact Hshown.
    + split; [exact Hfade | apply Hgone].
Defined.

(** A modifier held over two combinations: Ctrl, S and A are pressed, then
    Ctrl is released.  Both combinations are displayed and Ctrl is a part
    of ['Ctrl+S'], but [combo_key_map] has Ctrl under ['Ctrl+A'] only, so
    the release fades ['Ctrl+A'] and leaves ['Ctrl+S'] displayed with no
    fade timer and with the mapping of S still in place. *)
Lemma release_key_shared_modifier :
  ∃ first second,
    show_combo ctrl_overlay "Ctrl+S" = Ret first ∧
    show_combo first "Ctrl+A" = Ret second ∧
    is_Some (dict_get "Ctrl+S" (active_keys second)) ∧
    "Ctrl" ∈ str_split "+" "Ctrl+S" ∧
    combo_key_map second !! "Ctrl" = Some "Ctrl+A" ∧
    is_Some (dict_get "Ctrl+S" (active_keys (release_key second "Ctrl"))) ∧
    ("Ctrl+S" ∉ fade_timers (release_key second "Ctrl")) ∧
    "Ctrl+A" ∈ fade_timers (release_key second "Ctrl") ∧
    combo_key_map (release_key second "Ctrl") !! "S" = Some "Ctrl+S".
Proof.
  eexists _, _. split; [reflexivity|]. split; [reflexivity|].
  split_and!.
  - by eexists.
  - compute_done.
  - reflexivity.
  - by eexists.
  - compute_done.
  - compute_done.
  - reflexivity.
Qed.

(** ** The key overlay: fading *)

Lemma fade_per_tick_twentieth (cfg : OverlayConfig) :
  (fade_per_tick cfg == fade_speed cfg / 20)%Q.
Proof. unfold fade_per_tick. field. Qed.

Lemma fade_per_tick_pos (cfg : OverlayConfig) :
  (0 < fade_speed cfg)%Q → (0 < fade_per_tick cfg)%Q.
Proof.
  intros Hs. rewrite fade_per_tick_twentieth.
  apply Qlt_shift_div_l; lra.
Qed.

Lemma inject_nat_succ (n : nat) :
  (inject_Z (Z.of_nat (S n)) == inject_Z (Z.of_nat n) + 1)%Q.
Proof. rewrite Nat2Z.inj_succ. unfold Z.succ. by rewrite inject_Z_plus. Qed.

(** *** Fading in float arithmetic *)

(** For exact arithmetic the float version of [fade_key] is [fade_key]. *)
Lemma fade_key_rounded_exact (self : KeyOverlay) (key_name : string) :
  fade_key_rounded (λ x, x) self key_name = fade_key self key_name.
Proof. reflexivity. Qed.

Lemma fade_ticks_rounded_snoc (rnd : Q → Q) (n : nat) (self : KeyOverlay)
    (key_name : string) :
  fade_ticks_rounded rnd (S n) self key_name =
    fade_key_rounded rnd self key_name ≫= λ s, fade_ticks_rounded rnd n s key_name.
Proof. reflexivity. Qed.

(** The nearest integer is within a half. *)
Lemma round_half_even_near (s : Q) :
  (s - (1 # 2) <= inject_Z (round_half_even s))%Q ∧
  (inject_Z (round_half_even s) <= s + (1 # 2))%Q.
Proof.
  unfold round_half_even.
  pose proof (Qfloor_le s) as Hlo. pose proof (Qlt_floor s) as Hhi.
  rewrite inject_Z_plus in Hhi. change (inject_Z 1) with 1%Q in Hhi.
  destruct (Qcompare _ _) eqn:Hc.
  - apply Qeq_alt in Hc. destruct (Z.even _).
    + lra.
    + rewrite inject_Z_plus. change (inject_Z 1) with 1%Q. lra.
  - apply Qlt_alt in Hc. lra.
  - apply Qgt_alt in Hc. rewrite inject_Z_plus. change (inject_Z 1) with 1%Q. lra.
Qed.

(** Below 2 in absolute value the exponent is at most 0. *)
Lemma double_exponent_small (x : Q) :
  (-2 < x)%Q → (x < 2)%Q → double_exponent x ≤ 0.
Proof.
  intros Hlo Hhi. unfold double_exponent.
  assert (Ha : (Qabs x < 2)%Q) by (apply Qabs_Qlt_condition; split; lra).
  pose proof (Qabs_nonneg x) as Ha0.
  set (a := Qabs x) in *. clearbody a.
  destruct a as [n d]. cbn [Qnum Qden].
  assert (Hn : 0 ≤ n) by (unfold Qle in Ha0; cbn in Ha0; lia).
  assert (Hnd : n < 2 * Z.pos d) by (unfold Qlt in Ha; cbn in Ha; lia).
  assert (He0 : Z.log2 n - Z.log2 (Z.pos d) ≤ 1).
  { pose proof (Z.log2_le_mono n (2 * Z.pos d) ltac:(lia)) as Hm.
    rewrite Z.log2_double in Hm by lia. lia. }
  apply Z.max_lub; [|lia].
  destruct (Qle_bool _ _) eqn:Hb; [|lia].
  apply Qle_bool_iff in Hb.
  destruct (decide (Z.log2 n - Z.log2 (Z.pos d) = 1)) as [E|E]; [|lia].
  rewrite E in Hb. change (2 ^ 1)%Q with 2%Q in Hb. lra.
Qed.

(** Rounding to the nearest double moves an exact result between -2 and
    2 by at most the unit roundoff. *)
Lemma round_double_near (x : Q) :
  (-2 < x)%Q → (x < 2)%Q →
  (x - unit_roundoff <= round_double x)%Q ∧ (round_double x <= x + unit_roundoff)%Q.
Proof.
  intros Hlo Hhi. unfold round_double.
  assert (Hu : (unit_roundoff == 1 # 9007199254740992)%Q) by reflexivity.
  destruct (Qeq_bool x 0) eqn:Hz.
  { apply Qeq_bool_iff in Hz. lra. }
  pose proof (double_exponent_small x Hlo Hhi) as He.
  set (ulp := (2 ^ (double_exponent x - 52))%Q).
  assert (Hpos : (0 < ulp)%Q) by (apply Qpower_0_lt; lra).
  assert (Hsmall : (ulp <= 2 * unit_roundoff)%Q).
  { assert (H2 : (2 * unit_roundoff == 2 ^ (-52))%Q) by reflexivity.
    rewrite H2. apply Qpower_le_compat_l; [lia|lra]. }
  destruct (round_half_even_near (x / ulp)) as [Hm1 Hm2].
  assert (Hmul : (x / ulp * ulp == x)%Q) by (field; lra).
  set (m := inject_Z (round_half_even (x / ulp))) in *.
  set (q := (x / ulp)%Q) in *. clearbody m q ulp.
  nra.
Qed.

(** Exact arithmetic is a rounding as well. *)
Lemma exact_near (x : Q) :
  (-2 < x)%Q → (x < 2)%Q →
  (x - unit_roundoff <= x)%Q ∧ (x <= x + unit_roundoff)%Q.
Proof. intros _ _. assert (Hu : (0 < unit_roundoff)%Q) by reflexivity. lra. Qed.

Section RoundedFade.

(** The rounding of float operations: the value returned is within the
    unit roundoff of an exact result that lies between -2 and 2. *)
Variable rnd : Q → Q.
Hypothesis rnd_near : ∀ x, (-2 < x)%Q → (x < 2)%Q →
  (x - unit_roundoff <= rnd x)%Q ∧ (rnd x <= x + unit_roundoff)%Q.

(** The amount taken off per tick is within 51 roundoffs of a twentieth
    of the fade speed. *)
Lemma fade_per_tick_rounded_near (cfg : OverlayConfig) :
  (0 <= fade_speed cfg)%Q → (fade_speed cfg <= 20)%Q →
  (fade_speed cfg / 20 - 51 * unit_roundoff <= fade_per_tick_rounded rnd cfg)%Q ∧
  (fade_per_tick_rounded rnd cfg <= fade_speed cfg / 20 + 51 * unit_roundoff)%Q.
Proof.
  intros H0 H20. unfold fade_per_tick_rounded.
  assert (Ha : (fade_speed cfg / 1000 * 1000 == fade_speed cfg)%Q) by (field; done).
  assert (Hr : (fade_speed cfg / 20 * 20 == fade_speed cfg)%Q) by (field; done).
  set (a := (fade_speed cfg / 1000)%Q) in *.
  set (rate := (fade_speed cfg / 20)%Q) in *.
  clearbody a rate.
  assert (Hu : (unit_roundoff == 1 # 9007199254740992)%Q) by reflexivity.
  destruct (rnd_near a) as [Ha1 Ha2]; [lra|lra|].
  set (ra := rnd a) in *.
  destruct (rnd_near (ra * 50)) as [Hb1 Hb2]; [lra|lra|].
  lra.
Qed.

(** One tick, in the terms of the opacity it stores. *)
Lemma fade_key_rounded_alive (self : KeyOverlay) (key_name : string) (bubble : nat) :
  dict_get key_name (active_keys self) = Some bubble →
  (0 < rnd (opacity (heap self bubble) - fade_per_tick_rounded rnd (config self)))%Q →
  fade_key_rounded rnd self key_name =
    Ret (mkOverlay (config self)
           (<[ bubble := set_opacity
                 (rnd (opacity (heap self bubble) - fade_per_tick_rounded rnd (config self)))
                 (heap self bubble) ]> (heap self))
           (next_bubble self) (key_bubbles self) (fade_timers self)
           (active_keys self) (combo_key_map self)).
Proof.
  intros Hget Hpos. unfold fade_key_rounded. rewrite Hget.
  destruct (Qle_bool _ 0) eqn:Hle; [|done].
  apply Qle_bool_iff in Hle. lra.
Qed.

Lemma fade_key_rounded_gone (self : KeyOverlay) (key_name : string) (bubble : nat) :
  dict_get key_name (active_keys self) = Some bubble →
  key_name ∈ fade_timers self →
  (rnd (opacity (heap self bubble) - fade_per_tick_rounded rnd (config self)) <= 0)%Q →
  fade_key_rounded rnd self key_name =
    Ret (mkOverlay (config self)
           (<[ bubble := set_opacity
                 (rnd (opacity (heap self bubble) - fade_per_tick_rounded rnd (config self)))
                 (heap self bubble) ]> (heap self))
           (next_bubble self)
           (list_remove_first bubble (key_bubbles self))
           (fade_timers self ∖ {[ key_name ]})
           (dict_del key_name (active_keys self))
           (combo_key_map self)).
Proof.
  intros Hget Htimer Hle. unfold fade_key_rounded. rewrite Hget.
  apply Qle_bool_iff in Hle. rewrite Hle.
  by rewrite bool_decide_eq_true_2.
Qed.

(** The opacity a tick stores, for a fading entry. *)
Lemma rounded_opacity_bounds (cfg : OverlayConfig) (o : Q) :
  (fade_slack < fade_speed cfg / 20)%Q → (fade_speed cfg <= 20)%Q →
  (0 < o)%Q → (o <= 1)%Q →
  let o' := rnd (o - fade_per_tick_rounded rnd cfg) in
  (o - (fade_speed cfg / 20 + fade_slack) <= o')%Q ∧
  (o' <= o - (fade_speed cfg / 20 - fade_slack))%Q ∧
  (o' < o)%Q ∧ (o' <= 1)%Q.
Proof.
  intros Hslack H20 Hpos Hle.
  assert (Hu : (unit_roundoff == 1 # 9007199254740992)%Q) by reflexivity.
  assert (Hs : (fade_slack == 52 * unit_roundoff)%Q) by reflexivity.
  assert (Hr : (fade_speed cfg / 20 * 20 == fade_speed cfg)%Q) by (field; done).
  assert (H0 : (0 <= fade_speed cfg)%Q).
  { set (rate := (fade_speed cfg / 20)%Q) in *. lra. }
  destruct (fade_per_tick_rounded_near cfg H0 H20) as [Hd1 Hd2].
  set (rate := (fade_speed cfg / 20)%Q) in *.
  set (d := fade_per_tick_rounded rnd cfg) in *.
  clearbody rate d.
  destruct (rnd_near (o - d)) as [Hx1 Hx2]; [lra|lra|].
  cbv zeta. split_and!; lra.
Qed.

(** The run of the fade timer of an entry, tick by tick, until the tick
    that removes the entry; [m] bounds the number of ticks. *)
Lemma fade_run_rounded (cfg : OverlayConfig) (key_name : string) (bubble : nat)
    (m : nat) (self : KeyOverlay) :
  (fade_slack < fade_speed cfg / 20)%Q → (fade_speed cfg <= 20)%Q →
  config self = cfg →
  dict_get key_name (active_keys self) = Some bubble →
  key_name ∈ fade_timers self →
  (0 < opacity (heap self bubble))%Q → (opacity (heap self bubble) <= 1)%Q →
  (opacity (heap self bubble)
     <= inject_Z (Z.of_nat m) * (fade_speed cfg / 20 - fade_slack))%Q →
  ∃ N : nat,
    (1 ≤ N)%nat ∧
    (inject_Z (Z.of_nat N - 1) * (fade_speed cfg / 20 - fade_slack)
       < opacity (heap self bubble))%Q ∧
    (opacity (heap self bubble)
       <= inject_Z (Z.of_nat N) * (fade_speed cfg / 20 + fade_slack))%Q ∧
    (∀ n : nat, (n < N)%nat →
       ∃ s,
         fade_ticks_rounded rnd n self key_name = Ret s ∧
         dict_get key_name (active_keys s) = Some bubble ∧
         key_name ∈ fade_timers s ∧
         key_bubbles s = key_bubbles self ∧
         (0 < opacity (heap s bubble))%Q ∧
         (opacity (heap s bubble) <= 1)%Q ∧
         (opacity (heap self bubble)
            - inject_Z (Z.of_nat n) * (fade_speed cfg / 20 + fade_slack)
          <= opacity (heap s bubble))%Q ∧
         (opacity (heap s bubble)
          <= opacity (heap self bubble)
             - inject_Z (Z.of_nat n) * (fade_speed cfg / 20 - fade_slack))%Q) ∧
    (∃ s,
       fade_ticks_rounded rnd N self key_name = Ret s ∧
       dict_get key_name (active_keys s) = None ∧
       (key_name ∉ fade_timers s) ∧
       key_bubbles s = list_remove_first bubble (key_bubbles self)).
Proof.
  intros Hslack H20. revert self.
  assert (Hs : (0 < fade_slack)%Q) by reflexivity.
  assert (Hbounds : ∀ o, (0 < o)%Q → (o <= 1)%Q →
            (o - (fade_speed cfg / 20 + fade_slack)
               <= rnd (o - fade_per_tick_rounded rnd cfg))%Q ∧
            (rnd (o - fade_per_tick_rounded rnd cfg)
               <= o - (fade_speed cfg / 20 - fade_slack))%Q).
  { intros o Ho0 Ho1.
    destruct (rounded_opacity_bounds cfg o Hslack H20 Ho0 Ho1) as (Hb1 & Hb2 & _).
    split; [exact Hb1|exact Hb2]. }
  assert (Hlo : (0 < fade_speed cfg / 20 - fade_slack)%Q) by lra.
  assert (Hlohi : (fade_speed cfg / 20 - fade_slack <= fade_speed cfg / 20 + fade_slack)%Q)
    by lra.
  revert Hbounds Hlo Hlohi.
  generalize (fade_speed cfg / 20 - fade_slack)%Q (fade_speed cfg / 20 + fade_slack)%Q.
  intros lo hi Hbounds Hlo Hlohi.
  induction m as [|m IH]; intros self Hcfg Hget Htimer Hpos Hle Hfuel.
  { change (inject_Z (Z.of_nat 0)) with 0%Q in Hfuel. lra. }
  pose proof (inject_nat_succ m) as Hsm.
  destruct (Hbounds (opacity (heap self bubble)) Hpos Hle) as (Hb1 & Hb2).
  rewrite <- Hcfg in Hb1, Hb2.
  set (o := opacity (heap self bubble)) in *.
  set (o' := rnd (o - fade_per_tick_rounded rnd (config self))) in *.
  assert (Hb4 : (o' <= 1)%Q) by lra.
  destruct (Qlt_le_dec 0 o') as [Halive|Hgone].
  - pose proof (fade_key_rounded_alive self key_name bubble Hget Halive) as Hstep.
    set (self1 := mkOverlay _ _ _ _ _ _ _) in Hstep.
    assert (Ho1 : opacity (heap self1 bubble) = o').
    { unfold self1. cbn. rewrite fn_lookup_insert. reflexivity. }
    destruct (IH self1) as (N & HN1 & HNlo & HNhi & Hbefore & s & Hrun & Hnone & Hnt & Hbub).
    + done.
    + done.
    + done.
    + by rewrite Ho1.
    + by rewrite Ho1.
    + rewrite Ho1. nra.
    + rewrite Ho1 in HNlo, HNhi.
      assert (HNq : (inject_Z (Z.of_nat (S N) - 1) == inject_Z (Z.of_nat N - 1) + 1)%Q).
      { assert (Z.of_nat (S N) - 1 = Z.of_nat N - 1 + 1) as -> by lia.
        rewrite inject_Z_plus. reflexivity. }
      pose proof (inject_nat_succ N) as HsN.
      exists (S N). split_and!.
      * lia.
      * rewrite HNq. nra.
      * rewrite HsN. nra.
      * intros n Hn. destruct n as [|n].
        -- exists self. cbn [fade_ticks_rounded]. fold o.
           split_and!; try done; change (inject_Z (Z.of_nat 0)) with 0%Q; lra.
        -- destruct (Hbefore n ltac:(lia))
             as (s' & Hrun' & Hget' & Htimer' & Hbub' & Hp' & Hl' & Hlow' & Hup').
           exists s'. rewrite fade_ticks_rounded_snoc, Hstep. cbn [mbind res_bind].
           rewrite Ho1 in Hlow', Hup'.
           pose proof (inject_nat_succ n) as Hsn.
           assert (Hn0 : (0 <= inject_Z (Z.of_nat n))%Q).
           { change 0%Q with (inject_Z 0). rewrite <- Zle_Qle. lia. }
           split_and!; try done.
           ++ rewrite Hsn. nra.
           ++ rewrite Hsn. nra.
      * exists s. rewrite fade_ticks_rounded_snoc, Hstep. cbn [mbind res_bind].
        split_and!; done.
  - pose proof (fade_key_rounded_gone self key_name bubble Hget Htimer Hgone) as Hstep.
    exists 1%nat. split_and!.
    + lia.
    + change (inject_Z (Z.of_nat 1 - 1)) with 0%Q. lra.
    + change (inject_Z (Z.of_nat 1)) with 1%Q. lra.
    + intros n Hn. assert (n = 0%nat) as -> by lia.
      exists self. cbn [fade_ticks_rounded]. fold o.
      split_and!; try done; change (inject_Z (Z.of_nat 0)) with 0%Q; lra.
    + eexists. cbn [fade_ticks_rounded]. rewrite Hstep. cbn [mbind res_bind].
      split; [reflexivity|]. cbn. split_and!.
      * apply dict_get_del_eq.
      * rewrite elem_of_difference, elem_of_singleton. tauto.
      * done.
Qed.

(** C2.  Opacities are doubles: every operation of [fade_key] returns
    its exact result rounded, within the unit roundoff [u = 2^-53] of a
    result between -2 and 2 ([rnd] is any such rounding, the one of
    doubles, [round_double], among them).  For an entry that is fading
    (shown, timer running, opacity [o] in (0, 1]) and a fade speed [f]
    of at most 20 whose twentieth is above [52 u]:

    - the amount [d] a tick takes off is computed from the configured
      fade speed only and is within [51 u] of [f / 20];
    - a tick returns and stores the rounded difference, which is within
      [u] of [o - d], below [o] and at most 1; the entry stays, with
      this opacity, when it is above zero and is removed from
      [active_keys], [fade_timers] and [key_bubbles] when it is zero or
      below;
    - the fade is linear up to rounding and ends: there is a tick [N] at
      which the entry is removed; before it the entry is shown and its
      opacity after [n] ticks is in (0, 1] and between
      [o - n (f / 20 + 52 u)] and [o - n (f / 20 - 52 u)]; and
      [(N - 1) (f / 20 - 52 u) < o <= N (f / 20 + 52 u)], so that from
      opacity 1.0 the number of ticks is [20 / f] up to rounding (10 or
      11 for the fade speed 2.0). *)
Theorem fade_key_linear (self : KeyOverlay) (key_name : string) (bubble : nat) :
  (fade_slack < fade_speed (config self) / 20)%Q →
  (fade_speed (config self) <= 20)%Q →
  dict_get key_name (active_keys self) = Some bubble →
  key_name ∈ fade_timers self →
  (0 < opacity (heap self bubble))%Q →
  (opacity (heap self bubble) <= 1)%Q →
  ((fade_speed (config self) / 20 - 51 * unit_roundoff
      <= fade_per_tick_rounded rnd (config self))%Q ∧
   (fade_per_tick_rounded rnd (config self)
      <= fade_speed (config self) / 20 + 51 * unit_roundoff)%Q) ∧
  (∃ self',
     fade_key_rounded rnd self key_name = Ret self' ∧
     opacity (heap self' bubble) =
       rnd (opacity (heap self bubble) - fade_per_tick_rounded rnd (config self)) ∧
     (opacity (heap self bubble) - fade_per_tick_rounded rnd (config self)
        - unit_roundoff <= opacity (heap self' bubble))%Q ∧
     (opacity (heap self' bubble)
        <= opacity (heap self bubble) - fade_per_tick_rounded rnd (config self)
           + unit_roundoff)%Q ∧
     (opacity (heap self' bubble) < opacity (heap self bubble))%Q ∧
     (opacity (heap self' bubble) <= 1)%Q ∧
     ((0 < opacity (heap self' bubble))%Q →
        dict_get key_name (active_keys self') = Some bubble ∧
        key_name ∈ fade_timers self' ∧
        key_bubbles self' = key_bubbles self) ∧
     ((opacity (heap self' bubble) <= 0)%Q →
        dict_get key_name (active_keys self') = None ∧
        (key_name ∉ fade_timers self') ∧
        key_bubbles self' = list_remove_first bubble (key_bubbles self))) ∧
  (∃ N : nat,
     (1 ≤ N)%nat ∧
     (inject_Z (Z.of_nat N - 1) * (fade_speed (config self) / 20 - fade_slack)
        < opacity (heap self bubble))%Q ∧
     (opacity (heap self bubble)
        <= inject_Z (Z.of_nat N) * (fade_speed (config self) / 20 + fade_slack))%Q ∧
     (∀ n : nat, (n < N)%nat →
        ∃ s,
          fade_ticks_rounded rnd n self key_name = Ret s ∧
          dict_get key_name (active_keys s) = Some bubble ∧
          key_name ∈ fade_timers s ∧
          key_bubbles s = key_bubbles self ∧
          (0 < opacity (heap s bubble))%Q ∧
          (opacity (heap s bubble) <= 1)%Q ∧
          (opacity (heap self bubble)
             - inject_Z (Z.of_nat n) * (fade_speed (config self) / 20 + fade_slack)
           <= opacity (heap s bubble))%Q ∧
          (opacity (heap s bubble)
           <= opacity (heap self bubble)
              - inject_Z (Z.of_nat n) * (fade_speed (config self) / 20 - fade_slack))%Q) ∧
     (∃ s,
        fade_ticks_rounded rnd N self key_name = Ret s ∧
        dict_get key_name (active_keys s) = None ∧
        (key_name ∉ fade_timers s) ∧
        key_bubbles s = list_remove_first bubble (key_bubbles self))).
Proof.
  intros Hslack H20 Hget Htimer Hpos Hle.
  assert (Hu : (unit_roundoff == 1 # 9007199254740992)%Q) by reflexivity.
  assert (Hs : (fade_slack == 52 * unit_roundoff)%Q) by reflexivity.
  assert (H0 : (0 <= fade_speed (config self))%Q).
  { assert (Hr : (fade_speed (config self) / 20 * 20 == fade_speed (config self))%Q)
      by (field; done).
    set (rate := (fade_speed (config self) / 20)%Q) in *. lra. }
  pose proof (fade_per_tick_rounded_near (config self) H0 H20) as Hd.
  split; [exact Hd|]. split.
  - destruct (rounded_opacity_bounds (config self) (opacity (heap self bubble))
                Hslack H20 Hpos Hle) as (Hb1 & Hb2 & Hb3 & Hb4).
    cbv zeta in Hb1, Hb2, Hb3, Hb4.
    destruct Hd as [Hd1 Hd2].
    set (d := fade_per_tick_rounded rnd (config self)) in *.
    set (o := opacity (heap self bubble)) in *.
    destruct (rnd_near (o - d)) as [Hx1 Hx2].
    { set (rate := (fade_speed (config self) / 20)%Q) in *.
      assert (Hr : (rate * 20 == fade_speed (config self))%Q) by (unfold rate; field; done).
      lra. }
    { set (rate := (fade_speed (config self) / 20)%Q) in *. lra. }
    destruct (Qlt_le_dec 0 (rnd (o - d))) as [Halive|Hgone].
    + rewrite (fade_key_rounded_alive self key_name bubble) by done.
      eexists. split; [reflexivity|]. cbn. rewrite fn_lookup_insert. cbn.
      fold o d. split_and!; try done; lra.
    + rewrite (fade_key_rounded_gone self key_name bubble) by done.
      eexists. split; [reflexivity|]. cbn. rewrite fn_lookup_insert. cbn.
      fold o d. split_and!; try done; try lra.
      intros _. split_and!; [apply dict_get_del_eq| |done].
      rewrite elem_of_difference, elem_of_singleton. tauto.
  - set (lo := (fade_speed (config self) / 20 - fade_slack)%Q).
    assert (Hlo : (0 < lo)%Q) by (unfold lo; lra).
    set (o := opacity (heap self bubble)) in *.
    pose proof (Qle_ceiling (o / lo)) as Hceil.
    assert (Hmul : (o / lo * lo == o)%Q) by (field; lra).
    assert (Hc0 : (0 ≤ Qceiling (o / lo))%Z).
    { assert (Hq : (0 <= o / lo)%Q) by (apply Qle_shift_div_l; lra).
      assert (Hz : (inject_Z 0 <= inject_Z (Qceiling (o / lo)))%Q)
        by (change (inject_Z 0) with 0%Q; lra).
      by rewrite <- Zle_Qle in Hz. }
    apply (fade_run_rounded (config self) key_name bubble
             (Z.to_nat (Qceiling (o / lo))) self); try done.
    rewrite Z2Nat.id by done. fold lo o.
    set (c := inject_Z (Qceiling (o / lo))) in *.
    set (q := (o / lo)%Q) in *. nra.
Qed.

End RoundedFade.

Lemma fade_key_linear_witness :
  ∃ pressed s,
    add_key (new_overlay fast_fade_config) "A" = Ret pressed ∧
    (fade_slack < fade_speed (config (release_key pressed "A")) / 20)%Q ∧
    fade_ticks_rounded round_double 11 (release_key pressed "A") "A" = Ret s ∧
    dict_get "A" (active_keys s) = None ∧
    ("A" ∉ fade_timers s).
Proof.
  eexists.
  assert (Hpress : add_key (new_overlay fast_fade_config) "A" =
            Ret (mkOverlay fast_fade_config
                   (<[ 0%nat := mkBubble "A" 1 ]> (heap (new_overlay fast_fade_config)))
                   1 [0%nat] ∅ [("A", 0%nat)] ∅)) by reflexivity.
  set (pressed := mkOverlay _ _ _ _ _ _ _) in Hpress.
  assert (Hrel : release_key pressed "A" =
            mkOverlay fast_fade_config (heap pressed) 1 [0%nat]
              ({[ "A" ]} ∪ ∅) [("A", 0%nat)] ∅) by reflexivity.
  assert (Hten : ∃ s10,
            fade_ticks_rounded round_double 10 (release_key pressed "A") "A" = Ret s10 ∧
            dict_get "A" (active_keys s10) = Some 0%nat).
  { eexists. split; vm_compute; reflexivity. }
  destruct (fade_key_linear round_double round_double_near
              (release_key pressed "A") "A" 0%nat)
    as (_ & _ & N & HN1 & Hlo & Hhi & _ & s & Hrun & Hnone & Hnt & _).
  - rewrite Hrel. reflexivity.
  - rewrite Hrel. cbn. discriminate.
  - rewrite Hrel. reflexivity.
  - rewrite Hrel. cbn. apply elem_of_union. left. by apply elem_of_singleton.
  - rewrite Hrel. reflexivity.
  - rewrite Hrel. cbn. discriminate.
  - rewrite Hrel in Hlo, Hhi.
    cbn [config fade_speed fast_fade_config heap opacity] in Hlo, Hhi.
    assert (Ho : (opacity (heap pressed 0%nat) == 1)%Q) by reflexivity.
    rewrite Ho in Hlo, Hhi.
    assert (Hr : (2 / 20 == 1 # 10)%Q) by reflexivity.
    assert (Hsl : (fade_slack == 52 # 9007199254740992)%Q) by reflexivity.
    rewrite Hr, Hsl in Hlo, Hhi.
    assert (HN : (10 ≤ N ≤ 11)%nat).
    { split.
      - destruct (decide (N ≤ 9)%nat) as [Hsmall|Hbig1]; [|lia].
        exfalso. assert (Hq : (inject_Z (Z.of_nat N) <= inject_Z 9)%Q)
          by (rewrite <- Zle_Qle; lia).
        change (inject_Z 9) with 9%Q in Hq.
        set (n := inject_Z (Z.of_nat N)) in *. lra.
      - destruct (decide (12 ≤ N)%nat) as [Hbig|Hok]; [|lia].
        exfalso. assert (Hq : (inject_Z 11 <= inject_Z (Z.of_nat N - 1))%Q)
          by (rewrite <- Zle_Qle; lia).
        change (inject_Z 11) with 11%Q in Hq.
        set (n := inject_Z (Z.of_nat N - 1)) in *. lra. }
    destruct Hten as (s10 & Hrun10 & Hget10).
    assert (N = 11%nat) as ->.
    { destruct (decide (N = 10%nat)) as [->|]; [|lia].
      rewrite Hrun10 in Hrun. injection Hrun as <-. congruence. }
    exists s. split; [exact Hpress|]. split; [reflexivity|]. split_and!; done.
Defined.

(** In doubles the entry fading from 1.0 with the fade speed 2.0 is
    still shown after ten ticks, with the opacity [5 * 2^-55], and is
    removed by the eleventh. *)
Example fade_double_eleventh_tick :
  ∃ pressed s10 s11,
    add_key (new_overlay fast_fade_config) "A" = Ret pressed ∧
    fade_ticks_rounded round_double 10 (release_key pressed "A") "A" = Ret s10 ∧
    dict_get "A" (active_keys s10) = Some 0%nat ∧
    (opacity (heap s10 0%nat) == 5 # 36028797018963968)%Q ∧
    fade_key_rounded round_double s10 "A" = Ret s11 ∧
    dict_get "A" (active_keys s11) = None.
Proof.
  eexists _, _, _. split; [reflexivity|].
  split; [vm_compute; reflexivity|].
  split_and!; vm_compute; reflexivity.
Qed.

(** In exact arithmetic the tenth tick removes it. *)
Example fade_exact_tenth_tick :
  ∃ pressed s,
    add_key (new_overlay fast_fade_config) "A" = Ret pressed ∧
    fade_ticks_rounded (λ x, x) 10 (release_key pressed "A") "A" = Ret s ∧
    dict_get "A" (active_keys s) = None.
Proof.
  eexists _, _. split; [reflexivity|].
  split; vm_compute; reflexivity.
Qed.

(** ** Configuration dicts *)

Lemma key_eqb_str (s : string) (k : json) :
  key_eqb (JStr s) k = true ↔ k = JStr s.
Proof.
  destruct k; cbn; try (split; [discriminate|congruence]).
  rewrite bool_decide_eq_true. split; congruence.
Qed.

Lemma key_eqb_str_false (s : string) (k : json) :
  k ≠ JStr s → key_eqb (JStr s) k = false.
Proof.
  intros Hne. destruct (key_eqb (JStr s) k) eqn:E; [|done].
  by apply key_eqb_str in E.
Qed.

Lemma DEFAULT_CONFIG_str_keys : str_keys DEFAULT_CONFIG.
Proof. unfold str_keys, DEFAULT_CONFIG. repeat constructor; cbn; eauto. Qed.

Lemma dict_of_members_str_keys (members : list (string * json)) :
  str_keys (dict_of_members members).
Proof.
  unfold str_keys, dict_of_members. apply Forall_fmap, Forall_true.
  intros [s v]. cbn. eauto.
Qed.

Lemma key_eqb_str_str (a b : string) :
  key_eqb (JStr a) (JStr b) = bool_decide (a = b).
Proof. reflexivity. Qed.

Lemma pydict_set_str_keys (s : string) (v : json) (d : list (json * json)) :
  str_keys d → str_keys (pydict_set (JStr s) v d).
Proof.
  unfold str_keys. induction 1 as [|[k v'] d [s' Hk] Hd IH]; cbn [pydict_set].
  - repeat constructor. cbn. eauto.
  - destruct (key_eqb k (JStr s)); constructor; cbn; eauto.
Qed.

Lemma pydict_get_set_eq (s : string) (v : json) (d : list (json * json)) :
  str_keys d → pydict_get (JStr s) (pydict_set (JStr s) v d) = Some v.
Proof.
  unfold str_keys.
  induction 1 as [|[k v'] d [s' Hk] Hd IH]; cbn [pydict_get pydict_set].
  - by rewrite key_eqb_str_str, bool_decide_eq_true_2.
  - cbn in Hk. subst k. rewrite key_eqb_str_str.
    case_bool_decide as Hs; cbn [pydict_get]; rewrite key_eqb_str_str.
    + by rewrite bool_decide_eq_true_2.
    + by rewrite bool_decide_eq_false_2.
Qed.

Lemma pydict_get_set_ne (s : string) (k v : json) (d : list (json * json)) :
  str_keys d → k ≠ JStr s →
  pydict_get k (pydict_set (JStr s) v d) = pydict_get k d.
Proof.
  unfold str_keys. intros Hd Hne.
  induction Hd as [|[k' v'] d [s' Hk] Hd IH]; cbn [pydict_get pydict_set].
  - by rewrite key_eqb_str_false.
  - cbn in Hk. subst k'. rewrite key_eqb_str_str.
    case_bool_decide as Hs; cbn [pydict_get].
    + subst s'. by rewrite key_eqb_str_false.
    + by rewrite IH.
Qed.

Lemma pydict_get_none (k : json) (d : list (json * json)) :
  str_keys d → pydict_get k d = None ↔ k ∉ d.*1.
Proof.
  unfold str_keys.
  induction 1 as [|[k' v'] d [s' Hk] Hd IH]; cbn [pydict_get fmap list_fmap fst].
  - split; [intros _; apply not_elem_of_nil|done].
  - cbn in Hk. subst k'. rewrite not_elem_of_cons.
    destruct (key_eqb (JStr s') k) eqn:E.
    + apply key_eqb_str in E. split; [done|]. intros [Hne _]. done.
    + rewrite IH. split; [|tauto]. intros Hin. split; [|done].
      intros ->. by rewrite (proj2 (key_eqb_str s' (JStr s'))) in E.
Qed.

Lemma pydict_get_not_str (k : json) (d : list (json * json)) :
  str_keys d → (∀ s, k ≠ JStr s) → pydict_get k d = None.
Proof.
  intros Hd Hk. apply pydict_get_none; [done|].
  intros Hin. apply list_elem_of_fmap in Hin as ([k' v] & -> & Hin).
  unfold str_keys in Hd. rewrite List.Forall_forall in Hd.
  apply list_elem_of_In, Hd in Hin as [s Hs]. cbn in *. by apply (Hk s).
Qed.

Lemma pydict_set_keys (s : string) (v : json) (d : list (json * json)) :
  str_keys d → JStr s ∈ d.*1 → (pydict_set (JStr s) v d).*1 = d.*1.
Proof.
  unfold str_keys.
  induction 1 as [|[k' v'] d [s' Hk] Hd IH]; cbn [pydict_set fmap list_fmap fst].
  - by intros ?%elem_of_nil.
  - cbn in Hk. subst k'. rewrite key_eqb_str_str.
    case_bool_decide as Hs; [done|]. cbn [fmap list_fmap fst].
    intros Hin. apply elem_of_cons in Hin as [[= ->]|Hin]; [done|].
    by rewrite IH.
Qed.

Lemma pydict_get_dict_of_members (s : string) (members : list (string * json)) :
  pydict_get (JStr s) (dict_of_members members) = dict_get s members.
Proof.
  induction members as [|[s' v] members IH]; [done|].
  cbn [dict_of_members fmap list_fmap pydict_get dict_get fst snd].
  rewrite key_eqb_str_str. fold (dict_of_members members). by rewrite IH.
Qed.

(** The items of a JSON object written over a dict with string keys. *)
Lemma update_members_get (d : list (json * json)) (members : list (string * json))
    (s : string) :
  str_keys d →
  str_keys (foldl (λ d' kv, pydict_set (JStr kv.1) kv.2 d') d members) ∧
  pydict_get (JStr s) (foldl (λ d' kv, pydict_set (JStr kv.1) kv.2 d') d members) =
    match member_value s members with
    | Some v => Some v
    | None => pydict_get (JStr s) d
    end.
Proof.
  intros Hd. unfold member_value.
  induction members as [|[s' v] members [IHk IH]] using rev_ind; [done|].
  rewrite foldl_snoc, reverse_snoc. cbn.
  split; [by apply pydict_set_str_keys|].
  case_bool_decide as Hs.
  - subst s'. by apply pydict_get_set_eq.
  - rewrite pydict_get_set_ne by (done || congruence). apply IH.
Qed.

Lemma dict_get_nodup {V : Type} (s : string) (v : V) (d : list (string * V)) :
  NoDup d.*1 → dict_get s d = Some v ↔ (s, v) ∈ d.
Proof.
  intros Hnd. split; [apply dict_get_elem|].
  induction d as [|[s' v'] d IH]; [by intros ?%elem_of_nil|].
  cbn in *. apply list.NoDup_cons in Hnd as [Hnotin Hnd].
  intros Hin. apply elem_of_cons in Hin as [[= <- <-]|Hin].
  - by rewrite bool_decide_eq_true_2.
  - case_bool_decide as Hs; [|by apply IH].
    subst s'. exfalso. apply Hnotin.
    apply list_elem_of_fmap. by exists (s, v).
Qed.

Lemma member_value_nodup (s : string) (members : list (string * json)) :
  NoDup members.*1 → member_value s members = dict_get s members.
Proof.
  intros Hnd. unfold member_value.
  assert (Hrev : NoDup (reverse members).*1).
  { by rewrite fmap_reverse, reverse_Permutation. }
  destruct (dict_get s members) as [v|] eqn:Hget.
  - apply dict_get_nodup; [done|]. apply elem_of_reverse.
    by apply dict_get_elem.
  - destruct (dict_get s (reverse members)) as [v|] eqn:Hget'; [|done].
    apply dict_get_elem in Hget'. rewrite elem_of_reverse in Hget'.
    apply (proj2 (dict_get_nodup s v members Hnd)) in Hget'. congruence.
Qed.

Lemma str_truthy_nonempty (s : string) : str_truthy s = true ↔ s ≠ "".
Proof. destruct s; cbn; split; (done || congruence). Qed.

Lemma dict_get_filter_keys {V : Type} (removed : list string) (s : string)
    (d : list (string * V)) :
  dict_get s (filter (λ kv, kv.1 ∉ removed) d) =
    if decide (s ∈ removed) then None else dict_get s d.
Proof.
  induction d as [|[s' v] d IH]; [by destruct (decide (s ∈ removed))|].
  rewrite filter_cons. cbn [fst dict_get].
  destruct (decide (s' ∉ removed)) as [Hkeep|Hdrop]; cbn [dict_get].
  - destruct (decide (s' = s)) as [->|Hs].
    + by rewrite bool_decide_eq_true_2, decide_False.
    + rewrite bool_decide_eq_false_2 by done. apply IH.
  - rewrite IH. destruct (decide (s' = s)) as [->|Hs].
    + destruct (decide (s ∈ removed)); [done|]. by exfalso.
    + by rewrite bool_decide_eq_false_2.
Qed.

Lemma filter_keys_nodup {V : Type} (removed : list string) (d : list (string * V)) :
  NoDup d.*1 → NoDup (filter (λ kv, kv.1 ∉ removed) d).*1.
Proof.
  intros Hnd. apply (sublist_NoDup _ d.*1); [exact Hnd|].
  apply fmap_sublist, sublist_filter.
Qed.

(** ** Loading and saving the configuration *)

Section PersistenceFacts.

Variable json_loads : qvariant → res json.
Variable json_dumps : list (json * json) → string.

Lemma load_config_object (self : KeyVisualizerApp) (text : string)
    (members : list (string * json)) :
  settings self = QString text → text ≠ "" →
  json_loads (QString text) = Ret (JObj members) →
  load_config json_loads self =
    Ret (foldl (λ d' kv, pydict_set (JStr kv.1) kv.2 d') DEFAULT_CONFIG members).
Proof.
  intros Hs Hne Hl. unfold load_config. rewrite Hs. cbn.
  rewrite (proj2 (str_truthy_nonempty text) Hne), Hl. reflexivity.
Qed.

(** C7, as the code has it.  [load_config] returns the full default
    configuration, raising nothing, when nothing is stored or the stored
    value is falsy, when [json.loads] raises [JSONDecodeError] (the text
    is no JSON) or [TypeError] (the stored value is no [str], [bytes] or
    [bytearray]), and when [json.loads] returns [null], a boolean or a
    number.  When [json.loads] returns an object, [load_config] returns a
    configuration in which every string key has the value the object
    gives it and, when the object has no such key, its default; so a key
    of the object that is no option is in the configuration too.  No
    other key is in it. *)
Theorem load_config_fallback (self : KeyVisualizerApp) :
  (qvariant_truthy (settings self) = false →
     load_config json_loads self = Ret DEFAULT_CONFIG) ∧
  (json_loads (settings self) = Raise JSONDecodeError →
     load_config json_loads self = Ret DEFAULT_CONFIG) ∧
  (json_loads (settings self) = Raise TypeError →
     load_config json_loads self = Ret DEFAULT_CONFIG) ∧
  (∀ scalar, json_loads (settings self) = Ret scalar → json_scalar scalar = true →
     load_config json_loads self = Ret DEFAULT_CONFIG) ∧
  (∀ members, qvariant_truthy (settings self) = true →
     json_loads (settings self) = Ret (JObj members) →
     ∃ cfg,
       load_config json_loads self = Ret cfg ∧
       (∀ s, pydict_get (JStr s) cfg =
               match member_value s members with
               | Some v => Some v
               | None => pydict_get (JStr s) DEFAULT_CONFIG
               end) ∧
       (∀ k, (∀ s, k ≠ JStr s) → pydict_get k cfg = None)).
Proof.
  split_and!.
  - intros Hf. unfold load_config. by rewrite Hf.
  - intros Hl. unfold load_config. rewrite Hl.
    by destruct (qvariant_truthy (settings self)).
  - intros Hl. unfold load_config. rewrite Hl.
    by destruct (qvariant_truthy (settings self)).
  - intros scalar Hl Hsc. unfold load_config. rewrite Hl.
    destruct (qvariant_truthy (settings self)); [|done].
    by destruct scalar.
  - intros members Ht Hl. unfold load_config. rewrite Ht, Hl. cbn.
    eexists. split; [reflexivity|].
    split.
    + intros s. apply update_members_get, DEFAULT_CONFIG_str_keys.
    + intros k Hk. apply pydict_get_not_str; [|done].
      apply (update_members_get DEFAULT_CONFIG members ""), DEFAULT_CONFIG_str_keys.
Qed.

(** Any other exception of [json.loads] goes through [load_config]: the
    [except] clause names [JSONDecodeError] and [TypeError] only. *)
Lemma load_config_uncaught (self : KeyVisualizerApp) (e : exn) :
  qvariant_truthy (settings self) = true →
  json_loads (settings self) = Raise e →
  e ≠ JSONDecodeError → e ≠ TypeError →
  load_config json_loads self = Raise e.
Proof.
  intros Ht Hl Hj Hty. unfold load_config. rewrite Ht, Hl. by destruct e.
Qed.

(** C8. A configuration whose keys are exactly the option keys, written
    by [save_config] and read back by [load_config], is the same mapping
    again, with the keys of the defaults and no other; and when keys are
    taken out of the stored object before it is loaded, the result has
    the defaults for those keys and the saved values for the others.
    [json.dumps] and [json.loads] are assumed to give back the saved
    object. *)
Theorem save_load_round_trip (self : KeyVisualizerApp) (members : list (string * json)) :
  app_config self = dict_of_members members →
  NoDup members.*1 →
  (∀ s, s ∈ members.*1 ↔ JStr s ∈ DEFAULT_CONFIG.*1) →
  json_dumps (app_config self) ≠ "" →
  json_loads (QString (json_dumps (app_config self))) = Ret (JObj members) →
  (∃ cfg,
     load_config json_loads (save_config json_dumps self) = Ret cfg ∧
     (∀ k, pydict_get k cfg = pydict_get k (app_config self)) ∧
     cfg.*1 = DEFAULT_CONFIG.*1) ∧
  (∀ (removed : list string) (text : string),
     text ≠ "" →
     json_loads (QString text) = Ret (JObj (filter (λ kv, kv.1 ∉ removed) members)) →
     ∃ cfg,
       load_config json_loads (mkApp (QString text) (app_config self)) = Ret cfg ∧
       (∀ s, pydict_get (JStr s) cfg =
               if decide (s ∈ removed)
               then pydict_get (JStr s) DEFAULT_CONFIG
               else pydict_get (JStr s) (app_config self)) ∧
       cfg.*1 = DEFAULT_CONFIG.*1).
Proof.
  intros Hcfg Hnd Hkeys Hne Hround.
  assert (Hkeep : ∀ ms : list (string * json),
            (∀ s, s ∈ ms.*1 → JStr s ∈ DEFAULT_CONFIG.*1) →
            (foldl (λ d' kv, pydict_set (JStr kv.1) kv.2 d') DEFAULT_CONFIG ms).*1 =
              DEFAULT_CONFIG.*1).
  { induction ms as [|[s v] ms IH] using rev_ind; intros Hms; [done|].
    rewrite foldl_snoc. cbn [fst snd].
    assert (Hprev : (foldl (λ d' kv, pydict_set (JStr kv.1) kv.2 d') DEFAULT_CONFIG ms).*1
                    = DEFAULT_CONFIG.*1).
    { apply IH. intros s' Hs'. apply Hms. rewrite fmap_app.
      apply elem_of_app. by left. }
    rewrite pydict_set_keys; [done| |].
    - apply (update_members_get DEFAULT_CONFIG ms ""), DEFAULT_CONFIG_str_keys.
    - rewrite Hprev. apply Hms. rewrite fmap_app. apply elem_of_app. right.
      cbn. apply list_elem_of_singleton. done. }
  assert (Hmissing : ∀ s, dict_get s members = None →
            pydict_get (JStr s) DEFAULT_CONFIG = None).
  { intros s Hnone. apply pydict_get_none; [apply DEFAULT_CONFIG_str_keys|].
    rewrite <- Hkeys. intros Hin.
    apply list_elem_of_fmap in Hin as ([s' v] & -> & Hin).
    apply (proj2 (dict_get_nodup s' v members Hnd)) in Hin.
    cbn in Hnone. congruence. }
  split.
  - rewrite (load_config_object (save_config json_dumps self)
               (json_dumps (app_config self)) members) by done.
    eexists. split; [reflexivity|]. split.
    + intros k. rewrite Hcfg.
      assert (Hcase : (∃ s, k = JStr s) ∨ (∀ s, k ≠ JStr s)).
      { destruct k; try (right; intros; discriminate). left. eauto. }
      destruct Hcase as [[s ->]|Hk].
      * rewrite (proj2 (update_members_get DEFAULT_CONFIG members s
                          DEFAULT_CONFIG_str_keys)).
        rewrite member_value_nodup by done.
        rewrite pydict_get_dict_of_members.
        destruct (dict_get s members) eqn:Hget; [done|]. by apply Hmissing.
      * rewrite !pydict_get_not_str; try done.
        -- apply dict_of_members_str_keys.
        -- apply (update_members_get DEFAULT_CONFIG members ""),
             DEFAULT_CONFIG_str_keys.
    + apply Hkeep. intros s. apply Hkeys.
  - intros removed text Htext Hload.
    rewrite (load_config_object (mkApp (QString text) (app_config self)) text
               (filter (λ kv, kv.1 ∉ removed) members)) by done.
    eexists. split; [reflexivity|]. split.
    + intros s.
      rewrite (proj2 (update_members_get DEFAULT_CONFIG _ s DEFAULT_CONFIG_str_keys)).
      rewrite member_value_nodup by by apply filter_keys_nodup.
      rewrite dict_get_filter_keys.
      destruct (decide (s ∈ removed)); [done|].
      rewrite Hcfg, pydict_get_dict_of_members.
      destruct (dict_get s members) eqn:Hget; [done|]. by apply Hmissing.
    + apply Hkeep. intros s Hs. apply Hkeys.
      apply list_elem_of_fmap in Hs as (kv & -> & Hin).
      apply list_elem_of_filter in Hin as [_ Hin].
      apply list_elem_of_fmap. by exists kv.
Qed.

End PersistenceFacts.

(** A stored object with a key that is no option: the key is in the
    loaded configuration. *)
Lemma load_config_keeps_unknown_key :
  py_json_loads (QString themed_text) =
    Ret (JObj [("max_keys", JInt 3); ("theme", JStr "dark")]) ∧
  pydict_get (JStr "theme") DEFAULT_CONFIG = None ∧
  ∃ cfg,
    load_config py_json_loads (mkApp (QString themed_text) DEFAULT_CONFIG) = Ret cfg ∧
    pydict_get (JStr "theme") cfg = Some (JStr "dark") ∧
    JStr "theme" ∈ cfg.*1.
Proof.
  split_and!; [vm_compute; reflexivity | reflexivity |].
  eexists. split; [vm_compute; reflexivity|].
  split; [reflexivity|].
  apply list_elem_of_In. cbn. repeat (first [left; reflexivity | right]).
Qed.

(** A stored JSON string: [dict.update] raises a [ValueError] that
    [load_config] does not catch. *)
Example load_config_json_string_raises :
  py_json_loads (QString (json_encode (JStr "dark"))) = Ret (JStr "dark") ∧
  load_config py_json_loads (mkApp (QString (json_encode (JStr "dark"))) DEFAULT_CONFIG)
    = Raise ValueError.
Proof. split; vm_compute; reflexivity. Qed.

(** Stored [bytes] are parsed like a text. *)
Example load_config_parses_bytes :
  load_config py_json_loads (mkApp (QBytes themed_text) DEFAULT_CONFIG) =
  load_config py_json_loads (mkApp (QString themed_text) DEFAULT_CONFIG).
Proof. vm_compute. reflexivity. Qed.

Lemma load_config_fallback_witness :
  ∃ cfg,
    load_config py_json_loads (mkApp (QString themed_text) DEFAULT_CONFIG) = Ret cfg ∧
    pydict_get (JStr "max_keys") cfg = Some (JInt 3) ∧
    pydict_get (JStr "theme") cfg = Some (JStr "dark") ∧
    pydict_get (JStr "fade_speed") cfg = Some (JFloat (1 # 2)).
Proof.
  destruct (load_config_fallback py_json_loads (mkApp (QString themed_text) DEFAULT_CONFIG))
    as (_ & _ & _ & _ & Hobj).
  destruct (Hobj [("max_keys", JInt 3); ("theme", JStr "dark")])
    as (cfg & Hload & Hget & _).
  - vm_compute. reflexivity.
  - vm_compute. reflexivity.
  - exists cfg. split; [exact Hload|].
    split_and!; rewrite Hget; reflexivity.
Defined.

Lemma save_load_round_trip_witness :
  ∃ cfg,
    load_config py_json_loads
      (save_config json_encode_dict (mkApp QNone (dict_of_members custom_members)))
      = Ret cfg ∧
    (∀ k, pydict_get k cfg = pydict_get k (dict_of_members custom_members)) ∧
    pydict_get (JStr "max_keys") cfg = Some (JInt 5).
Proof.
  destruct (save_load_round_trip py_json_loads json_encode_dict
              (mkApp QNone (dict_of_members custom_members)) custom_members)
    as [(cfg & Hload & Hsame & _) _].
  - reflexivity.
  - compute_done.
  - intros s.
    change (DEFAULT_CONFIG.*1) with (JStr <$> custom_members.*1).
    split.
    + apply list_elem_of_fmap_2.
    + intros Hin. apply list_elem_of_fmap in Hin as (s' & [= ->] & Hin). exact Hin.
  - vm_compute. discriminate.
  - vm_compute. reflexivity.
  - exists cfg. split; [exact Hload|]. split; [exact Hsame|].
    rewrite Hsame. reflexivity.
Defined.

(** ** The key overlay: consistency of the display state *)

Lemma new_overlay_consistent (cfg : OverlayConfig) : consistent (new_overlay cfg).
Proof.
  unfold consistent, new_overlay. cbn. split_and!; try done; constructor.
Qed.

(** The empty name is the one name [add_key] does not handle, and no
    caller passes it (the labels of the listeners are never empty).  In
    a direct call with [max_keys = 1], [add_key('')] and then
    [add_key('A')] return; the second call evicts the bubble of the empty
    name from [key_bubbles], but the test [if key_to_remove:] takes the
    empty name for no name and leaves it in [active_keys]. *)
Theorem add_key_empty_name_inconsistent :
  ∃ self1 self2,
    add_key (new_overlay (mkConfig 1 (1 # 2))) "" = Ret self1 ∧
    consistent self1 ∧
    add_key self1 "A" = Ret self2 ∧
    key_bubbles self2 = [1%nat] ∧
    active_keys self2 = [("", 0%nat); ("A", 1%nat)] ∧
    ¬ consistent self2.
Proof.
  eexists _, _. split_and!.
  - reflexivity.
  - unfold consistent. cbn. split_and!.
    + done.
    + repeat constructor. apply not_elem_of_nil.
    + repeat constructor. apply not_elem_of_nil.
    + intros k Hk. by apply elem_of_empty in Hk.
  - reflexivity.
  - reflexivity.
  - reflexivity.
  - intros (Hsame & _). cbn in Hsame.
    assert (Hin : 0%nat ∈ [1%nat]) by (apply Hsame; compute_done).
    revert Hin. compute_done.
Qed.

(** *** Names that are not empty keep the display state consistent *)

Lemma dict_del_sublist {V : Type} (k : string) (d : list (string * V)) :
  dict_del k d `sublist_of` d.
Proof.
  induction d as [|[k' v] d IH]; cbn; [done|].
  case_bool_decide; [by apply sublist_cons | by apply sublist_skip].
Qed.

Lemma list_remove_first_sublist (x : nat) (l : list nat) :
  list_remove_first x l `sublist_of` l.
Proof.
  induction l as [|y l IH]; cbn; [done|].
  case_bool_decide; [by apply sublist_cons | by apply sublist_skip].
Qed.

Lemma Forall_of_sublist {A : Type} (P : A → Prop) (l k : list A) :
  l `sublist_of` k → Forall P k → Forall P l.
Proof.
  induction 1 as [|x l k Hs IH|x l k Hs IH]; intros Hk; [done| |].
  - inversion_clear Hk. constructor; [done|by apply IH].
  - inversion_clear Hk. by apply IH.
Qed.

Lemma list_remove_first_elem (x b : nat) (l : list nat) :
  NoDup l → b ∈ list_remove_first x l ↔ b ∈ l ∧ b ≠ x.
Proof.
  induction l as [|y l IH]; intros Hnd; cbn.
  - rewrite elem_of_nil. tauto.
  - apply list.NoDup_cons in Hnd as [Hy Hnd]. case_bool_decide as Hx.
    + subst y. rewrite elem_of_cons. split.
      * intros Hb. split; [by right|]. by intros ->.
      * intros [[->|Hb] Hne]; done.
    + rewrite !elem_of_cons, IH by done. split.
      * intros [->|[Hb Hne]]; [split; [by left|done] | split; [by right|done]].
      * intros [[->|Hb] Hne]; [by left | by right].
Qed.

Lemma values_unique {V : Type} (d : list (string * V)) (k1 k2 : string) (v : V) :
  NoDup d.*2 → (k1, v) ∈ d → (k2, v) ∈ d → k1 = k2.
Proof.
  induction d as [|[k' v'] d IH]; intros Hnd H1 H2; [by apply elem_of_nil in H1|].
  cbn in Hnd. apply list.NoDup_cons in Hnd as [Hv Hnd].
  apply elem_of_cons in H1 as [E1|H1]; apply elem_of_cons in H2 as [E2|H2].
  - congruence.
  - injection E1 as -> ->. exfalso. apply Hv.
    apply list_elem_of_fmap. by exists (k2, v').
  - injection E2 as -> ->. exfalso. apply Hv.
    apply list_elem_of_fmap. by exists (k1, v').
  - by apply IH.
Qed.

Lemma dict_get_some_key {V : Type} (k : string) (d : list (string * V)) :
  is_Some (dict_get k d) ↔ k ∈ d.*1.
Proof.
  induction d as [|[k' v] d IH]; cbn.
  - rewrite elem_of_nil. split; [by intros [? ?]|done].
  - rewrite elem_of_cons. case_bool_decide as Hk.
    + subst k'. split; eauto.
    + rewrite IH. split; [by right|]. intros [->|Hin]; done.
Qed.

Lemma key_of_bubble_found (b : nat) (active : list (string * nat)) :
  b ∈ active.*2 → ∃ k, key_of_bubble b active = Some k.
Proof.
  intros Hin. apply list_elem_of_fmap in Hin as ([k b'] & -> & Hin).
  unfold key_of_bubble.
  destruct (List.find _ active) as [[k' b'']|] eqn:Hf; [cbn; eauto|].
  exfalso. apply list_elem_of_In in Hin.
  apply (List.find_none _ _ Hf) in Hin. cbn in Hin.
  by rewrite bool_decide_eq_true_2 in Hin.
Qed.

(** Taking one shown entry out of the three containers. *)
Lemma display_inv_remove (bubbles : list nat) (active : list (string * nat))
    (timers : gset string) (k : string) (b : nat) :
  display_inv bubbles active timers → (k, b) ∈ active →
  display_inv (list_remove_first b bubbles) (dict_del k active) (timers ∖ {[ k ]}).
Proof.
  intros (Hsame & Hvals & Hbub & Htim & Hkeys & Hnames) Hin.
  unfold display_inv. split_and!.
  - intros b'. rewrite list_remove_first_elem by done. rewrite <- Hsame.
    split.
    + intros Hb'. apply list_elem_of_fmap in Hb' as ([k' b''] & -> & Hb').
      apply elem_of_dict_del in Hb' as [Hb' Hne]. cbn. split.
      * apply list_elem_of_fmap. by exists (k', b'').
      * intros ->. apply Hne. by eapply values_unique.
    + intros [Hb' Hne]. apply list_elem_of_fmap in Hb' as ([k' b''] & -> & Hb').
      cbn in *. apply list_elem_of_fmap. exists (k', b''). split; [done|].
      apply elem_of_dict_del. split; [done|]. intros ->.
      apply Hne. apply (proj2 (dict_get_nodup k b'' active Hkeys)) in Hb'.
      apply (proj2 (dict_get_nodup k b active Hkeys)) in Hin. congruence.
  - apply (sublist_NoDup _ active.*2); [done|]. apply fmap_sublist, dict_del_sublist.
  - apply (sublist_NoDup _ bubbles); [done|]. apply list_remove_first_sublist.
  - intros k' Hk'. apply elem_of_difference in Hk' as [Hk' Hne].
    rewrite elem_of_singleton in Hne. rewrite dict_get_del_ne by done. by apply Htim.
  - apply (sublist_NoDup _ active.*1); [done|]. apply fmap_sublist, dict_del_sublist.
  - intros k' b' Hb'. apply elem_of_dict_del in Hb' as [Hb' _]. by eapply Hnames.
Qed.

(** The eviction loop keeps the invariant and only drops bubbles. *)
Lemma limit_visible_keys_inv (max : Z) (bubbles : list nat)
    (active : list (string * nat)) (timers : gset string)
    (bubbles' : list nat) (active' : list (string * nat)) (timers' : gset string) :
  display_inv bubbles active timers →
  limit_visible_keys max bubbles active timers = Ret (bubbles', active', timers') →
  display_inv bubbles' active' timers' ∧ bubbles' `sublist_of` bubbles.
Proof.
  revert active timers. induction bubbles as [|old bubbles IH];
    intros active timers Hinv; cbn [limit_visible_keys].
  - destruct (Z.of_nat (length (@nil nat)) >? max); [done|].
    by intros [= <- <- <-].
  - destruct (Z.of_nat (length (old :: bubbles)) >? max);
      [|by intros [= <- <- <-]].
    pose proof Hinv as (Hsame & _ & _ & _ & _ & Hnames).
    destruct (key_of_bubble_found old active) as [k Hk].
    { apply Hsame. apply elem_of_cons. by left. }
    rewrite Hk. apply key_of_bubble_elem in Hk.
    assert (Htruthy : str_truthy k = true).
    { apply str_truthy_nonempty. by eapply Hnames. }
    rewrite Htruthy. intros Hrun.
    pose proof (display_inv_remove _ _ _ k old Hinv Hk) as Hinv'.
    cbn [list_remove_first] in Hinv'. rewrite bool_decide_eq_true_2 in Hinv' by done.
    destruct (IH _ _ Hinv' Hrun) as [Hres Hsub].
    split; [done|]. by apply sublist_cons.
Qed.

Lemma display_inv_fewer_timers (bubbles : list nat) (active : list (string * nat))
    (timers timers' : gset string) :
  display_inv bubbles active timers → timers' ⊆ timers →
  display_inv bubbles active timers'.
Proof.
  intros (Hsame & Hvals & Hbub & Htim & Hkeys & Hnames) Hsub.
  unfold display_inv. split_and!; try done.
  intros k Hk. apply Htim. by apply Hsub.
Qed.

Lemma display_inv_append (bubbles : list nat) (active : list (string * nat))
    (timers : gset string) (k : string) (b : nat) :
  display_inv bubbles active timers →
  k ≠ "" → dict_get k active = None → b ∉ bubbles →
  display_inv (bubbles ++ [b]) (dict_set k b active) timers.
Proof.
  intros (Hsame & Hvals & Hbub & Htim & Hkeys & Hnames) Hk Hnew Hfresh.
  rewrite dict_set_absent by done.
  assert (Hknew : k ∉ active.*1).
  { rewrite <- dict_get_some_key, Hnew. by intros [? ?]. }
  unfold display_inv. rewrite !fmap_app. cbn [fmap list_fmap fst snd].
  split_and!.
  - intros b'. rewrite !elem_of_app, Hsame. done.
  - apply list.NoDup_app. split_and!; [done| |apply list.NoDup_singleton].
    intros b' Hb' Hin. apply list_elem_of_singleton in Hin as ->.
    by apply Hsame in Hb'.
  - apply list.NoDup_app. split_and!; [done| |apply list.NoDup_singleton].
    intros b' Hb' Hin. by apply list_elem_of_singleton in Hin as ->.
  - intros k' Hk'. apply dict_get_some_key. rewrite fmap_app.
    apply elem_of_app. left. apply dict_get_some_key. by apply Htim.
  - apply list.NoDup_app. split_and!; [done| |apply list.NoDup_singleton].
    intros k' Hk' Hin. by apply list_elem_of_singleton in Hin as ->.
  - intros k' b' Hin. apply elem_of_app in Hin as [Hin|Hin]; [by eapply Hnames|].
    by apply list_elem_of_singleton in Hin as [= -> ->].
Qed.

Lemma add_key_inv (self self' : KeyOverlay) (key_name : string) :
  overlay_inv self → key_name ≠ "" →
  add_key self key_name = Ret self' → overlay_inv self'.
Proof.
  intros [Hinv Hnum] Hname. unfold add_key.
  destruct (dict_get key_name (active_keys self)) as [bubble|] eqn:Hget.
  - intros [= <-]. split; [|done]. cbn.
    eapply display_inv_fewer_timers; [exact Hinv|].
    intros k Hk. by apply elem_of_difference in Hk as [? _].
  - destruct (limit_visible_keys _ _ _ _) as [[[bubbles active] timers]|e] eqn:Hrun;
      [|done].
    cbn. intros [= <-].
    assert (Hfresh : next_bubble self ∉ key_bubbles self).
    { intros Hin. unfold bubbles_numbered in Hnum.
      rewrite List.Forall_forall in Hnum.
      apply list_elem_of_In, Hnum in Hin. lia. }
    apply limit_visible_keys_inv in Hrun as [Hinv' Hsub];
      [|by apply display_inv_append].
    split; [done|]. unfold bubbles_numbered. cbn.
    apply (Forall_of_sublist _ _ _ Hsub). apply Forall_app. split.
    + eapply List.Forall_impl; [|exact Hnum]. cbn. lia.
    + repeat constructor.
Qed.

Lemma start_fade_inv (self : KeyOverlay) (key_name : string) :
  overlay_inv self → overlay_inv (_start_fade self key_name).
Proof.
  intros [Hinv Hnum]. unfold _start_fade.
  destruct (dict_mem key_name (active_keys self)) eqn:Hmem; [|done].
  split; [|done]. cbn.
  destruct Hinv as (Hsame & Hvals & Hbub & Htim & Hkeys & Hnames).
  unfold display_inv. split_and!; try done.
  intros k Hk. apply elem_of_union in Hk as [Hk|Hk]; [|by apply Htim].
  apply elem_of_singleton in Hk as ->. by apply dict_mem_true.
Qed.

Lemma release_key_inv (self : KeyOverlay) (key_name : string) :
  overlay_inv self → overlay_inv (release_key self key_name).
Proof.
  intros Hinv. unfold release_key.
  destruct (combo_key_map self !! key_name) as [combo|]; [|by apply start_fade_inv].
  apply (start_fade_inv self combo) in Hinv. done.
Qed.

Lemma remove_modifier_bubble_inv (self : KeyOverlay) (part : string) :
  overlay_inv self → overlay_inv (remove_modifier_bubble self part).
Proof.
  intros [Hinv Hnum]. unfold remove_modifier_bubble.
  destruct (dict_get part (active_keys self)) as [bubble|] eqn:Hget; [|done].
  split; cbn.
  - apply display_inv_remove; [done|]. by apply dict_get_elem.
  - unfold bubbles_numbered in *. cbn.
    apply (Forall_of_sublist _ _ _ (list_remove_first_sublist bubble _)). done.
Qed.

Lemma show_combo_inv (self self' : KeyOverlay) (combo : string) :
  overlay_inv self → combo ≠ "" →
  show_combo self combo = Ret self' → overlay_inv self'.
Proof.
  intros Hinv Hname. unfold show_combo.
  assert (Hparts : ∀ parts s, overlay_inv s →
            overlay_inv (foldl remove_modifier_bubble s parts)).
  { induction parts as [|part parts IH]; intros s Hs; [done|].
    cbn. by apply IH, remove_modifier_bubble_inv. }
  apply add_key_inv; [|done].
  by apply (Hparts (removelast (str_split "+" combo))) in Hinv.
Qed.

Lemma fade_key_inv (self self' : KeyOverlay) (key_name : string) :
  overlay_inv self → fade_key self key_name = Ret self' → overlay_inv self'.
Proof.
  intros [Hinv Hnum]. unfold fade_key.
  destruct (dict_get key_name (active_keys self)) as [bubble|] eqn:Hget.
  - destruct (Qle_bool _ 0).
    + case_bool_decide; [|done]. intros [= <-]. split; cbn.
      * apply display_inv_remove; [done|]. by apply dict_get_elem.
      * unfold bubbles_numbered in *. cbn.
        apply (Forall_of_sublist _ _ _ (list_remove_first_sublist bubble _)). done.
    + by intros [= <-].
  - intros [= <-]. split; [|done]. cbn.
    eapply display_inv_fewer_timers; [exact Hinv|].
    intros k Hk. by apply elem_of_difference in Hk as [? _].
Qed.

(** The same for a tick in float arithmetic, whatever the rounding. *)
Lemma fade_key_rounded_inv (rnd : Q → Q) (self self' : KeyOverlay) (key_name : string) :
  overlay_inv self → fade_key_rounded rnd self key_name = Ret self' → overlay_inv self'.
Proof.
  intros [Hinv Hnum]. unfold fade_key_rounded.
  destruct (dict_get key_name (active_keys self)) as [bubble|] eqn:Hget.
  - destruct (Qle_bool _ 0).
    + case_bool_decide; [|done]. intros [= <-]. split; cbn.
      * apply display_inv_remove; [done|]. by apply dict_get_elem.
      * unfold bubbles_numbered in *. cbn.
        apply (Forall_of_sublist _ _ _ (list_remove_first_sublist bubble _)). done.
    + by intros [= <-].
  - intros [= <-]. split; [|done]. cbn.
    eapply display_inv_fewer_timers; [exact Hinv|].
    intros k Hk. by apply elem_of_difference in Hk as [? _].
Qed.

Lemma update_config_inv (self : KeyOverlay) (cfg : OverlayConfig) :
  overlay_inv (update_config self cfg).
Proof.
  split; [|by constructor]. unfold display_inv. cbn.
  split_and!.
  - done.
  - constructor.
  - constructor.
  - intros k Hk. by apply elem_of_empty in Hk.
  - constructor.
  - intros k b Hin. by apply elem_of_nil in Hin.
Qed.

Lemma overlay_inv_consistent (self : KeyOverlay) :
  overlay_inv self → consistent self.
Proof.
  intros [(Hsame & Hvals & Hbub & Htim & _) _]. by split_and!.
Qed.

(** C10.  [overlay_inv] is the invariant of the display state: it holds
    for a new overlay ([new_overlay_inv]), it makes the state consistent
    (the bubbles of [active_keys] are exactly the elements of
    [key_bubbles], each once, and every name with a fade timer is in
    [active_keys]), and every operation of the overlay keeps it, so the
    state is consistent after every operation: [add_key] and [show_combo]
    with the labels the listeners emit, which are never empty
    ([key_name <> ""]), [release_key] and [_start_fade], a tick of
    [fade_key] in exact or in float arithmetic, and [update_config].
    The operations return: [add_key] when [max_keys] is not negative,
    [fade_key] at the timeout of a running timer. *)
Theorem nonempty_names_keep_consistency (self : KeyOverlay) :
  overlay_inv self →
  consistent self ∧
  (∀ key_name self', key_name ≠ "" →
     add_key self key_name = Ret self' → overlay_inv self' ∧ consistent self') ∧
  (∀ key_name, 0 ≤ max_keys (config self) → ∃ self', add_key self key_name = Ret self') ∧
  (∀ key_name,
     overlay_inv (release_key self key_name) ∧ consistent (release_key self key_name)) ∧
  (∀ key_name,
     overlay_inv (_start_fade self key_name) ∧ consistent (_start_fade self key_name)) ∧
  (∀ combo self', combo ≠ "" →
     show_combo self combo = Ret self' → overlay_inv self' ∧ consistent self') ∧
  (∀ key_name self',
     fade_key self key_name = Ret self' → overlay_inv self' ∧ consistent self') ∧
  (∀ rnd key_name self',
     fade_key_rounded rnd self key_name = Ret self' →
     overlay_inv self' ∧ consistent self') ∧
  (∀ key_name, key_name ∈ fade_timers self → ∃ self', fade_key self key_name = Ret self') ∧
  (∀ cfg,
     overlay_inv (update_config self cfg) ∧ consistent (update_config self cfg)).
Proof.
  intros Hinv.
  assert (Hboth : ∀ s, overlay_inv s → overlay_inv s ∧ consistent s).
  { intros s Hs. split; [done|]. by apply overlay_inv_consistent. }
  split_and!.
  - by apply overlay_inv_consistent.
  - intros key_name self' Hname Hadd. apply Hboth. by eapply add_key_inv.
  - intros key_name Hmax. unfold add_key.
    destruct (dict_get key_name (active_keys self)); [eauto|].
    destruct (limit_visible_keys_bubbles (max_keys (config self))
                (key_bubbles self ++ [next_bubble self])
                (dict_set key_name (next_bubble self) (active_keys self))
                (fade_timers self) Hmax) as (active' & timers' & ->).
    cbn. eauto.
  - intros key_name. apply Hboth. by apply release_key_inv.
  - intros key_name. apply Hboth. by apply start_fade_inv.
  - intros combo self' Hname Hshow. apply Hboth. by eapply show_combo_inv.
  - intros key_name self' Hfade. apply Hboth. by eapply fade_key_inv.
  - intros rnd key_name self' Hfade. apply Hboth. by eapply fade_key_rounded_inv.
  - intros key_name Htimer. unfold fade_key.
    destruct (dict_get key_name (active_keys self)); [|eauto].
    destruct (Qle_bool _ 0); [|eauto].
    rewrite bool_decide_eq_true_2 by done. eauto.
  - intros cfg. apply Hboth. apply update_config_inv.
Qed.

Lemma new_overlay_inv (cfg : OverlayConfig) : overlay_inv (new_overlay cfg).
Proof. apply (update_config_inv (new_overlay cfg) cfg). Qed.

Lemma nonempty_names_keep_consistency_witness :
  overlay_inv (new_overlay default_overlay_config) ∧
  ∃ pressed,
    add_key (new_overlay default_overlay_config) "A" = Ret pressed ∧
    consistent pressed ∧
    consistent (release_key (new_overlay default_overlay_config) "A").
Proof.
  split; [apply new_overlay_inv|].
  destruct (nonempty_names_keep_consistency (new_overlay default_overlay_config)
              (new_overlay_inv default_overlay_config))
    as (_ & Hadd & _ & Hrel & _).
  eexists. split; [reflexivity|]. split.
  - apply (Hadd "A"); [discriminate|reflexivity].
  - apply Hrel.
Defined.

(** *** Opacities of the shown entries *)

(** The names the eviction loop leaves have the bubble and the timer they
    had. *)
Lemma limit_visible_keys_kept (max : Z) (bubbles : list nat)
    (active : list (string * nat)) (timers : gset string)
    (bubbles' : list nat) (active' : list (string * nat)) (timers' : gset string) :
  limit_visible_keys max bubbles active timers = Ret (bubbles', active', timers') →
  ∀ k b, dict_get k active' = Some b →
    dict_get k active = Some b ∧ (k ∈ timers' ↔ k ∈ timers).
Proof.
  revert active timers. induction bubbles as [|old bubbles IH];
    intros active timers; cbn [limit_visible_keys].
  - destruct (Z.of_nat (length (@nil nat)) >? max); [done|].
    by intros [= <- <- <-].
  - destruct (Z.of_nat (length (old :: bubbles)) >? max);
      [|by intros [= <- <- <-]].
    destruct (key_of_bubble old active) as [k0|]; [destruct (str_truthy k0)|];
      intros Hrun k b Hget; try by apply (IH _ _ Hrun).
    apply (IH _ _ Hrun) in Hget as [Hget Htim].
    assert (Hne : k ≠ k0).
    { intros ->. by rewrite dict_get_del_eq in Hget. }
    rewrite dict_get_del_ne in Hget by done. split; [done|].
    rewrite Htim, elem_of_difference, elem_of_singleton. tauto.
Qed.

Lemma shown_bubble_numbered (self : KeyOverlay) (k : string) (b : nat) :
  overlay_inv self → dict_get k (active_keys self) = Some b →
  (b < next_bubble self)%nat.
Proof.
  intros [(Hsame & _) Hnum] Hget. unfold bubbles_numbered in Hnum.
  rewrite List.Forall_forall in Hnum. apply Hnum, list_elem_of_In, Hsame.
  apply list_elem_of_fmap. exists (k, b). split; [done|]. by apply dict_get_elem.
Qed.

Lemma add_key_opacity (self self' : KeyOverlay) (key_name : string) :
  overlay_inv self → opacity_inv self →
  add_key self key_name = Ret self' → opacity_inv self'.
Proof.
  intros Hinv Hop. unfold add_key.
  destruct (dict_get key_name (active_keys self)) as [bubble|] eqn:Hget.
  - intros [= <-] k b Hk. cbn in *.
    destruct (decide (b = bubble)) as [->|Hb].
    + rewrite fn_lookup_insert. cbn. split_and!; [lra|lra|done].
    + rewrite fn_lookup_insert_ne by done.
      destruct (Hop k b Hk) as (H0 & H1 & Hfull). split_and!; [done|done|].
      intros Hnt. apply Hfull. intros Hin. apply Hnt.
      apply elem_of_difference. split; [done|].
      rewrite elem_of_singleton. intros ->. congruence.
  - destruct (limit_visible_keys _ _ _ _) as [[[bubbles active] timers]|e] eqn:Hrun;
      [|done].
    cbn. intros [= <-] k b Hk. cbn in *.
    destruct (limit_visible_keys_kept _ _ _ _ _ _ _ Hrun k b Hk) as [Hk' Htim].
    destruct (decide (k = key_name)) as [->|Hne].
    + rewrite dict_get_set_eq in Hk'. injection Hk' as <-.
      rewrite fn_lookup_insert. cbn. split_and!; [lra|lra|done].
    + rewrite dict_get_set_ne in Hk' by done.
      pose proof (shown_bubble_numbered self k b Hinv Hk') as Hlt.
      rewrite fn_lookup_insert_ne by lia.
      destruct (Hop k b Hk') as (H0 & H1 & Hfull). split_and!; [done|done|].
      intros Hnt. apply Hfull. by rewrite <- Htim.
Qed.

Lemma start_fade_opacity (self : KeyOverlay) (key_name : string) :
  opacity_inv self → opacity_inv (_start_fade self key_name).
Proof.
  intros Hop. unfold _start_fade.
  destruct (dict_mem key_name (active_keys self)); [|done].
  intros k b Hk. cbn in *. destruct (Hop k b Hk) as (H0 & H1 & Hfull).
  split_and!; [done|done|]. intros Hnt. apply Hfull. intros Hin. apply Hnt.
  apply elem_of_union. by right.
Qed.

Lemma release_key_opacity (self : KeyOverlay) (key_name : string) :
  opacity_inv self → opacity_inv (release_key self key_name).
Proof.
  intros Hop. unfold release_key.
  destruct (combo_key_map self !! key_name) as [combo|]; [|by apply start_fade_opacity].
  apply (start_fade_opacity self combo) in Hop. done.
Qed.

(** Entries that stay when one entry is deleted. *)
Lemma opacity_inv_remove (self : KeyOverlay) (k0 : string)
    (bubbles : list nat) (cmap : gmap string string) :
  opacity_inv self →
  opacity_inv (mkOverlay (config self) (heap self) (next_bubble self) bubbles
                 (fade_timers self ∖ {[ k0 ]}) (dict_del k0 (active_keys self)) cmap).
Proof.
  intros Hop k b Hk. cbn in *.
  assert (Hne : k ≠ k0).
  { intros ->. by rewrite dict_get_del_eq in Hk. }
  rewrite dict_get_del_ne in Hk by done.
  destruct (Hop k b Hk) as (H0 & H1 & Hfull). split_and!; [done|done|].
  intros Hnt. apply Hfull. intros Hin. apply Hnt.
  apply elem_of_difference. split; [done|]. by rewrite elem_of_singleton.
Qed.

Lemma remove_modifier_bubble_opacity (self : KeyOverlay) (part : string) :
  opacity_inv self → opacity_inv (remove_modifier_bubble self part).
Proof.
  intros Hop. unfold remove_modifier_bubble.
  destruct (dict_get part (active_keys self)) as [bubble|]; [|done].
  by apply opacity_inv_remove.
Qed.

Lemma show_combo_opacity (self self' : KeyOverlay) (combo : string) :
  overlay_inv self → opacity_inv self →
  show_combo self combo = Ret self' → opacity_inv self'.
Proof.
  intros Hinv Hop. unfold show_combo.
  assert (Hparts : ∀ parts s, overlay_inv s → opacity_inv s →
            overlay_inv (foldl remove_modifier_bubble s parts) ∧
            opacity_inv (foldl remove_modifier_bubble s parts)).
  { induction parts as [|part parts IH]; intros s Hs Hos; [done|].
    cbn. apply IH; [by apply remove_modifier_bubble_inv |
                    by apply remove_modifier_bubble_opacity]. }
  destruct (Hparts (removelast (str_split "+" combo)) self Hinv Hop) as [Hinv1 Hop1].
  apply add_key_opacity; [exact Hinv1 | exact Hop1].
Qed.

Lemma fade_key_opacity (self self' : KeyOverlay) (key_name : string) :
  overlay_inv self → opacity_inv self →
  (0 <= fade_speed (config self))%Q →
  key_name ∈ fade_timers self →
  fade_key self key_name = Ret self' → opacity_inv self'.
Proof.
  intros Hinv Hop Hspeed Htimer. unfold fade_key.
  destruct (dict_get key_name (active_keys self)) as [bubble|] eqn:Hget.
  - destruct (Qle_bool _ 0) eqn:Hle.
    + rewrite bool_decide_eq_true_2 by done. intros [= <-] k b Hk. cbn in *.
      assert (Hne : k ≠ key_name).
      { intros ->. by rewrite dict_get_del_eq in Hk. }
      rewrite dict_get_del_ne in Hk by done.
      assert (Hb : b ≠ bubble).
      { intros ->. apply Hne.
        destruct Hinv as [(_ & Hvals & _) _].
        eapply values_unique; [exact Hvals| |]; by apply dict_get_elem. }
      rewrite fn_lookup_insert_ne by done.
      destruct (Hop k b Hk) as (H0 & H1 & Hfull). split_and!; [done|done|].
      intros Hnt. apply Hfull. intros Hin. apply Hnt.
      apply elem_of_difference. split; [done|]. by rewrite elem_of_singleton.
    + intros [= <-] k b Hk. cbn in *.
      destruct (decide (b = bubble)) as [->|Hb].
      * assert (k = key_name) as ->.
        { destruct Hinv as [(_ & Hvals & _) _].
          eapply values_unique; [exact Hvals| |]; by apply dict_get_elem. }
        rewrite fn_lookup_insert. cbn.
        destruct (Hop key_name bubble Hk) as (H0 & H1 & _).
        assert (Hd : (0 <= fade_per_tick (config self))%Q).
        { rewrite fade_per_tick_twentieth. apply Qle_shift_div_l; lra. }
        assert (Hpos : ¬ (opacity (heap self bubble) - fade_per_tick (config self) <= 0)%Q).
        { intros Hneg. apply Qle_bool_iff in Hneg. congruence. }
        split_and!; [lra|lra|done].
      * rewrite fn_lookup_insert_ne by done. by apply Hop.
  - intros [= <-] k b Hk. cbn in *.
    destruct (Hop k b Hk) as (H0 & H1 & Hfull). split_and!; [done|done|].
    intros Hnt. apply Hfull. intros Hin. apply Hnt.
    apply elem_of_difference. split; [done|].
    rewrite elem_of_singleton. intros ->. congruence.
Qed.

Lemma add_key_config (self self' : KeyOverlay) (key_name : string) :
  add_key self key_name = Ret self' → config self' = config self.
Proof.
  unfold add_key. destruct (dict_get key_name (active_keys self)).
  - by intros [= <-].
  - destruct (limit_visible_keys _ _ _ _) as [[[? ?] ?]|]; [|done].
    by intros [= <-].
Qed.

Lemma fade_key_config (self self' : KeyOverlay) (key_name : string) :
  fade_key self key_name = Ret self' → config self' = config self.
Proof.
  unfold fade_key. destruct (dict_get key_name (active_keys self)).
  - destruct (Qle_bool _ 0); [case_bool_decide; [|done]|]; by intros [= <-].
  - by intros [= <-].
Qed.

Lemma release_key_config (self : KeyOverlay) (key_name : string) :
  config (release_key self key_name) = config self.
Proof.
  unfold release_key, _start_fade.
  destruct (combo_key_map self !! key_name) as [combo|];
    [destruct (dict_mem combo _) | destruct (dict_mem key_name _)]; done.
Qed.

Lemma overlay_step_inv (self self' : KeyOverlay) :
  overlay_step self self' →
  overlay_inv self ∧ opacity_inv self ∧ (0 <= fade_speed (config self))%Q →
  overlay_inv self' ∧ opacity_inv self' ∧ (0 <= fade_speed (config self'))%Q.
Proof.
  intros Hstep (Hinv & Hop & Hspeed).
  destruct Hstep as [k s' Hk Hadd|k|c s' Hc Hshow|k s' Htimer Hfade|cfg' Hcfg'].
  - split_and!; [by eapply add_key_inv | by eapply add_key_opacity |].
    by rewrite (add_key_config _ _ _ Hadd).
  - split_and!; [by apply release_key_inv | by apply release_key_opacity |].
    by rewrite release_key_config.
  - split_and!; [by eapply show_combo_inv | by eapply show_combo_opacity |].
    unfold show_combo in Hshow. rewrite (add_key_config _ _ _ Hshow). cbn.
    by rewrite (proj2 (remove_modifier_bubbles_numbered self _ (proj2 Hinv))).
  - split_and!; [by eapply fade_key_inv | by eapply fade_key_opacity |].
    by rewrite (fade_key_config _ _ _ Hfade).
  - split_and!; [apply update_config_inv| |done]. intros k b Hk. done.
Qed.

(** X1. In every state the application can reach from a new overlay with a
    fade speed that is not negative, the display state is consistent,
    every shown entry has an opacity in (0, 1], and an entry without a
    running fade timer has opacity 1.0: a fade always starts from 1.0. *)
Theorem reachable_overlay_inv (cfg : OverlayConfig) (self : KeyOverlay) :
  (0 <= fade_speed cfg)%Q →
  rtc overlay_step (new_overlay cfg) self →
  consistent self ∧ overlay_inv self ∧ opacity_inv self ∧
  (0 <= fade_speed (config self))%Q.
Proof.
  intros Hcfg Hreach.
  assert (Hall : overlay_inv self ∧ opacity_inv self ∧
                 (0 <= fade_speed (config self))%Q).
  { revert self Hreach. apply rtc_ind_r.
    - split_and!; [apply new_overlay_inv| |done]. intros k b Hk. done.
    - intros s2 s3 _ Hstep IH. by apply (overlay_step_inv s2 s3). }
  split; [|done]. apply overlay_inv_consistent, Hall.
Qed.

(** * Further properties of the key overlay *)

Lemma reachable_overlay_inv_witness :
  ∃ pressed,
    add_key (new_overlay default_overlay_config) "A" = Ret pressed ∧
    consistent (release_key pressed "A") ∧
    opacity_inv (release_key pressed "A").
Proof.
  eexists. split; [reflexivity|].
  match goal with |- consistent ?s ∧ _ =>
    destruct (reachable_overlay_inv default_overlay_config s) as (Hc & _ & Ho & _)
  end.
  - cbn. discriminate.
  - eapply rtc_l; [apply (step_add_key _ "A"); [done|reflexivity]|].
    eapply rtc_l; [apply (step_release_key _ "A")|]. apply rtc_refl.
  - split; [exact Hc | exact Ho].
Defined.

(** ** Errors of [add_key] *)

Lemma limit_visible_keys_negative (max : Z) (bubbles : list nat)
    (active : list (string * nat)) (timers : gset string) :
  max < 0 → limit_visible_keys max bubbles active timers = Raise IndexError.
Proof.
  intros Hmax. revert active timers.
  induction bubbles as [|old bubbles IH]; intros active timers;
    cbn [limit_visible_keys].
  - destruct (Z.gtb_spec (Z.of_nat (length (@nil nat))) max); [done|cbn in *; lia].
  - destruct (Z.gtb_spec (Z.of_nat (length (old :: bubbles))) max); [|lia].
    destruct (key_of_bubble old active) as [k|]; [destruct (str_truthy k)|];
      apply IH.
Qed.

(** X2. With an integer [max_keys], [add_key] raises [IndexError] exactly
    when the name is new and [max_keys] is negative: the loop then
    empties [key_bubbles] and calls [pop(0)] on the empty list. *)
Theorem add_key_index_error_iff (self : KeyOverlay) (key_name : string) :
  add_key self key_name = Raise IndexError ↔
    max_keys (config self) < 0 ∧ dict_get key_name (active_keys self) = None.
Proof.
  unfold add_key.
  destruct (dict_get key_name (active_keys self)) as [bubble|] eqn:Hget.
  - split; [done|]. by intros [_ ?].
  - destruct (Z.lt_ge_cases (max_keys (config self)) 0) as [Hneg|Hpos].
    + rewrite limit_visible_keys_negative by done. cbn. done.
    + destruct (limit_visible_keys_bubbles (max_keys (config self))
                  (key_bubbles self ++ [next_bubble self])
                  (dict_set key_name (next_bubble self) (active_keys self))
                  (fade_timers self) Hpos) as (active' & timers' & ->).
      cbn. split; [done|]. intros [? _]. lia.
Qed.

(** X3. With [max_keys = 0] a press of a new name shows nothing: the new
    bubble is evicted in the same call, together with every bubble that
    was shown. *)
Theorem add_key_zero_limit (self : KeyOverlay) (key_name : string) :
  overlay_inv self → max_keys (config self) = 0 → key_name ≠ "" →
  dict_get key_name (active_keys self) = None →
  ∃ self',
    add_key self key_name = Ret self' ∧
    key_bubbles self' = [] ∧ active_keys self' = [] ∧ fade_timers self' = ∅.
Proof.
  intros Hinv Hmax Hname Hnew.
  assert (Hret : ∃ self', add_key self key_name = Ret self' ∧ key_bubbles self' = []).
  { unfold add_key. rewrite Hnew.
    destruct (limit_visible_keys_bubbles (max_keys (config self))
                (key_bubbles self ++ [next_bubble self])
                (dict_set key_name (next_bubble self) (active_keys self))
                (fade_timers self)) as (active' & timers' & ->); [lia|].
    cbn. eexists. split; [reflexivity|]. cbn.
    rewrite Hmax. cbn. rewrite Nat.sub_0_r. apply drop_all. }
  destruct Hret as (self' & Hadd & Hbub). exists self'.
  destruct (add_key_inv self self' key_name Hinv Hname Hadd)
    as [(Hsame & _ & _ & Htim & _) _].
  assert (Hact : active_keys self' = []).
  { destruct (active_keys self') as [|[k b] rest]; [done|]. exfalso.
    assert (Hin : b ∈ key_bubbles self') by (apply Hsame; cbn; apply elem_of_cons; by left).
    rewrite Hbub in Hin. by apply elem_of_nil in Hin. }
  split_and!; [done|done|done|].
  apply set_eq. intros k. split; [|by intros ?%elem_of_empty].
  intros Hk. apply Htim in Hk. rewrite Hact in Hk. by destruct Hk.
Qed.

Lemma add_key_zero_limit_witness :
  ∃ self',
    add_key (new_overlay (mkConfig 0 (1 # 2))) "A" = Ret self' ∧
    key_bubbles self' = [] ∧ active_keys self' = [] ∧ fade_timers self' = ∅.
Proof.
  apply (add_key_zero_limit (new_overlay (mkConfig 0 (1 # 2))) "A").
  - apply new_overlay_inv.
  - reflexivity.
  - discriminate.
  - reflexivity.
Defined.

(** ** [show_combo] and the bubbles of the modifiers *)

Lemma str_split_no_separator_in (sep : Ascii.ascii) (s : string) :
  str_mem sep s = false → str_split sep s = [s].
Proof.
  induction s as [|c s IH]; [done|]. cbn.
  destruct (Ascii.eqb c sep); [done|]. cbn. intros Hs. by rewrite IH.
Qed.

Lemma str_split_nonempty (sep : Ascii.ascii) (s : string) :
  str_split sep s ≠ [].
Proof.
  destruct s as [|c s]; [done|]. cbn.
  destruct (Ascii.eqb c sep); [done|]. by destruct (str_split sep s).
Qed.

Lemma str_split_parts_clean (sep : Ascii.ascii) (s part : string) :
  part ∈ str_split sep s → str_mem sep part = false.
Proof.
  revert part. induction s as [|c s IH]; intros part; cbn.
  - intros Hin. by apply list_elem_of_singleton in Hin as ->.
  - destruct (Ascii.eqb c sep) eqn:Hc.
    + intros Hin. apply elem_of_cons in Hin as [->|Hin]; [done|by apply IH].
    + pose proof (str_split_nonempty sep s) as Hne.
      destruct (str_split sep s) as [|p ps]; [done|].
      intros Hin. apply elem_of_cons in Hin as [->|Hin].
      * cbn. rewrite Hc. cbn. apply IH. apply elem_of_cons. by left.
      * apply IH. apply elem_of_cons. by right.
Qed.

Lemma removelast_elem {A : Type} (x : A) (l : list A) :
  x ∈ removelast l → x ∈ l.
Proof.
  induction l as [|y l IH]; [done|]. destruct l as [|z l].
  - cbn. by intros ?%elem_of_nil.
  - rewrite removelast_cons_cons. intros Hin.
    apply elem_of_cons in Hin as [->|Hin]; [by left|right; by apply IH].
Qed.

Lemma remove_modifier_bubbles_gone (parts : list string) (self : KeyOverlay)
    (part : string) :
  part ∈ parts ∨ dict_get part (active_keys self) = None →
  dict_get part (active_keys (foldl remove_modifier_bubble self parts)) = None.
Proof.
  revert self. induction parts as [|p parts IH]; intros self Hcase.
  - destruct Hcase as [Hin|Hnone]; [by apply elem_of_nil in Hin|done].
  - cbn [foldl]. apply IH.
    destruct (decide (part = p)) as [->|Hne].
    + right. unfold remove_modifier_bubble.
      destruct (dict_get p (active_keys self)) eqn:Hget; [|done].
      cbn. apply dict_get_del_eq.
    + destruct Hcase as [Hin|Hnone].
      * left. apply elem_of_cons in Hin as [?|Hin]; done.
      * right. unfold remove_modifier_bubble.
        destruct (dict_get p (active_keys self)); [|done].
        cbn. by rewrite dict_get_del_ne.
Qed.

(** [add_key] shows no name but its own. *)
Lemma add_key_other_names (self self' : KeyOverlay) (key_name other : string) :
  add_key self key_name = Ret self' → other ≠ key_name →
  dict_get other (active_keys self) = None →
  dict_get other (active_keys self') = None.
Proof.
  unfold add_key. intros Hadd Hne Hnone.
  destruct (dict_get key_name (active_keys self)) as [bubble|].
  - by injection Hadd as <-.
  - destruct (limit_visible_keys _ _ _ _) as [[[bubbles active] timers]|e] eqn:Hrun;
      [|done].
    cbn in Hadd. injection Hadd as <-. cbn.
    destruct (dict_get other active) as [b|] eqn:Hget; [|done].
    apply (limit_visible_keys_kept _ _ _ _ _ _ _ Hrun) in Hget as [Hget _].
    rewrite dict_get_set_ne in Hget by done. congruence.
Qed.

(** X5. After [show_combo] no part of the combination but the last has an
    entry of its own: the bubbles of the modifiers are replaced by the
    bubble of the combination. *)
Theorem show_combo_replaces_modifiers (self shown : KeyOverlay) (combo : string) :
  show_combo self combo = Ret shown →
  ∀ part, part ∈ removelast (str_split "+" combo) →
    part ≠ combo ∧ dict_get part (active_keys shown) = None.
Proof.
  unfold show_combo. intros Hshow part Hpart.
  assert (Hne : part ≠ combo).
  { intros ->. pose proof (removelast_elem _ _ Hpart) as Hin.
    apply str_split_parts_clean in Hin.
    rewrite (str_split_no_separator_in _ _ Hin) in Hpart.
    by apply elem_of_nil in Hpart. }
  split; [done|].
  eapply add_key_other_names; [exact Hshow|done|]. cbn.
  apply remove_modifier_bubbles_gone. by left.
Qed.

Lemma show_combo_replaces_modifiers_witness :
  ∃ shown,
    show_combo ctrl_overlay "Ctrl+S" = Ret shown ∧
    dict_get "Ctrl" (active_keys shown) = None.
Proof.
  eexists. split; [reflexivity|].
  eapply (show_combo_replaces_modifiers ctrl_overlay _ "Ctrl+S").
  - reflexivity.
  - compute_done.
Defined.

(** * Further properties of the keyboard listener *)

Section ListenerFacts.

Variable str_isalpha : string → bool.
Variable str_upper : string → string.
Variable str_isprintable : string → bool.
Variable str_title : string → string.

Local Abbreviation normalise' := (normalise str_isalpha str_upper str_isprintable str_title).
Local Abbreviation on_press' := (_on_press str_isalpha str_upper str_isprintable str_title).
Local Abbreviation on_release' := (_on_release str_isalpha str_upper str_isprintable str_title).
Local Abbreviation listener_event' :=
  (listener_event str_isalpha str_upper str_isprintable str_title).
Local Abbreviation listener_run' :=
  (listener_run str_isalpha str_upper str_isprintable str_title).

Lemma listener_event_modifiers (self : KeyboardListener) (ev : key_event) :
  active_modifiers self ⊆ MODIFIER_KEYS →
  ∃ self' sigs,
    listener_event' self ev = Ret (self', sigs) ∧
    active_modifiers self' ⊆ MODIFIER_KEYS ∧
    (length sigs ≤ 1)%nat.
Proof.
  intros Hsub. destruct ev as [key|key]; cbn [listener_event].
  - unfold _on_press.
    destruct (normalise_returns str_isalpha str_upper str_isprintable str_title key)
      as [[name|] ->]; cbn.
    + case_bool_decide as Hmod.
      * eexists _, _. split; [reflexivity|]. cbn. split; [|lia].
        intros m Hm. apply elem_of_union in Hm as [Hm|Hm]; [|by apply Hsub].
        by apply elem_of_singleton in Hm as ->.
      * case_bool_decide; eexists _, _; (split; [reflexivity|]); cbn; (split; [done|lia]).
    + eexists _, _. split; [reflexivity|]. cbn. split; [done|lia].
  - unfold _on_release.
    destruct (normalise_returns str_isalpha str_upper str_isprintable str_title key)
      as [[name|] ->]; cbn.
    + eexists _, _. split; [reflexivity|]. cbn. split; [|lia].
      case_bool_decide; [|done]. cbn. intros m Hm.
      apply elem_of_difference in Hm as [Hm _]. by apply Hsub.
    + eexists _, _. split; [reflexivity|]. cbn. split; [done|lia].
Qed.

(** X6. The set of held modifiers only ever holds modifier identifiers, and
    an event makes the listener emit at most one signal: for every
    sequence of key events the callbacks return, with as many signals as
    events at most. *)
Theorem listener_run_modifiers (events : list key_event) (self : KeyboardListener) :
  active_modifiers self ⊆ MODIFIER_KEYS →
  ∃ self' sigs,
    listener_run' self events = Ret (self', sigs) ∧
    active_modifiers self' ⊆ MODIFIER_KEYS ∧
    (length sigs ≤ length events)%nat.
Proof.
  revert self. induction events as [|ev events IH]; intros self Hsub.
  - eexists _, _. split; [reflexivity|]. split; [done|]. cbn. lia.
  - cbn [listener_run].
    destruct (listener_event_modifiers self ev Hsub) as (self1 & sigs1 & -> & Hsub1 & Hlen1).
    cbn. destruct (IH self1 Hsub1) as (self2 & sigs2 & -> & Hsub2 & Hlen2).
    cbn. eexists _, _. split; [reflexivity|]. split; [done|].
    rewrite length_app. cbn. lia.
Qed.

(** X7. Two keys with the same modifier label (the left and the right Ctrl
    key): when both are down and one of them is released, the label is
    no longer held, although the other key still is down. *)
Theorem shared_modifier_label_released (self : KeyboardListener) (key1 key2 : Key)
    (label : string) :
  normalise' key1 = Ret (Some label) →
  normalise' key2 = Ret (Some label) →
  label ∈ MODIFIER_KEYS →
  ∃ self',
    listener_run' self [KeyDown key1; KeyDown key2; KeyUp key1] =
      Ret (self', [key_pressed label; key_pressed label; key_released label]) ∧
    (label ∉ active_modifiers self') ∧
    active_modifiers self' = active_modifiers self ∖ {[ label ]}.
Proof.
  intros H1 H2 Hmod.
  assert (Hrun : listener_run' self [KeyDown key1; KeyDown key2; KeyUp key1] =
            Ret (mkListener (({[ label ]} ∪ ({[ label ]} ∪ active_modifiers self))
                             ∖ {[ label ]}),
                 [key_pressed label; key_pressed label; key_released label])).
  { cbn [listener_run listener_event].
    unfold _on_press, _on_release. rewrite H1. cbn.
    rewrite !bool_decide_eq_true_2 by done. cbn.
    rewrite ?H2. cbn. rewrite ?bool_decide_eq_true_2 by done. reflexivity. }
  eexists. split; [exact Hrun|]. cbn. split.
  - rewrite elem_of_difference, elem_of_singleton. tauto.
  - apply set_eq. intros m.
    rewrite !elem_of_difference, !elem_of_union, !elem_of_singleton. tauto.
Qed.

End ListenerFacts.

Lemma listener_run_modifiers_witness :
  ∃ self' sigs,
    listener_run_ascii (mkListener ∅)
      [KeyDown (mkKey "Key.ctrl_l" None None); KeyDown (mkKey "'s'" (Some "s") (Some 83))]
      = Ret (self', sigs) ∧
    active_modifiers self' ⊆ MODIFIER_KEYS ∧
    (length sigs ≤ 2)%nat.
Proof.
  apply (listener_run_modifiers ascii_isalpha ascii_upper ascii_isprintable ascii_title
           [KeyDown (mkKey "Key.ctrl_l" None None);
            KeyDown (mkKey "'s'" (Some "s") (Some 83))] (mkListener ∅)).
  cbn. intros m Hm. by apply elem_of_empty in Hm.
Defined.

Lemma shared_modifier_label_released_witness :
  ∃ self',
    listener_run_ascii (mkListener ∅)
      [KeyDown (mkKey "Key.ctrl_l" None None); KeyDown (mkKey "Key.ctrl_r" None None);
       KeyUp (mkKey "Key.ctrl_l" None None)] =
      Ret (self', [key_pressed "Ctrl"; key_pressed "Ctrl"; key_released "Ctrl"]) ∧
    ("Ctrl" ∉ active_modifiers self') ∧
    active_modifiers self' = active_modifiers (mkListener ∅) ∖ {[ "Ctrl" ]}.
Proof.
  apply (shared_modifier_label_released ascii_isalpha ascii_upper ascii_isprintable
           ascii_title (mkListener ∅) (mkKey "Key.ctrl_l" None None)
           (mkKey "Key.ctrl_r" None None) "Ctrl").
  - vm_compute. reflexivity.
  - vm_compute. reflexivity.
  - compute_done.
Defined.

(** ** Joining and splitting a combination label *)

Lemma concat_cons_cons (sep h h' : string) (t : list string) :
  String.concat sep (h :: h' :: t) = h +:+ sep +:+ String.concat sep (h' :: t).
Proof. reflexivity. Qed.

Lemma str_split_cons (sep c : Ascii.ascii) (s : string) :
  str_split sep (String c s) =
    if Ascii.eqb c sep then EmptyString :: str_split sep s
    else match str_split sep s with
         | [] => [String c EmptyString]
         | part :: parts => String c part :: parts
         end.
Proof. reflexivity. Qed.

Lemma str_split_append (sep : Ascii.ascii) (part rest : string) :
  str_mem sep part = false →
  str_split sep (part +:+ String sep rest) = part :: str_split sep rest.
Proof.
  induction part as [|c part IH].
  - intros _. change ("" +:+ String sep rest) with (String sep rest).
    by rewrite str_split_cons, Ascii.eqb_refl.
  - change (String c part +:+ String sep rest)
      with (String c (part +:+ String sep rest)).
    cbn [str_mem]. rewrite str_split_cons.
    destruct (Ascii.eqb c sep); [done|]. cbn [orb]. intros Hp.
    by rewrite IH.
Qed.

Lemma str_split_concat (sep : Ascii.ascii) (parts : list string) :
  parts ≠ [] → Forall (λ p, str_mem sep p = false) parts →
  str_split sep (String.concat (String sep "") parts) = parts.
Proof.
  induction parts as [|p parts IH]; [done|]. intros _ Hall.
  inversion_clear Hall as [|? ? Hp Hparts].
  destruct parts as [|p' parts].
  - cbn. by apply str_split_no_separator_in.
  - rewrite concat_cons_cons.
    change (String sep "" +:+ String.concat (String sep "") (p' :: parts))
      with (String sep (String.concat (String sep "") (p' :: parts))).
    rewrite str_split_append by done. by rewrite IH.
Qed.

(** ['+'.join(s.split('+'))] is [s]. *)
Lemma concat_str_split (sep : Ascii.ascii) (s : string) :
  String.concat (String sep "") (str_split sep s) = s.
Proof.
  induction s as [|c s IH]; [done|]. rewrite str_split_cons.
  pose proof (str_split_nonempty sep s) as Hne.
  destruct (Ascii.eqb c sep) eqn:Hc.
  - apply Ascii.eqb_eq in Hc as ->.
    destruct (str_split sep s) as [|p ps]; [done|].
    rewrite concat_cons_cons, IH. reflexivity.
  - destruct (str_split sep s) as [|p ps]; [done|]. destruct ps as [|p' ps].
    + cbn in *. by rewrite IH.
    + rewrite concat_cons_cons in *. rewrite <- IH. reflexivity.
Qed.

(** X8. The label [_on_press] builds and the split of [show_combo] fit
    together: when the label of the key holds no ['+'], the parts
    [show_combo] gets from the combined label are the held modifiers of
    the fixed order followed by the label of the key; and joining the
    parts of any label gives the label back. *)
Theorem combo_label_parts (mods : gset string) (key_name : string) :
  str_mem "+" key_name = false →
  str_split "+" (String.concat "+" (combo_parts mods key_name)) =
    combo_parts mods key_name ∧
  removelast (combo_parts mods key_name) =
    filter (λ m, m ∈ mods) ["Ctrl"; "Alt"; "Shift"; "Win"] ∧
  (∀ combo, String.concat "+" (str_split "+" combo) = combo).
Proof.
  intros Hkey. split_and!.
  - apply (str_split_concat "+").
    + unfold combo_parts. by destruct (filter _ _).
    + unfold combo_parts. apply Forall_app. split; [|by repeat constructor].
      apply List.Forall_forall. intros m Hm.
      apply list_elem_of_In, list_elem_of_filter in Hm as [_ Hm].
      repeat (apply elem_of_cons in Hm as [->|Hm]; [done|]).
      by apply elem_of_nil in Hm.
  - unfold combo_parts. apply removelast_last.
  - intros combo. apply (concat_str_split "+").
Qed.

Lemma combo_label_parts_witness :
  str_split "+" (String.concat "+" (combo_parts {[ "Shift"; "Ctrl" ]} "S")) =
    combo_parts {[ "Shift"; "Ctrl" ]} "S" ∧
  str_split "+" (String.concat "+" (combo_parts {[ "Shift"; "Ctrl" ]} "S")) =
    ["Ctrl"; "Shift"; "S"].
Proof.
  destruct (combo_label_parts {[ "Shift"; "Ctrl" ]} "S") as (Hsplit & _ & _).
  - reflexivity.
  - split; [exact Hsplit|]. rewrite Hsplit. vm_compute. reflexivity.
Defined.

(** ** Labels are not empty *)

Lemma KEY_DISPLAY_NAMES_nonempty (s label : string) :
  KEY_DISPLAY_NAMES !! s = Some label → label ≠ "".
Proof.
  intros E. apply elem_of_list_to_map_2 in E.
  repeat (apply elem_of_cons in E as [E|E]; [injection E as _ ->; done|]).
  by apply elem_of_nil in E.
Qed.

Lemma vk_code_not_empty (vk : Z) :
  not_empty_label (get_key_from_vk (vk_key vk)) = true.
Proof.
  destruct (decide (0x20 ≤ vk ≤ 0x7E)) as [Hin|Hout].
  - apply (agree_on_range (λ z, not_empty_label (get_key_from_vk (vk_key z)))
             (λ _, true) 0x20 95); [vm_compute; reflexivity | lia].
  - destruct (vk_map !! vk) eqn:E.
    + apply vk_map_keys in E as [Hr|Hr].
      * apply (agree_on_range (λ z, not_empty_label (get_key_from_vk (vk_key z)))
                 (λ _, true) 0xBA 7); [vm_compute; reflexivity | lia].
      * apply (agree_on_range (λ z, not_empty_label (get_key_from_vk (vk_key z)))
                 (λ _, true) 0xDB 4); [vm_compute; reflexivity | lia].
    + by rewrite unhandled_code_none.
Qed.

Lemma get_key_from_vk_nonempty (key : Key) (label : string) :
  get_key_from_vk key = Ret (Some label) → label ≠ "".
Proof.
  destruct key as [s c [vk|]]; [|done].
  rewrite get_key_from_vk_ignores_text. intros Hl ->.
  pose proof (vk_code_not_empty vk) as Hne. unfold vk_key in Hne.
  by rewrite Hl in Hne.
Qed.

Lemma prefix_cons (a b : Ascii.ascii) (s1 s2 : string) :
  String.prefix (String a s1) (String b s2) =
    if ascii_dec a b then String.prefix s1 s2 else false.
Proof. reflexivity. Qed.

Lemma key_prefix_rest (s : string) :
  String.prefix "Key." s = true → s ≠ "Key." → str_drop 4 s ≠ "".
Proof.
  destruct s as [|c1 [|c2 [|c3 [|c4 [|c5 s]]]]]; try done;
    rewrite ?prefix_cons;
    repeat (destruct (ascii_dec _ _) as [<-|?]; [|done]; rewrite ?prefix_cons);
    try done.
Qed.

Lemma str_replace_nonempty (a b : Ascii.ascii) (s : string) :
  s ≠ "" → str_replace a b s ≠ "".
Proof. by destruct s. Qed.

Lemma append_nonempty_r (a b : string) : b ≠ "" → a +:+ b ≠ "".
Proof. intros Hb. destruct a; [exact Hb|done]. Qed.

Lemma concat_last_nonempty (sep last : string) (parts : list string) :
  last ≠ "" → String.concat sep (parts ++ [last])%list ≠ "".
Proof.
  intros Hlast. induction parts as [|p parts IH]; [done|].
  cbn [app]. destruct (parts ++ [last])%list as [|q qs] eqn:E.
  - symmetry in E. by apply app_cons_not_nil in E.
  - rewrite concat_cons_cons. by apply append_nonempty_r, append_nonempty_r.
Qed.

Section LabelFacts.

Variable str_isalpha : string → bool.
Variable str_upper : string → string.
Variable str_isprintable : string → bool.
Variable str_title : string → string.

(** [upper] and [title] of a text that is not empty are not empty. *)
Hypothesis str_upper_nonempty : ∀ s, s ≠ "" → str_upper s ≠ "".
Hypothesis str_title_nonempty : ∀ s, s ≠ "" → str_title s ≠ "".

Local Abbreviation get_key_name' := (get_key_name str_isalpha str_upper str_isprintable str_title).
Local Abbreviation normalise' := (normalise str_isalpha str_upper str_isprintable str_title).
Local Abbreviation on_press' := (_on_press str_isalpha str_upper str_isprintable str_title).
Local Abbreviation on_release' := (_on_release str_isalpha str_upper str_isprintable str_title).

Lemma get_key_name_nonempty (key : Key) (label : string) :
  key_str key ≠ "Key." → get_key_name' key = Ret (Some label) → label ≠ "".
Proof.
  intros Hkey. unfold get_key_name.
  destruct (py_in (key_str key) KEY_DISPLAY_NAMES) eqn:Hin.
  - unfold py_getitem.
    destruct (KEY_DISPLAY_NAMES !! key_str key) as [v|] eqn:Hv; [|done].
    cbn. intros [= <-]. by eapply KEY_DISPLAY_NAMES_nonempty.
  - assert (Hrest : (if String.prefix "Key." (key_str key)
                     then Ret (Some (str_title (str_replace "_" " " (str_drop 4 (key_str key)))))
                     else Ret None) = Ret (Some label) → label ≠ "").
    { destruct (String.prefix "Key." (key_str key)) eqn:Hp; [|done].
      intros [= <-]. apply str_title_nonempty, str_replace_nonempty.
      by apply key_prefix_rest. }
    destruct (key_char key) as [[|c char]|]; [done| |done].
    destruct (str_isalpha _).
    + intros [= <-]. by apply str_upper_nonempty.
    + destruct (str_isprintable _); [|done]. by intros [= <-].
Qed.

Lemma normalise_nonempty (key : Key) (label : string) :
  key_str key ≠ "Key." → normalise' key = Ret (Some label) → label ≠ "".
Proof.
  intros Hkey. unfold normalise.
  destruct (get_key_name' key) as [[name|]|e] eqn:Hname; cbn; [| |done].
  - intros [= <-]. by eapply get_key_name_nonempty.
  - apply get_key_from_vk_nonempty.
Qed.

(** X9. No key gets an empty label, except a key whose text is exactly
    ['Key.']; so no signal of the listener carries an empty text. *)
Theorem listener_texts_nonempty (key : Key) :
  key_str key ≠ "Key." →
  (∀ label, normalise' key = Ret (Some label) → label ≠ "") ∧
  (∀ self self' sigs, on_press' self key = Ret (self', sigs) →
     Forall (λ sig, signal_text sig ≠ "") sigs) ∧
  (∀ self self' sigs, on_release' self key = Ret (self', sigs) →
     Forall (λ sig, signal_text sig ≠ "") sigs).
Proof.
  intros Hkey. split_and!.
  - intros label. by apply normalise_nonempty.
  - intros self self' sigs. unfold _on_press.
    destruct (normalise' key) as [[name|]|e] eqn:Hname; cbn; [| |done].
    + pose proof (normalise_nonempty key name Hkey Hname) as Hne.
      repeat case_bool_decide; intros [= <- <-]; repeat constructor; cbn; try done.
      unfold combo_parts. by apply concat_last_nonempty.
    + intros [= <- <-]. constructor.
  - intros self self' sigs. unfold _on_release.
    destruct (normalise' key) as [[name|]|e] eqn:Hname; cbn; [| |done].
    + pose proof (normalise_nonempty key name Hkey Hname) as Hne.
      intros [= <- <-]. by repeat constructor.
    + intros [= <- <-]. constructor.
Qed.

End LabelFacts.

Lemma ascii_upper_nonempty (s : string) : s ≠ "" → ascii_upper s ≠ "".
Proof. by destruct s. Qed.

Lemma ascii_title_nonempty (s : string) : s ≠ "" → ascii_title s ≠ "".
Proof. by destruct s. Qed.

Lemma listener_texts_nonempty_witness :
  on_press_ascii (mkListener ∅) (mkKey "'s'" (Some "s") (Some 83)) =
    Ret (mkListener ∅, [key_pressed "S"]) ∧
  Forall (λ sig, signal_text sig ≠ "") [key_pressed "S"].
Proof.
  destruct (listener_texts_nonempty ascii_isalpha ascii_upper ascii_isprintable
              ascii_title ascii_upper_nonempty ascii_title_nonempty
              (mkKey "'s'" (Some "s") (Some 83))) as (_ & Hpress & _).
  - discriminate.
  - split; [reflexivity|].
    apply (Hpress (mkListener ∅) (mkListener ∅) [key_pressed "S"]). reflexivity.
Defined.

(** * Further properties of the configuration *)

(** ** A stored JSON string *)

Lemma utf8_chars_cons (c : Ascii.ascii) (s : string) :
  utf8_chars (String c s) =
    match utf8_chars s with
    | (String c' _ as ch) :: chars =>
      if is_continuation c' then String c ch :: chars
      else String c EmptyString :: ch :: chars
    | chars => String c EmptyString :: chars
    end.
Proof. reflexivity. Qed.

(** A lead byte with continuation bytes is one character. *)
Lemma utf8_chars_chunk (t : string) (b : Ascii.ascii) :
  str_all is_continuation t = true → utf8_chars (String b t) = [String b t].
Proof.
  revert b. induction t as [|c t IH]; intros b; [done|].
  cbn [str_all]. intros [Hc Ht]%andb_true_iff.
  rewrite utf8_chars_cons, (IH c Ht), Hc. reflexivity.
Qed.

Lemma utf8_chars_first (s ch : string) (rest : list string) :
  utf8_chars s = ch :: rest →
  ∃ b t, ch = String b t ∧ str_all is_continuation t = true.
Proof.
  revert ch rest. induction s as [|c s IH]; intros ch rest; [done|].
  rewrite utf8_chars_cons.
  destruct (utf8_chars s) as [|[|c' t'] chars] eqn:Hs.
  - intros [= <- <-]. by exists c, "".
  - intros [= <- <-]. by exists c, "".
  - destruct (IH _ _ eq_refl) as (b & t & [= -> ->] & Ht).
    destruct (is_continuation b) eqn:Hb.
    + intros [= <- <-]. exists c, (String b t). split; [done|].
      cbn [str_all]. by rewrite Hb, Ht.
    + intros [= <- <-]. by exists c, "".
Qed.

Lemma update_from_chars_raises (d : list (json * json)) (s : string) :
  s ≠ "" → snd (update_from_seq d (JStr <$> utf8_chars s)) = UpdateValueError.
Proof.
  intros Hs. destruct (utf8_chars s) as [|ch rest] eqn:Hchars.
  - exfalso. destruct s as [|c s]; [done|]. rewrite utf8_chars_cons in Hchars.
    destruct (utf8_chars s) as [|[|c' t'] chars]; try done.
    by destruct (is_continuation c').
  - destruct (utf8_chars_first _ _ _ Hchars) as (b & t & -> & Ht).
    cbn [fmap list_fmap update_from_seq as_pair].
    by rewrite (utf8_chars_chunk t b Ht).
Qed.

Section StoredValues.

Variable json_loads : qvariant → res json.

(** X10. A stored text that is the JSON of a string makes [load_config] raise:
    [dict.update] takes the string for a sequence of pairs and raises a
    [ValueError] at its first character, which the [except] clause does
    not name.  Only the empty JSON string leaves the defaults. *)
Theorem load_config_string_raises (self : KeyVisualizerApp) (text s : string) :
  settings self = QString text → text ≠ "" →
  json_loads (QString text) = Ret (JStr s) →
  load_config json_loads self =
    if bool_decide (s = "") then Ret DEFAULT_CONFIG else Raise ValueError.
Proof.
  intros Hset Htext Hload. unfold load_config. rewrite Hset. cbn.
  rewrite (proj2 (str_truthy_nonempty text) Htext), Hload.
  cbn [pydict_update]. case_bool_decide as Hs.
  - subst s. reflexivity.
  - pose proof (update_from_chars_raises DEFAULT_CONFIG s Hs) as Hraise.
    destruct (update_from_seq DEFAULT_CONFIG (JStr <$> utf8_chars s)) as [d r].
    cbn in Hraise. by subst r.
Qed.

End StoredValues.

Lemma load_config_string_raises_witness :
  load_config py_json_loads (mkApp (QString (json_encode (JStr "dark"))) DEFAULT_CONFIG) =
    Raise ValueError.
Proof.
  apply (load_config_string_raises py_json_loads
           (mkApp (QString (json_encode (JStr "dark"))) DEFAULT_CONFIG)
           (json_encode (JStr "dark")) "dark").
  - reflexivity.
  - vm_compute. discriminate.
  - vm_compute. reflexivity.
Defined.

(** ** The configuration of the settings dialog *)

Lemma pydict_getitem_ret (d : list (json * json)) (k : json) :
  is_Some (pydict_get k d) → ∃ v, pydict_getitem d k = Ret v ∧ pydict_get k d = Some v.
Proof. intros [v Hv]. unfold pydict_getitem. rewrite Hv. eauto. Qed.

(** X11. [get_config] returns a configuration with exactly the keys of
    [DEFAULT_CONFIG], in the same order, whatever other keys the dialog
    was opened with; the two numeric options of the overlay come from the
    spin box and the slider.  It raises [KeyError] exactly when one of the
    three colours is missing from the configuration of the dialog. *)
Theorem get_config_option_keys (self : SettingsDialog) :
  (is_Some (pydict_get (JStr "bg_color") (dialog_config self)) ∧
   is_Some (pydict_get (JStr "text_color") (dialog_config self)) ∧
   is_Some (pydict_get (JStr "border_color") (dialog_config self)) →
   ∃ cfg,
     get_config self = Ret cfg ∧
     cfg.*1 = DEFAULT_CONFIG.*1 ∧
     pydict_get (JStr "max_keys") cfg = Some (JInt (max_keys_spin (widgets self))) ∧
     pydict_get (JStr "fade_speed") cfg =
       Some (JFloat (inject_Z (fade_slider (widgets self)) / 10))) ∧
  (¬ (is_Some (pydict_get (JStr "bg_color") (dialog_config self)) ∧
      is_Some (pydict_get (JStr "text_color") (dialog_config self)) ∧
      is_Some (pydict_get (JStr "border_color") (dialog_config self))) →
   get_config self = Raise KeyError).
Proof.
  unfold get_config, pydict_getitem. split.
  - intros ([bg Hbg] & [tx Htx] & [bd Hbd]). rewrite Hbg, Htx, Hbd. cbn.
    eexists. split; [reflexivity|]. by split_and!.
  - intros Hmiss.
    destruct (pydict_get (JStr "bg_color") (dialog_config self)); [|done].
    destruct (pydict_get (JStr "text_color") (dialog_config self)); [|done].
    destruct (pydict_get (JStr "border_color") (dialog_config self)); [|done].
    exfalso. apply Hmiss. eauto.
Qed.

Lemma get_config_option_keys_witness :
  ∃ cfg,
    get_config (mkDialog ((JStr "theme", JStr "dark") :: DEFAULT_CONFIG) default_widgets)
      = Ret cfg ∧
    cfg.*1 = DEFAULT_CONFIG.*1 ∧
    pydict_get (JStr "theme") cfg = None.
Proof.
  destruct (get_config_option_keys
              (mkDialog ((JStr "theme", JStr "dark") :: DEFAULT_CONFIG) default_widgets))
    as [Hret _].
  destruct Hret as (cfg & Hcfg & Hkeys & _).
  - cbn. eauto.
  - exists cfg. split; [exact Hcfg|]. split; [exact Hkeys|].
    apply pydict_get_none.
    + unfold get_config in Hcfg. cbn in Hcfg. injection Hcfg as <-.
      unfold str_keys. repeat constructor; cbn; eauto.
    + rewrite Hkeys. intros Hin. apply list_elem_of_In in Hin. cbn in Hin.
      repeat (destruct Hin as [Hin|Hin]; [discriminate|]). done.
Defined.

(** * The layout of the bubbles *)

Lemma move_bubbles_length (x y spacing : Z) (sizes : list BubbleSize) :
  length (move_bubbles x y spacing sizes) = length sizes.
Proof. revert x. induction sizes as [|b rest IH]; intros x; cbn; [done|]. by rewrite IH. Qed.

(** The right edge of the last bubble. *)
Lemma move_bubbles_last (x y spacing : Z) (sizes : list BubbleSize)
    (p : Z * Z) (b : BubbleSize) :
  list.last (move_bubbles x y spacing sizes) = Some p → list.last sizes = Some b →
  p.1 + bubble_width b =
    x + (sum_widths sizes + spacing * (Z.of_nat (length sizes) - 1)) ∧ p.2 = y.
Proof.
  revert x. induction sizes as [|b0 rest IH]; intros x; [done|].
  destruct rest as [|b1 rest].
  - cbn. intros [= <-] [= <-]. cbn. lia.
  - cbn [move_bubbles]. rewrite !last_cons_cons. intros Hp Hb.
    destruct (IH _ Hp Hb) as [Hx Hy]. split; [|done].
    rewrite Hx. cbn [sum_widths foldr length].
    change (foldr (λ b acc, bubble_width b + acc) 0 rest) with (sum_widths rest).
    lia.
Qed.

(** Every bubble after the first of a row lies to the right of the first
    one, at least its width and the spacing away, on the same line. *)
Lemma move_bubbles_after (x y spacing : Z) (sizes : list BubbleSize)
    (n : nat) (p : Z * Z) :
  Forall (λ b, 0 <= bubble_width b) sizes → 0 <= spacing →
  move_bubbles x y spacing sizes !! n = Some p → x <= p.1 ∧ p.2 = y.
Proof.
  intros Hw Hs. revert x n. induction Hw as [|b rest Hb Hrest IH]; intros x n; [done|].
  destruct n as [|n]; cbn.
  - intros [= <-]. cbn. lia.
  - intros Hp. destruct (IH _ _ Hp) as [Hx Hy]. split; [lia|done].
Qed.

(** X12. The row is centred: the free space to the left of the first bubble and
    to the right of the last one differ by at most one pixel, the extra
    pixel being on the right.  When the bubbles are wider than the overlay
    both are negative: the row sticks out on both sides. *)
Theorem layout_bubbles_centred (width height spacing : Z) (sizes : list BubbleSize)
    (first_pos last_pos : Z * Z) (last_size : BubbleSize) :
  head (layout_bubbles width height spacing sizes) = Some first_pos →
  list.last (layout_bubbles width height spacing sizes) = Some last_pos →
  list.last sizes = Some last_size →
  let left_space := first_pos.1 in
  let right_space := width - (last_pos.1 + bubble_width last_size) in
  left_space <= right_space <= left_space + 1 ∧
  (left_space < 0 ↔
   width < sum_widths sizes + spacing * (Z.of_nat (length sizes) - 1)).
Proof.
  destruct sizes as [|b0 rest]; [done|].
  unfold layout_bubbles.
  set (total := sum_widths (b0 :: rest) + spacing * (Z.of_nat (length (b0 :: rest)) - 1)).
  set (y := (height - bubble_height b0) `div` 2).
  intros Hfirst Hlast Hsize.
  destruct (move_bubbles_last _ _ _ _ _ _ Hlast Hsize) as [Hx _].
  fold total in Hx.
  cbn [move_bubbles head] in Hfirst. injection Hfirst as <-.
  cbn [fst].
  pose proof (Z.div_mod (width - total) 2 ltac:(lia)) as Hdiv.
  pose proof (Z.mod_pos_bound (width - total) 2 ltac:(lia)) as Hmod.
  split; [lia|]. split; intros Hneg; [lia|].
  apply Z.div_lt_upper_bound; lia.
Qed.

Lemma layout_bubbles_centred_witness :
  let left_space := 102 in
  let right_space := 400 - (247 + 50) in
  left_space <= right_space <= left_space + 1 ∧
  (left_space < 0 ↔
   400 < sum_widths [mkSize 55 50; mkSize 70 50; mkSize 50 50] +
         10 * (Z.of_nat (length [mkSize 55 50; mkSize 70 50; mkSize 50 50]) - 1)).
Proof.
  apply (layout_bubbles_centred 400 80 10 [mkSize 55 50; mkSize 70 50; mkSize 50 50]
           (102, 15) (247, 15) (mkSize 50 50)); reflexivity.
Defined.

(** X13. Bubbles do not overlap: with widths and spacing that are not negative,
    a bubble later in [key_bubbles] starts at least the spacing to the
    right of the right edge of an earlier one, and both are on the same
    line. *)
Theorem layout_bubbles_disjoint (width height spacing : Z) (sizes : list BubbleSize)
    (i j : nat) (size_i : BubbleSize) (pos_i pos_j : Z * Z) :
  Forall (λ b, 0 <= bubble_width b) sizes → 0 <= spacing →
  (i < j)%nat →
  sizes !! i = Some size_i →
  layout_bubbles width height spacing sizes !! i = Some pos_i →
  layout_bubbles width height spacing sizes !! j = Some pos_j →
  pos_i.1 + bubble_width size_i + spacing <= pos_j.1 ∧ pos_i.2 = pos_j.2.
Proof.
  intros Hw Hs Hij Hsize Hi Hj.
  destruct sizes as [|b0 rest]; [done|].
  unfold layout_bubbles in Hi, Hj.
  set (total := sum_widths (b0 :: rest) + spacing * (Z.of_nat (length (b0 :: rest)) - 1)) in *.
  set (x0 := (width - total) `div` 2) in *.
  set (y := (height - bubble_height b0) `div` 2) in *.
  clearbody x0 y. clear total.
  revert x0 i j Hij Hsize Hi Hj.
  induction Hw as [|b rest' Hb Hrest IH]; intros x0 i j Hij Hsize Hi Hj; [done|].
  destruct j as [|j]; [lia|]. cbn [move_bubbles] in Hi, Hj. cbn in Hj.
  destruct i as [|i].
  - cbn in Hi, Hsize. injection Hi as <-. injection Hsize as <-. cbn [fst snd].
    destruct (move_bubbles_after _ _ _ _ _ _ Hrest Hs Hj) as [Hx Hy].
    split; [lia|done].
  - cbn in Hi, Hsize. apply (IH (x0 + (bubble_width b + spacing)) i j); [lia|done..].
Qed.

Lemma layout_bubbles_disjoint_witness :
  (102, 15).1 + bubble_width (mkSize 55 50) + 10 <= (247, 15).1 ∧
  (102, 15).2 = (247, 15).2.
Proof.
  apply (layout_bubbles_disjoint 400 80 10 [mkSize 55 50; mkSize 70 50; mkSize 50 50]
           0 2 (mkSize 55 50) (102, 15) (247, 15)).
  - repeat constructor; cbn; lia.
  - lia.
  - lia.
  - reflexivity.
  - reflexivity.
  - reflexivity.
Defined.

(** * The click spots *)

Lemma Qgt_bool_iff (a b : Q) : Qgt_bool a b = true ↔ (b < a)%Q.
Proof.
  unfold Qgt_bool. rewrite negb_true_iff. split.
  - intros Hle. apply Qnot_le_lt. intros H%Qle_bool_iff. congruence.
  - intros Hlt. destruct (Qle_bool a b) eqn:E; [|done].
    apply Qle_bool_iff in E. by apply Qlt_not_le in Hlt.
Qed.

Lemma Qgt_bool_false (a b : Q) : Qgt_bool a b = false ↔ (a <= b)%Q.
Proof.
  unfold Qgt_bool. rewrite negb_false_iff. apply Qle_bool_iff.
Qed.

Lemma float_div_number (x q : Q) (d : json) :
  json_number d = Some q → ¬ (q == 0)%Q → float_div x d = Ticked (x / q)%Q.
Proof.
  intros Hd Hq. unfold float_div. rewrite Hd.
  destruct (Qeq_bool q 0) eqn:E; [|done]. by apply Qeq_bool_eq in E.
Qed.

(** With a divisor that is a number other than zero the loop gives every
    spot its new opacity. *)
Lemma decay_spots_number (now q : Q) (fade_ms : json) (l : list Spot) :
  json_number fade_ms = Some q → ¬ (q == 0)%Q →
  decay_spots now fade_ms l =
    Ticked ((λ s, set_alpha (py_max 0 (1 - spot_age_ms now s / q)) s) <$> l).
Proof.
  intros Hd Hq. induction l as [|s rest IH]; [done|].
  cbn [decay_spots fmap list_fmap].
  rewrite (float_div_number _ q) by done. by rewrite IH.
Qed.

(** The configuration value the fade time is read from: the one of the
    overlay's configuration, 400 when it has none. *)
Lemma tick_fade_ms_members (self : ClickSpotOverlay) (members : list (string * json)) :
  spot_config self = dict_of_members members →
  tick_fade_ms self =
    match member_value "click_spot_fade_ms" members with
    | Some v => v
    | None => JInt 400
    end.
Proof.
  intros Hcfg. unfold tick_fade_ms, pydict_update_dict, pydict_get_default.
  rewrite Hcfg. unfold dict_of_members. rewrite foldl_fmap. cbn [fst snd].
  assert (Hkeys : str_keys _default_click_spot_config).
  { unfold str_keys, _default_click_spot_config. repeat constructor; cbn; eauto. }
  rewrite (proj2 (update_members_get _default_click_spot_config members
                    "click_spot_fade_ms" Hkeys)).
  by destruct (member_value "click_spot_fade_ms" members).
Qed.

(** X14. [_tick_fade] raises only when there are spots: [ZeroDivisionError]
    exactly when the configured fade time is a number equal to zero
    ([0], [0.0] or [False]), [TypeError] exactly when it is no number. *)
Theorem tick_fade_raises_iff (self : ClickSpotOverlay) (now : Q) :
  (_tick_fade self now = TickZeroDivisionError ↔
   spots self ≠ [] ∧ ∃ q, json_number (tick_fade_ms self) = Some q ∧ (q == 0)%Q) ∧
  (_tick_fade self now = TickTypeError ↔
   spots self ≠ [] ∧ json_number (tick_fade_ms self) = None).
Proof.
  unfold _tick_fade.
  destruct (spots self) as [|s rest] eqn:Hspots.
  - cbn. split; split; try done; by intros [? _].
  - destruct (json_number (tick_fade_ms self)) as [q|] eqn:Hnum.
    + destruct (Qeq_bool q 0) eqn:Hq.
      * cbn [decay_spots]. unfold float_div. rewrite Hnum, Hq.
        split; split; try done.
        -- intros _. split; [done|]. exists q. split; [done|]. by apply Qeq_bool_eq.
        -- by intros [_ ?].
      * apply Qeq_bool_neq in Hq.
        rewrite (decay_spots_number now q) by done.
        split; split; try done.
        -- intros (_ & q' & [= <-] & Hz). done.
        -- by intros [_ ?].
    + cbn [decay_spots]. unfold float_div. rewrite Hnum.
      split; split; try done.
      intros (_ & q & Hq & _). done.
Qed.

(** X16. A negative fade time never removes a spot: while the clock does not
    go back every spot keeps an opacity of 1 or more at every timeout, so
    the timer is never stopped by [_tick_fade]. *)
Theorem tick_fade_negative_keeps (self : ClickSpotOverlay) (now q : Q) :
  json_number (tick_fade_ms self) = Some q → (q < 0)%Q →
  Forall (λ s, (created_at s <= now)%Q) (spots self) →
  ∃ self',
    _tick_fade self now = Ticked self' ∧
    spots self' = (λ s, set_alpha (1 - spot_age_ms now s / q) s) <$> spots self ∧
    Forall (λ s, (1 <= alpha s)%Q) (spots self') ∧
    fade_timer_active self' =
      match spots self with
      | [] => false
      | _ :: _ => fade_timer_active self
      end.
Proof.
  intros Hnum Hq Hclock.
  assert (Hq0 : ¬ (q == 0)%Q) by (intros Hz; rewrite Hz in Hq; lra).
  unfold _tick_fade. rewrite (decay_spots_number now q) by done.
  eexists. split; [reflexivity|]. cbn [spot_config spots fade_timer_active].
  assert (Hratio : ∀ s, s ∈ spots self → (spot_age_ms now s / q <= 0)%Q).
  { intros s Hin. rewrite List.Forall_forall in Hclock.
    apply list_elem_of_In, Hclock in Hin. cbn in Hin.
    assert (Hpos : (0 <= spot_age_ms now s / - q)%Q).
    { apply Qle_shift_div_l; [lra|]. unfold spot_age_ms. lra. }
    assert (Heq : (spot_age_ms now s / - q == - (spot_age_ms now s / q))%Q)
      by (field; done).
    rewrite Heq in Hpos. lra. }
  assert (Hlist :
    List.filter (λ s, Qgt_bool (alpha s) (1 # 1000))
      ((λ s, set_alpha (py_max 0 (1 - spot_age_ms now s / q)) s) <$> spots self) =
    (λ s, set_alpha (1 - spot_age_ms now s / q) s) <$> spots self).
  { revert Hratio. generalize (spots self). intros l.
    induction l as [|s rest IH]; intros Hratio; [done|].
    cbn [fmap list_fmap List.filter set_alpha alpha].
    assert (Hs : (spot_age_ms now s / q <= 0)%Q) by (apply Hratio; left).
    assert (Hmax : py_max 0 (1 - spot_age_ms now s / q) = (1 - spot_age_ms now s / q)%Q).
    { unfold py_max. rewrite (proj2 (Qgt_bool_iff _ _)); [done|lra]. }
    rewrite Hmax, (proj2 (Qgt_bool_iff _ _)) by lra.
    f_equal. apply IH. intros s' Hin. apply Hratio. by right. }
  rewrite Hlist. split_and!; [done| |by destruct (spots self)].
  apply Forall_fmap, List.Forall_forall. intros s Hin. unfold compose. cbn [alpha set_alpha].
  apply list_elem_of_In, Hratio in Hin. lra.
Qed.

Lemma tick_fade_negative_keeps_witness :
  ∃ self',
    _tick_fade
      (add_spot (new_click_spot_overlay [(JStr "click_spot_fade_ms", JInt (-400))])
         10 20 "Left Click" 0) 100 = Ticked self' ∧
    Forall (λ s, (1 <= alpha s)%Q) (spots self') ∧
    length (spots self') = 1%nat.
Proof.
  destruct (tick_fade_negative_keeps
              (add_spot (new_click_spot_overlay [(JStr "click_spot_fade_ms", JInt (-400))])
                 10 20 "Left Click" 0) 100 (inject_Z (-400)))
    as (self' & Htick & Hspots & Halpha & _).
  - reflexivity.
  - reflexivity.
  - repeat constructor. cbn. lra.
  - exists self'. split; [exact Htick|]. split; [exact Halpha|].
    rewrite Hspots. reflexivity.
Defined.

Lemma tick_fade_spots_timer (self self' : ClickSpotOverlay) (now : Q) :
  _tick_fade self now = Ticked self' →
  (fade_timer_active self = true ↔ spots self ≠ []) →
  (fade_timer_active self' = true ↔ spots self' ≠ []).
Proof.
  unfold _tick_fade. intros Htick Hinv.
  destruct (decay_spots now (tick_fade_ms self) (spots self)) as [decayed| |] eqn:Hd;
    [|done..].
  injection Htick as <-. cbn [spots fade_timer_active].
  destruct (List.filter _ decayed) as [|s alive] eqn:Hf; [done|].
  split; [done|]. intros _. apply Hinv.
  intros Hnil. rewrite Hnil in Hd. cbn in Hd. injection Hd as <-. done.
Qed.

(** X17. From the start of the application on, whatever clicks, timeouts and
    changes of settings happen, the fade timer runs exactly while there
    are spots: no spot is left without a timer that fades it, and the
    timer does not run for nothing. *)
Theorem spot_timer_runs_iff_spots (cfg : list (json * json)) (self : ClickSpotOverlay) :
  rtc spot_step (new_click_spot_overlay cfg) self →
  (fade_timer_active self = true ↔ spots self ≠ []).
Proof.
  intros Hreach. revert self Hreach. apply rtc_ind_r.
  - cbn. split; done.
  - intros self self' _ Hstep IH. destruct Hstep as [x y name now|now self' Htick|cfg'].
    + cbn. split; [|done]. intros _. by destruct (spots self).
    + by apply (tick_fade_spots_timer self self' now).
    + cbn. exact IH.
Qed.

Lemma spot_timer_runs_iff_spots_witness :
  fade_timer_active (add_spot (new_click_spot_overlay DEFAULT_CONFIG) 10 20 "Left Click" 0)
    = true ↔
  spots (add_spot (new_click_spot_overlay DEFAULT_CONFIG) 10 20 "Left Click" 0) ≠ [].
Proof.
  apply (spot_timer_runs_iff_spots DEFAULT_CONFIG).
  apply rtc_once. apply spot_step_add.
Defined.

(** * The running application *)

Lemma add_key_returns (self : KeyOverlay) (key_name : string) :
  0 <= max_keys (config self) → ∃ self', add_key self key_name = Ret self'.
Proof.
  intros Hmax. unfold add_key.
  destruct (dict_get key_name (active_keys self)) as [bubble|]; [eauto|].
  destruct (limit_visible_keys_bubbles (max_keys (config self))
              (key_bubbles self ++ [next_bubble self])
              (dict_set key_name (next_bubble self) (active_keys self))
              (fade_timers self) Hmax) as (active' & timers' & ->).
  cbn. eauto.
Qed.

Lemma remove_modifier_bubbles_config (parts : list string) (self : KeyOverlay) :
  config (foldl remove_modifier_bubble self parts) = config self.
Proof.
  revert self. induction parts as [|part parts IH]; intros self; [done|].
  cbn. rewrite IH. unfold remove_modifier_bubble.
  by destruct (dict_get part (active_keys self)).
Qed.

Lemma show_combo_returns (self : KeyOverlay) (combo : string) :
  0 <= max_keys (config self) →
  ∃ self', show_combo self combo = Ret self' ∧ config self' = config self.
Proof.
  intros Hmax. unfold show_combo.
  match goal with |- ∃ self', add_key ?s combo = _ ∧ _ =>
    destruct (add_key_returns s combo) as [self' Hadd]
  end.
  { cbn. by rewrite remove_modifier_bubbles_config. }
  exists self'. split; [done|].
  rewrite (add_key_config _ _ _ Hadd). cbn. apply remove_modifier_bubbles_config.
Qed.

Lemma fade_key_returns (self : KeyOverlay) (key_name : string) :
  key_name ∈ fade_timers self → ∃ self', fade_key self key_name = Ret self'.
Proof.
  intros Htimer. unfold fade_key.
  destruct (dict_get key_name (active_keys self)) as [bubble|]; [|eauto].
  destruct (Qle_bool _ 0); [|eauto].
  rewrite bool_decide_eq_true_2 by done. eauto.
Qed.

(** The four calls of the slots and of the fade timers keep the display
    invariants and the options, and return. *)
Lemma add_key_display_ok (self : KeyOverlay) (key_name : string) :
  display_ok self → key_name ≠ "" →
  ∃ self', add_key self key_name = Ret self' ∧ display_ok self' ∧
           config self' = config self.
Proof.
  intros (Hinv & Hop & Hspeed & Hmax) Hname.
  destruct (add_key_returns self key_name Hmax) as [self' Hadd].
  exists self'. split; [done|].
  pose proof (add_key_config _ _ _ Hadd) as Hcfg.
  split; [|done]. unfold display_ok. rewrite Hcfg.
  split_and!; [by eapply add_key_inv | by eapply add_key_opacity | done | done].
Qed.

Lemma release_key_display_ok (self : KeyOverlay) (key_name : string) :
  display_ok self →
  display_ok (release_key self key_name) ∧
  config (release_key self key_name) = config self.
Proof.
  intros (Hinv & Hop & Hspeed & Hmax).
  pose proof (release_key_config self key_name) as Hcfg.
  split; [|done]. unfold display_ok. rewrite Hcfg.
  split_and!; [by apply release_key_inv | by apply release_key_opacity | done | done].
Qed.

Lemma show_combo_display_ok (self : KeyOverlay) (combo : string) :
  display_ok self → combo ≠ "" →
  ∃ self', show_combo self combo = Ret self' ∧ display_ok self' ∧
           config self' = config self.
Proof.
  intros (Hinv & Hop & Hspeed & Hmax) Hname.
  destruct (show_combo_returns self combo Hmax) as (self' & Hshow & Hcfg).
  exists self'. split; [done|]. split; [|done]. unfold display_ok. rewrite Hcfg.
  split_and!; [by eapply show_combo_inv | by eapply show_combo_opacity | done | done].
Qed.

Lemma fade_key_display_ok (self : KeyOverlay) (key_name : string) :
  display_ok self → key_name ∈ fade_timers self →
  ∃ self', fade_key self key_name = Ret self' ∧ display_ok self' ∧
           config self' = config self.
Proof.
  intros (Hinv & Hop & Hspeed & Hmax) Htimer.
  destruct (fade_key_returns self key_name Htimer) as [self' Hfade].
  exists self'. split; [done|].
  pose proof (fade_key_config _ _ _ Hfade) as Hcfg.
  split; [|done]. unfold display_ok. rewrite Hcfg.
  split_and!; [by eapply fade_key_inv | by eapply fade_key_opacity | done | done].
Qed.

Lemma same_setup_refl (self : RunningApp) : same_setup self self.
Proof. done. Qed.

Lemma same_setup_trans (a b c : RunningApp) :
  same_setup a b → same_setup b c → same_setup a c.
Proof.
  intros (H1 & H2 & H3) (H4 & H5 & H6). unfold same_setup.
  split_and!; congruence.
Qed.

Lemma keyboard_slot_ok (self : RunningApp) (sig : signal) :
  app_ok self → signal_text sig ≠ "" →
  ∃ self', keyboard_slot self sig = Ret self' ∧ app_ok self' ∧
           same_setup self self' ∧ is_active self' = is_active self.
Proof.
  intros (Hdisp & Hmods & Hspots) Htext.
  destruct sig as [name|name|combo]; cbn in Htext;
    cbn [keyboard_slot]; unfold on_key_pressed, on_key_released, on_combo_pressed;
    destruct (is_active self) eqn:Hact;
    try (exists self; split; [done|]; split; [done|]; split; [apply same_setup_refl|done]).
  - destruct (add_key_display_ok _ name Hdisp Htext) as (o & -> & Hok & Hcfg).
    cbn. eexists. split; [reflexivity|]. by split_and!.
  - destruct (release_key_display_ok (overlay self) name Hdisp) as [Hok Hcfg].
    eexists. split; [reflexivity|]. by split_and!.
  - destruct (show_combo_display_ok _ combo Hdisp Htext) as (o & -> & Hok & Hcfg).
    cbn. eexists. split; [reflexivity|]. by split_and!.
Qed.

Lemma MOUSE_BUTTON_NAMES_nonempty (button : Button.t) (name : string) :
  MOUSE_BUTTON_NAMES button = Some name → name ≠ "".
Proof. destruct button; cbn; intros [= <-]; done. Qed.

Lemma mouse_slot_ok (self : RunningApp) (now : Q) (sig : click_signal) :
  app_ok self →
  match sig with click_pressed name _ _ | click_released name => name ≠ "" end →
  ∃ self', mouse_slot self now sig = Ret self' ∧ app_ok self' ∧
           same_setup self self' ∧ is_active self' = is_active self.
Proof.
  intros (Hdisp & Hmods & Hspots) Htext.
  destruct sig as [name x y|name]; cbn [mouse_slot];
    unfold on_click_pressed, on_click_released;
    destruct (is_active self) eqn:Hact;
    try (exists self; split; [done|]; split; [done|]; split; [apply same_setup_refl|done]).
  - destruct (add_key_display_ok _ name Hdisp Htext) as (o & -> & Hok & Hcfg).
    cbn. eexists. split; [reflexivity|]. unfold app_ok, same_setup. cbn.
    split_and!; try done.
    + destruct (json_truthy _); [|done]. cbn. split; [|done].
      intros _. by destruct (spots (click_spot_overlay self)).
    + by destruct (json_truthy _).
  - destruct (release_key_display_ok (overlay self) name Hdisp) as [Hok Hcfg].
    eexists. split; [reflexivity|]. by split_and!.
Qed.

Lemma run_slots_ok {S : Type} (slot : RunningApp → S → res RunningApp)
    (good : S → Prop) (sigs : list S) (self : RunningApp) :
  (∀ s sig, app_ok s → good sig →
     ∃ s', slot s sig = Ret s' ∧ app_ok s' ∧ same_setup s s' ∧
           is_active s' = is_active s) →
  app_ok self → Forall good sigs →
  ∃ self', run_slots slot self sigs = Ret self' ∧ app_ok self' ∧
           same_setup self self' ∧ is_active self' = is_active self.
Proof.
  intros Hslot Hok Hsigs. revert self Hok.
  induction Hsigs as [|sig sigs Hsig _ IH]; intros self Hok; cbn [run_slots].
  - exists self. split_and!; try done.
  - destruct (Hslot self sig Hok Hsig) as (s1 & -> & Hok1 & Hsame1 & Hact1). cbn.
    destruct (IH s1 Hok1) as (s2 & -> & Hok2 & Hsame2 & Hact2).
    exists s2. split_and!; [done|done| |congruence].
    by eapply same_setup_trans.
Qed.

Section AppFacts.

Variable str_isalpha : string → bool.
Variable str_upper : string → string.
Variable str_isprintable : string → bool.
Variable str_title : string → string.

Hypothesis str_upper_nonempty : ∀ s, s ≠ "" → str_upper s ≠ "".
Hypothesis str_title_nonempty : ∀ s, s ≠ "" → str_title s ≠ "".

Local Abbreviation normalise' := (normalise str_isalpha str_upper str_isprintable str_title).
Local Abbreviation listener_event' :=
  (listener_event str_isalpha str_upper str_isprintable str_title).
Local Abbreviation app_event_step' :=
  (app_event_step str_isalpha str_upper str_isprintable str_title).
Local Abbreviation app_run' :=
  (app_run str_isalpha str_upper str_isprintable str_title).

(** The callback of the listener returns, with modifiers that are
    modifier identifiers and signals whose texts are not empty. *)
Lemma listener_event_signals (self : KeyboardListener) (ev : key_event) :
  active_modifiers self ⊆ MODIFIER_KEYS →
  named_event (Keyboard ev) →
  ∃ self' sigs,
    listener_event' self ev = Ret (self', sigs) ∧
    active_modifiers self' ⊆ MODIFIER_KEYS ∧
    Forall (λ sig, signal_text sig ≠ "") sigs.
Proof.
  intros Hsub Hkey. destruct ev as [key|key]; cbn in Hkey; cbn [listener_event].
  - unfold _on_press.
    destruct (normalise_returns str_isalpha str_upper str_isprintable str_title key)
      as [[name|] Hname]; rewrite Hname; cbn.
    + pose proof (normalise_nonempty str_isalpha str_upper str_isprintable str_title
                    str_upper_nonempty str_title_nonempty key name Hkey Hname) as Hne.
      case_bool_decide as Hmod.
      * eexists _, _. split; [reflexivity|]. cbn. split; [|by repeat constructor].
        intros m Hm. apply elem_of_union in Hm as [Hm|Hm]; [|by apply Hsub].
        by apply elem_of_singleton in Hm as ->.
      * case_bool_decide; eexists _, _; (split; [reflexivity|]); cbn;
          (split; [done|]); repeat constructor; cbn; try done.
        unfold combo_parts. by apply concat_last_nonempty.
    + eexists _, _. split; [reflexivity|]. cbn. split; [done|constructor].
  - unfold _on_release.
    destruct (normalise_returns str_isalpha str_upper str_isprintable str_title key)
      as [[name|] Hname]; rewrite Hname; cbn.
    + pose proof (normalise_nonempty str_isalpha str_upper str_isprintable str_title
                    str_upper_nonempty str_title_nonempty key name Hkey Hname) as Hne.
      eexists _, _. split; [reflexivity|]. cbn. split; [|by repeat constructor].
      case_bool_decide; [|done]. cbn. intros m Hm.
      apply elem_of_difference in Hm as [Hm _]. by apply Hsub.
    + eexists _, _. split; [reflexivity|]. cbn. split; [done|constructor].
Qed.

Lemma app_event_step_ok (self : RunningApp) (ev : app_event) :
  app_ok self → named_event ev →
  ∃ self', app_event_step' self ev = Ret self' ∧ app_ok self' ∧
           same_setup self self'.
Proof.
  intros Hok Hev. destruct ev as [kev|x y button pressed now|key_name|];
    cbn [app_event_step].
  - destruct Hok as (Hdisp & Hmods & Hspots).
    destruct (listener_event_signals _ kev Hmods Hev)
      as (listener & sigs & -> & Hmods' & Hsigs). cbn.
    destruct (run_slots_ok keyboard_slot (λ sig, signal_text sig ≠ "") sigs
                (mkRunning (stored self) (is_active self) listener (overlay self)
                   (click_spot_overlay self)))
      as (self' & Hrun & Hok' & Hsame & _).
    + intros s sig. apply keyboard_slot_ok.
    + done.
    + done.
    + exists self'. by split_and!.
  - destruct (run_slots_ok (λ s sig, mouse_slot s now sig)
                (λ sig, match sig with
                        | click_pressed name _ _ | click_released name => name ≠ ""
                        end)
                (_on_click x y button pressed) self)
      as (self' & Hrun & Hok' & Hsame & _).
    + intros s sig. apply mouse_slot_ok.
    + done.
    + unfold _on_click.
      destruct (MOUSE_BUTTON_NAMES button) as [name|] eqn:Hname; [|constructor].
      apply MOUSE_BUTTON_NAMES_nonempty in Hname.
      destruct pressed; by repeat constructor.
    + exists self'. by split_and!.
  - case_bool_decide as Htimer.
    + destruct Hok as (Hdisp & Hmods & Hspots).
      destruct (fade_key_display_ok _ key_name Hdisp Htimer) as (o & -> & Hok' & Hcfg).
      cbn. eexists. split; [reflexivity|]. by split_and!.
    + exists self. by split_and!.
  - eexists. split; [reflexivity|]. by split_and!.
Qed.

(** X18. Whatever keys are pressed and released, whatever is clicked, whenever
    fade timers fire and the display is paused and resumed: no callback
    and no slot raises, the display state stays consistent with opacities
    in (0, 1], the held modifiers are modifier identifiers, the timer of
    the spots runs exactly while there are spots, and the configuration
    and the stored settings are left as they are.  This needs a limit of
    keys and a fade speed that are not negative, and keys whose text is
    not ['Key.']. *)
Theorem app_run_keeps_display (events : list app_event) (self : RunningApp) :
  app_ok self → Forall named_event events →
  ∃ self',
    app_run' self events = Ret self' ∧
    app_ok self' ∧
    consistent (overlay self') ∧
    same_setup self self'.
Proof.
  intros Hok Hevents. revert self Hok.
  induction Hevents as [|ev events Hev _ IH]; intros self Hok; cbn [app_run].
  - exists self. split_and!; try done.
    apply overlay_inv_consistent, Hok.
  - destruct (app_event_step_ok self ev Hok Hev) as (s1 & -> & Hok1 & Hsame1). cbn.
    destruct (IH s1 Hok1) as (s2 & -> & Hok2 & Hcons & Hsame2).
    exists s2. split_and!; try done. by eapply same_setup_trans.
Qed.

End AppFacts.

Lemma default_app_ok : app_ok default_app.
Proof.
  unfold app_ok, display_ok, default_app. cbn. split_and!; try done.
  apply new_overlay_inv.
Qed.

Lemma app_run_keeps_display_witness :
  ∃ self',
    app_run_ascii default_app
      [Keyboard (KeyDown ctrl_key); Keyboard (KeyDown s_key);
       Mouse 10 20 Button.left true 0; FadeTimeout "Ctrl+S"; TogglePause;
       Keyboard (KeyUp s_key)] = Ret self' ∧
    consistent (overlay self').
Proof.
  destruct (app_run_keeps_display ascii_isalpha ascii_upper ascii_isprintable ascii_title
              ascii_upper_nonempty ascii_title_nonempty
              [Keyboard (KeyDown ctrl_key); Keyboard (KeyDown s_key);
               Mouse 10 20 Button.left true 0; FadeTimeout "Ctrl+S"; TogglePause;
               Keyboard (KeyUp s_key)] default_app)
    as (self' & Hrun & _ & Hcons & _).
  - apply default_app_ok.
  - repeat constructor; cbn; discriminate.
  - exists self'. split; [exact Hrun | exact Hcons].
Defined.

(** ** Key combinations from the key press to the fade *)

Lemma show_combo_maps_parts (self : KeyOverlay) (combo : string) :
  1 <= max_keys (config self) → bubbles_numbered self →
  ∃ shown,
    show_combo self combo = Ret shown ∧
    is_Some (dict_get combo (active_keys shown)) ∧
    (∀ part, part ∈ str_split "+" combo → combo_key_map shown !! part = Some combo).
Proof.
  intros Hmax Hnum. unfold show_combo.
  destruct (remove_modifier_bubbles_numbered self
              (removelast (str_split "+" combo)) Hnum) as [Hnum1 Hcfg1].
  match goal with |- ∃ shown, add_key ?s combo = _ ∧ _ =>
    destruct (add_key_shows s combo) as (shown & Hadd & Hshown & Hmap)
  end.
  { cbn. by rewrite Hcfg1. }
  { exact Hnum1. }
  exists shown. split_and!; try done.
  intros part Hpart. rewrite Hmap. cbn. by apply combo_map_parts.
Qed.

Lemma combo_parts_split (mods : gset string) (key_name : string) :
  str_mem "+" key_name = false →
  str_split "+" (String.concat "+" (combo_parts mods key_name)) =
    combo_parts mods key_name.
Proof.
  intros Hkey. apply (str_split_concat "+").
  - unfold combo_parts. by destruct (filter _ _).
  - unfold combo_parts. apply Forall_app. split; [|by repeat constructor].
    apply List.Forall_forall. intros m Hm.
    apply list_elem_of_In, list_elem_of_filter in Hm as [_ Hm].
    repeat (apply elem_of_cons in Hm as [->|Hm]; [done|]).
    by apply elem_of_nil in Hm.
Qed.

Lemma combo_parts_modifier (mods : gset string) (key_name m : string) :
  m ∈ combo_parts mods key_name → m ≠ key_name → m ∈ mods ∧ m ∈ MODIFIER_KEYS.
Proof.
  unfold combo_parts. intros Hm Hne.
  apply elem_of_app in Hm as [Hm|Hm].
  - apply list_elem_of_filter in Hm as [Hmods Hm]. split; [done|].
    repeat (apply elem_of_cons in Hm as [->|Hm]; [by compute_done|]).
    by apply elem_of_nil in Hm.
  - by apply list_elem_of_singleton in Hm.
Qed.

Section AppScenarios.

Variable str_isalpha : string → bool.
Variable str_upper : string → string.
Variable str_isprintable : string → bool.
Variable str_title : string → string.

Local Abbreviation normalise' := (normalise str_isalpha str_upper str_isprintable str_title).
Local Abbreviation on_press' := (_on_press str_isalpha str_upper str_isprintable str_title).
Local Abbreviation on_release' := (_on_release str_isalpha str_upper str_isprintable str_title).
Local Abbreviation listener_event' :=
  (listener_event str_isalpha str_upper str_isprintable str_title).
Local Abbreviation listener_run' :=
  (listener_run str_isalpha str_upper str_isprintable str_title).
Local Abbreviation app_event_step' :=
  (app_event_step str_isalpha str_upper str_isprintable str_title).
Local Abbreviation app_run' :=
  (app_run str_isalpha str_upper str_isprintable str_title).

Lemma on_press_combo (self : KeyboardListener) (key : Key) (name : string) :
  normalise' key = Ret (Some name) → name ∉ MODIFIER_KEYS →
  active_modifiers self ≠ ∅ →
  on_press' self key =
    Ret (self, [combo_pressed
                  (String.concat "+" (combo_parts (active_modifiers self) name))]).
Proof.
  intros Hname Hmod Hheld. unfold _on_press. rewrite Hname. cbn.
  by rewrite bool_decide_eq_false_2, bool_decide_eq_true_2.
Qed.

Lemma on_release_signal (self : KeyboardListener) (key : Key) (name : string) :
  normalise' key = Ret (Some name) →
  on_release' self key =
    Ret (if bool_decide (name ∈ MODIFIER_KEYS)
         then mkListener (active_modifiers self ∖ {[ name ]})
         else self,
         [key_released name]).
Proof. intros Hname. unfold _on_release. rewrite Hname. reflexivity. Qed.

Lemma app_keyboard_step (self : RunningApp) (kev : key_event)
    (listener : KeyboardListener) (sigs : list signal) :
  listener_event' (keyboard_listener self) kev = Ret (listener, sigs) →
  app_event_step' self (Keyboard kev) =
    run_slots keyboard_slot
      (mkRunning (stored self) (is_active self) listener (overlay self)
         (click_spot_overlay self)) sigs.
Proof. intros Hev. cbn [app_event_step]. rewrite Hev. reflexivity. Qed.

(** X19. A key pressed while modifiers are held, from the event to the fade.
    With room for one key and a label without ['+'], the press shows the
    combined label; the release of the key starts the fade of the combined
    label and removes every mapping to it, and so does the release of any
    held modifier of the combined label instead, which also takes that
    modifier out of the held ones. *)
Theorem combo_press_then_release (self : RunningApp) (key : Key) (name : string) :
  is_active self = true →
  1 <= max_keys (config (overlay self)) → bubbles_numbered (overlay self) →
  normalise' key = Ret (Some name) → name ∉ MODIFIER_KEYS →
  str_mem "+" name = false →
  active_modifiers (keyboard_listener self) ≠ ∅ →
  let combo :=
    String.concat "+" (combo_parts (active_modifiers (keyboard_listener self)) name) in
  ∃ pressed,
    app_event_step' self (Keyboard (KeyDown key)) = Ret pressed ∧
    keyboard_listener pressed = keyboard_listener self ∧
    is_Some (dict_get combo (active_keys (overlay pressed))) ∧
    (∀ up_key part,
       normalise' up_key = Ret (Some part) →
       part ∈ combo_parts (active_modifiers (keyboard_listener self)) name →
       ∃ released,
         app_event_step' pressed (Keyboard (KeyUp up_key)) = Ret released ∧
         is_Some (dict_get combo (active_keys (overlay released))) ∧
         combo ∈ fade_timers (overlay released) ∧
         (∀ k, combo_key_map (overlay released) !! k ≠ Some combo) ∧
         active_modifiers (keyboard_listener released) =
           if bool_decide (part = name)
           then active_modifiers (keyboard_listener self)
           else active_modifiers (keyboard_listener self) ∖ {[ part ]}).
Proof.
  destruct self as [st act listener o clicks].
  cbn [is_active overlay keyboard_listener]. intros -> Hmax Hnum Hname Hmod Hplus Hheld.
  set (combo := String.concat "+" (combo_parts (active_modifiers listener) name)).
  destruct (show_combo_maps_parts o combo)
    as (shown & Hshow & Hshown & Hmap); [lia|done|].
  unfold combo in Hmap. rewrite (combo_parts_split _ _ Hplus) in Hmap. fold combo in Hmap.
  pose proof (on_press_combo listener key name Hname Hmod Hheld) as Hpress.
  fold combo in Hpress. clearbody combo.
  exists (mkRunning st true listener shown clicks). split.
  { rewrite (app_keyboard_step (mkRunning st true listener o clicks)
               (KeyDown key) _ _ Hpress).
    cbn [run_slots keyboard_slot]. unfold on_combo_pressed, set_overlay.
    cbn [is_active overlay stored keyboard_listener click_spot_overlay].
    rewrite Hshow. reflexivity. }
  cbn [is_active overlay stored keyboard_listener click_spot_overlay].
  split; [done|]. split; [done|].
  intros up_key part Hpart Hin.
  pose proof (Hmap part Hin) as Hmapped.
  pose proof (on_release_signal listener up_key part Hpart) as Hup.
  eexists. split.
  { rewrite (app_keyboard_step (mkRunning st true listener shown clicks)
               (KeyUp up_key) _ _ Hup).
    cbn [run_slots keyboard_slot]. unfold on_key_released, set_overlay.
    cbn [is_active overlay stored keyboard_listener click_spot_overlay].
    rewrite (release_key_mapped shown part combo Hmapped Hshown). reflexivity. }
  cbn [overlay keyboard_listener active_keys fade_timers combo_key_map].
  split_and!.
  - done.
  - apply elem_of_union. left. by apply elem_of_singleton.
  - intros k Hf. apply map_lookup_filter_Some in Hf as [_ Hf]. by cbn in Hf.
  - destruct (decide (part = name)) as [->|Hpn].
    + by rewrite (bool_decide_eq_true_2 (name = name)), bool_decide_eq_false_2.
    + destruct (combo_parts_modifier _ _ _ Hin Hpn) as [_ Hm].
      by rewrite (bool_decide_eq_false_2 (part = name)), bool_decide_eq_true_2.
Qed.

(** ** The paused application *)

Lemma listener_event_returns (self : KeyboardListener) (ev : key_event) :
  ∃ self' sigs, listener_event' self ev = Ret (self', sigs).
Proof.
  destruct ev as [key|key]; cbn [listener_event].
  - unfold _on_press.
    destruct (normalise_returns str_isalpha str_upper str_isprintable str_title key)
      as [[name|] ->]; cbn; [|eauto].
    repeat case_bool_decide; eauto.
  - unfold _on_release.
    destruct (normalise_returns str_isalpha str_upper str_isprintable str_title key)
      as [[name|] ->]; cbn; eauto.
Qed.

Lemma run_slots_paused {S : Type} (slot : RunningApp → S → res RunningApp)
    (sigs : list S) (self : RunningApp) :
  (∀ sig, slot self sig = Ret self) → run_slots slot self sigs = Ret self.
Proof.
  intros Hslot. induction sigs as [|sig sigs IH]; [done|].
  cbn [run_slots]. rewrite Hslot. cbn. exact IH.
Qed.

Lemma keyboard_slot_paused (self : RunningApp) (sig : signal) :
  is_active self = false → keyboard_slot self sig = Ret self.
Proof.
  intros Hact. destruct sig; cbn;
    unfold on_key_pressed, on_key_released, on_combo_pressed; by rewrite Hact.
Qed.

Lemma mouse_slot_paused (self : RunningApp) (now : Q) (sig : click_signal) :
  is_active self = false → mouse_slot self now sig = Ret self.
Proof.
  intros Hact. destruct sig; cbn;
    unfold on_click_pressed, on_click_released; by rewrite Hact.
Qed.

(** X20. While the application is paused no key and no click changes what is
    shown: the display state and the spots stay as they are.  The
    listener is not paused: the held modifiers follow the key events as
    they do in the active application. *)
Theorem paused_input_shows_nothing (events : list app_event) (self : RunningApp) :
  is_active self = false → Forall input_event events →
  ∃ listener sigs,
    listener_run' (keyboard_listener self) (keyboard_events events) =
      Ret (listener, sigs) ∧
    app_run' self events =
      Ret (mkRunning (stored self) false listener (overlay self)
             (click_spot_overlay self)).
Proof.
  intros Hact Hevents. revert self Hact.
  induction Hevents as [|ev events Hev _ IH]; intros self Hact.
  - exists (keyboard_listener self), []. split; [done|].
    cbn. destruct self. cbn in Hact. by subst.
  - destruct ev as [kev|x y button pressed now| |]; [| |done..].
    + destruct (listener_event_returns (keyboard_listener self) kev)
        as (l1 & sigs1 & Hl1).
      destruct (IH (mkRunning (stored self) (is_active self) l1 (overlay self)
                      (click_spot_overlay self)) Hact)
        as (l2 & sigs2 & Hl2 & Hrun).
      cbn in Hl2, Hrun.
      exists l2, (sigs1 ++ sigs2)%list. split.
      * cbn [keyboard_events omap list_omap listener_run].
        fold (keyboard_events events). rewrite Hl1. cbn. rewrite Hl2. done.
      * cbn [app_run app_event_step]. rewrite Hl1. cbn.
        rewrite run_slots_paused by (intros sig; by apply keyboard_slot_paused).
        cbn. exact Hrun.
    + destruct (IH self Hact) as (l2 & sigs2 & Hl2 & Hrun).
      exists l2, sigs2. split; [exact Hl2|].
      cbn [app_run app_event_step].
      rewrite run_slots_paused by (intros sig; by apply mouse_slot_paused).
      cbn. exact Hrun.
Qed.

End AppScenarios.

Lemma combo_press_then_release_witness :
  ∃ pressed released,
    app_event_step ascii_isalpha ascii_upper ascii_isprintable ascii_title
      (mkRunning (mkApp QNone DEFAULT_CONFIG) true (mkListener {[ "Ctrl" ]})
         (new_overlay default_overlay_config) (new_click_spot_overlay DEFAULT_CONFIG))
      (Keyboard (KeyDown s_key)) = Ret pressed ∧
    app_event_step ascii_isalpha ascii_upper ascii_isprintable ascii_title
      pressed (Keyboard (KeyUp ctrl_key)) = Ret released ∧
    String.concat "+" (combo_parts {[ "Ctrl" ]} "S") ∈ fade_timers (overlay released).
Proof.
  destruct (combo_press_then_release ascii_isalpha ascii_upper ascii_isprintable
              ascii_title
              (mkRunning (mkApp QNone DEFAULT_CONFIG) true (mkListener {[ "Ctrl" ]})
                 (new_overlay default_overlay_config)
                 (new_click_spot_overlay DEFAULT_CONFIG))
              s_key "S")
    as (pressed & Hpress & _ & _ & Hrelease).
  - reflexivity.
  - cbn. lia.
  - constructor.
  - reflexivity.
  - compute_done.
  - reflexivity.
  - cbn. intros Hempty. by apply (non_empty_singleton_L (C := gset string)) in Hempty.
  - destruct (Hrelease ctrl_key "Ctrl") as (released & Hrel & _ & Htimer & _).
    + reflexivity.
    + compute_done.
    + exists pressed, released. split; [exact Hpress|]. split; [exact Hrel|exact Htimer].
Defined.

Lemma paused_input_shows_nothing_witness :
  ∃ listener sigs,
    listener_run_ascii (mkListener ∅)
      (keyboard_events [Keyboard (KeyDown ctrl_key); Mouse 10 20 Button.left true 0]) =
      Ret (listener, sigs) ∧
    app_run_ascii (toggle_active default_app)
      [Keyboard (KeyDown ctrl_key); Mouse 10 20 Button.left true 0] =
      Ret (mkRunning (mkApp QNone DEFAULT_CONFIG) false listener
             (new_overlay default_overlay_config)
             (new_click_spot_overlay DEFAULT_CONFIG)).
Proof.
  apply (paused_input_shows_nothing ascii_isalpha ascii_upper ascii_isprintable
           ascii_title
           [Keyboard (KeyDown ctrl_key); Mouse 10 20 Button.left true 0]
           (toggle_active default_app)).
  - reflexivity.
  - repeat constructor.
Defined.

(** ** Changes of the configuration *)

Section SettingsFacts.

Variable json_loads : qvariant → res json.
Variable json_dumps : list (json * json) → string.

Lemma get_config_overlay_options (dialog : SettingsDialog) (cfg : list (json * json)) :
  get_config dialog = Ret cfg →
  overlay_options cfg =
    Some (mkConfig (max_keys_spin (widgets dialog))
            (inject_Z (fade_slider (widgets dialog)) / 10)) ∧
  foldl (λ d' kv, pydict_set (JStr kv.1) kv.2 d') DEFAULT_CONFIG (members_of_dict cfg)
    = cfg.
Proof.
  unfold get_config, pydict_getitem.
  destruct (pydict_get (JStr "bg_color") (dialog_config dialog)); [|done].
  destruct (pydict_get (JStr "text_color") (dialog_config dialog)); [|done].
  destruct (pydict_get (JStr "border_color") (dialog_config dialog)); [|done].
  cbn [mbind res_bind]. intros [= <-]. split; reflexivity.
Qed.

(** X21. Accepted settings.  When [get_config] returns, the new configuration
    becomes the one of the application and of both overlays and is
    stored; the key overlay is emptied and gets the limit of the spin box
    and a tenth of the slider as its fade speed, which with the ranges of
    the two widgets are at least 1 and 0.1: the display invariants hold
    again and [add_key] cannot raise.  The stored text, loaded at the next
    start, gives the same configuration, item by item.  [json.dumps] and
    [json.loads] are assumed to give back the saved object. *)
Theorem show_settings_accepted (self : RunningApp) (dialog : SettingsDialog)
    (cfg : list (json * json)) :
  get_config dialog = Ret cfg →
  1 <= max_keys_spin (widgets dialog) <= 20 →
  1 <= fade_slider (widgets dialog) <= 20 →
  json_dumps cfg ≠ "" →
  json_loads (QString (json_dumps cfg)) = Ret (JObj (members_of_dict cfg)) →
  ∃ self',
    show_settings json_dumps self dialog true = Ret self' ∧
    app_config (stored self') = cfg ∧
    settings (stored self') = QString (json_dumps cfg) ∧
    load_config json_loads (stored self') = Ret cfg ∧
    spot_config (click_spot_overlay self') = cfg ∧
    spots (click_spot_overlay self') = spots (click_spot_overlay self) ∧
    overlay self' =
      update_config (overlay self)
        (mkConfig (max_keys_spin (widgets dialog))
           (inject_Z (fade_slider (widgets dialog)) / 10)) ∧
    key_bubbles (overlay self') = [] ∧
    display_ok (overlay self') ∧
    (1 # 10 <= fade_speed (config (overlay self')) <= 2)%Q.
Proof.
  intros Hcfg Hkeys Hslider Hne Hround.
  destruct (get_config_overlay_options dialog cfg Hcfg) as [Hopts Hsame].
  unfold show_settings. rewrite Hcfg. cbn [mbind res_bind].
  eexists. split; [reflexivity|].
  cbn [stored app_config settings save_config click_spot_overlay overlay
       click_spot_update_config spot_config spots].
  unfold overlay_update_config. rewrite Hopts.
  change (default (config (overlay self)) (Some ?oc)) with oc.
  assert (Hlo : (1 # 10 <= inject_Z (fade_slider (widgets dialog)) / 10)%Q).
  { apply Qle_shift_div_l; [done|].
    assert (H1 : (inject_Z 1 <= inject_Z (fade_slider (widgets dialog)))%Q)
      by (rewrite <- Zle_Qle; lia).
    revert H1. generalize (inject_Z (fade_slider (widgets dialog))). intros v H1.
    change (inject_Z 1) with 1%Q in H1. lra. }
  assert (Hhi : (inject_Z (fade_slider (widgets dialog)) / 10 <= 2)%Q).
  { apply Qle_shift_div_r; [done|].
    assert (H20 : (inject_Z (fade_slider (widgets dialog)) <= inject_Z 20)%Q)
      by (rewrite <- Zle_Qle; lia).
    revert H20. generalize (inject_Z (fade_slider (widgets dialog))). intros v H20.
    change (inject_Z 20) with 20%Q in H20. lra. }
  split_and!; try done.
  - rewrite (load_config_object json_loads _ (json_dumps cfg) (members_of_dict cfg))
      by done.
    by rewrite Hsame.
  - unfold display_ok. split_and!.
    + apply update_config_inv.
    + intros k b Hk. done.
    + cbn [update_config config fade_speed]. eapply Qle_trans; [|exact Hlo]. done.
    + cbn [update_config config max_keys]. lia.
Qed.

(** X22. Confirmed reset.  The defaults become the configuration of the
    application and of the key overlay, which is emptied, and are stored,
    so that the next start loads them.  The overlay of the click spots is
    not told: it keeps its configuration, and its spots go on fading with
    the fade time configured before the reset. *)
Theorem reset_to_defaults_skips_click_spots (self : RunningApp) :
  json_dumps DEFAULT_CONFIG ≠ "" →
  json_loads (QString (json_dumps DEFAULT_CONFIG)) =
    Ret (JObj (members_of_dict DEFAULT_CONFIG)) →
  app_config (stored (reset_to_defaults json_dumps self true)) = DEFAULT_CONFIG ∧
  load_config json_loads (stored (reset_to_defaults json_dumps self true))
    = Ret DEFAULT_CONFIG ∧
  overlay (reset_to_defaults json_dumps self true) =
    update_config (overlay self) default_overlay_config ∧
  display_ok (overlay (reset_to_defaults json_dumps self true)) ∧
  click_spot_overlay (reset_to_defaults json_dumps self true) = click_spot_overlay self ∧
  (∀ now, _tick_fade (click_spot_overlay (reset_to_defaults json_dumps self true)) now =
          _tick_fade (click_spot_overlay self) now) ∧
  reset_to_defaults json_dumps self false = self.
Proof.
  intros Hne Hround. cbn [reset_to_defaults stored overlay click_spot_overlay
                          save_config app_config].
  split_and!; try done.
  - by rewrite (load_config_object json_loads _ (json_dumps DEFAULT_CONFIG)
                  (members_of_dict DEFAULT_CONFIG)) by done.
  - unfold display_ok, overlay_update_config. cbn.
    split_and!; [apply update_config_inv| |done|done].
    intros k b Hk. done.
Qed.

End SettingsFacts.

Lemma show_settings_accepted_witness :
  ∃ cfg self',
    get_config (mkDialog DEFAULT_CONFIG custom_widgets) = Ret cfg ∧
    show_settings json_encode_dict default_app
      (mkDialog DEFAULT_CONFIG custom_widgets) true = Ret self' ∧
    load_config py_json_loads (stored self') = Ret cfg ∧
    config (overlay self') = mkConfig 4 (inject_Z 7 / 10).
Proof.
  destruct (show_settings_accepted py_json_loads json_encode_dict default_app
              (mkDialog DEFAULT_CONFIG custom_widgets)
              custom_config)
    as (self' & Hshow & _ & _ & Hload & _ & _ & Hoverlay & _).
  - vm_compute. reflexivity.
  - cbn. lia.
  - cbn. lia.
  - vm_compute. discriminate.
  - vm_compute. reflexivity.
  - eexists _, self'. split; [vm_compute; reflexivity|].
    split; [exact Hshow|]. split; [exact Hload|]. rewrite Hoverlay. reflexivity.
Defined.

Lemma reset_to_defaults_skips_click_spots_witness :
  load_config py_json_loads
    (stored (reset_to_defaults json_encode_dict
               (mkRunning (mkApp QNone DEFAULT_CONFIG) true (mkListener ∅)
                  (new_overlay (mkConfig 4 (7 # 10)))
                  (new_click_spot_overlay [(JStr "click_spot_fade_ms", JInt 900)]))
               true)) = Ret DEFAULT_CONFIG ∧
  tick_fade_ms
    (click_spot_overlay
       (reset_to_defaults json_encode_dict
          (mkRunning (mkApp QNone DEFAULT_CONFIG) true (mkListener ∅)
             (new_overlay (mkConfig 4 (7 # 10)))
             (new_click_spot_overlay [(JStr "click_spot_fade_ms", JInt 900)]))
          true)) = JInt 900.
Proof.
  destruct (reset_to_defaults_skips_click_spots py_json_loads json_encode_dict
              (mkRunning (mkApp QNone DEFAULT_CONFIG) true (mkListener ∅)
                 (new_overlay (mkConfig 4 (7 # 10)))
                 (new_click_spot_overlay [(JStr "click_spot_fade_ms", JInt 900)])))
    as (_ & Hload & _ & _ & Hspots & _).
  - vm_compute. discriminate.
  - vm_compute. reflexivity.
  - split; [exact Hload|]. rewrite Hspots. reflexivity.
Defined.

(** ** Mouse clicks *)

Lemma start_fade_shown (self : KeyOverlay) (key_name : string) :
  is_Some (dict_get key_name (active_keys self)) →
  _start_fade self key_name =
    mkOverlay (config self) (heap self) (next_bubble self) (key_bubbles self)
      ({[ key_name ]} ∪ fade_timers self) (active_keys self) (combo_key_map self).
Proof.
  intros Hshown. unfold _start_fade. apply dict_mem_true in Hshown. by rewrite Hshown.
Qed.

Section MouseFacts.

Variable str_isalpha : string → bool.
Variable str_upper : string → string.
Variable str_isprintable : string → bool.
Variable str_title : string → string.

Local Abbreviation app_event_step' :=
  (app_event_step str_isalpha str_upper str_isprintable str_title).

(** X23. A click of a button other than left, right and middle is ignored.  A
    press of one of these three in the active application shows the name
    of the button like the label of a key, and adds a spot of full
    opacity at the position of the click unless [show_click_spot] is set
    to a false value; the release starts the fade of the name and leaves
    the spots alone. *)
Theorem click_press_then_release (self : RunningApp) (x y : Z) (button : Button.t)
    (now : Q) :
  (MOUSE_BUTTON_NAMES button = None →
   ∀ pressed, app_event_step' self (Mouse x y button pressed now) = Ret self) ∧
  (∀ name,
     MOUSE_BUTTON_NAMES button = Some name →
     is_active self = true →
     1 <= max_keys (config (overlay self)) → bubbles_numbered (overlay self) →
     combo_key_map (overlay self) !! name = None →
     ∃ pressed,
       app_event_step' self (Mouse x y button true now) = Ret pressed ∧
       is_Some (dict_get name (active_keys (overlay pressed))) ∧
       click_spot_overlay pressed =
         (if json_truthy (pydict_get_default (app_config (stored self))
                            (JStr "show_click_spot") (JBool true))
          then mkSpots (spot_config (click_spot_overlay self))
                 (spots (click_spot_overlay self) ++
                  [mkSpot (inject_Z x) (inject_Z y) 1 name now])
                 true
          else click_spot_overlay self) ∧
       (∀ x' y' now',
          ∃ released,
            app_event_step' pressed (Mouse x' y' button false now') = Ret released ∧
            is_Some (dict_get name (active_keys (overlay released))) ∧
            name ∈ fade_timers (overlay released) ∧
            click_spot_overlay released = click_spot_overlay pressed)).
Proof.
  split.
  - intros Hname pressed. cbn [app_event_step]. unfold _on_click. by rewrite Hname.
  - destruct self as [st act listener o clicks].
    cbn [is_active overlay stored click_spot_overlay].
    intros name Hname -> Hmax Hnum Hmap.
    destruct (add_key_shows o name Hmax Hnum) as (shown & Hadd & Hshown & Hsame).
    eexists. split.
    { cbn [app_event_step]. unfold _on_click. rewrite Hname.
      cbn [run_slots mouse_slot]. unfold on_click_pressed.
      cbn [is_active overlay stored click_spot_overlay keyboard_listener].
      rewrite Hadd. reflexivity. }
    cbn [overlay click_spot_overlay]. split; [done|]. split; [done|].
    intros x' y' now'. eexists. split.
    { cbn [app_event_step]. unfold _on_click. rewrite Hname.
      cbn [run_slots mouse_slot]. unfold on_click_released, set_overlay.
      cbn [is_active overlay stored click_spot_overlay keyboard_listener].
      unfold release_key. rewrite Hsame, Hmap.
      rewrite (start_fade_shown shown name Hshown). reflexivity. }
    cbn [overlay click_spot_overlay active_keys fade_timers].
    split_and!; [done| |done].
    apply elem_of_union. left. by apply elem_of_singleton.
Qed.

End MouseFacts.

Lemma click_press_then_release_witness :
  ∃ pressed released,
    app_event_step ascii_isalpha ascii_upper ascii_isprintable ascii_title
      default_app (Mouse 640 360 Button.left true (1 # 2)) = Ret pressed ∧
    spots (click_spot_overlay pressed) = [mkSpot 640 360 1 "Left Click" (1 # 2)] ∧
    app_event_step ascii_isalpha ascii_upper ascii_isprintable ascii_title
      pressed (Mouse 641 360 Button.left false (3 # 5)) = Ret released ∧
    "Left Click" ∈ fade_timers (overlay released).
Proof.
  destruct (click_press_then_release ascii_isalpha ascii_upper ascii_isprintable
              ascii_title default_app 640 360 Button.left (1 # 2)) as [_ Hclick].
  destruct (Hclick "Left Click") as (pressed & Hpress & _ & Hspots & Hrelease).
  - reflexivity.
  - reflexivity.
  - cbn. lia.
  - constructor.
  - reflexivity.
  - destruct (Hrelease 641 360 (3 # 5)) as (released & Hrel & _ & Htimer & _).
    exists pressed, released. split; [exact Hpress|]. split; [by rewrite Hspots|].
    split; [exact Hrel | exact Htimer].
Defined.

(** ** Presets *)

Lemma apply_preset_config (bg text border : string) (show : bool)
    (self : SettingsDialog) :
  str_keys (dialog_config self) →
  ∃ cfg,
    get_config (apply_preset bg text border show self) = Ret cfg ∧
    pydict_get (JStr "bg_color") cfg = Some (JStr bg) ∧
    pydict_get (JStr "text_color") cfg = Some (JStr text) ∧
    pydict_get (JStr "border_color") cfg = Some (JStr border) ∧
    pydict_get (JStr "show_border") cfg = Some (JBool show) ∧
    (∀ cfg0 s, get_config self = Ret cfg0 → s ∉ preset_keys →
       pydict_get (JStr s) cfg = pydict_get (JStr s) cfg0).
Proof.
  intros Hkeys.
  set (d0 := dialog_config self).
  set (d1 := pydict_set (JStr "bg_color") (JStr bg) d0).
  set (d2 := pydict_set (JStr "text_color") (JStr text) d1).
  set (d3 := pydict_set (JStr "border_color") (JStr border) d2).
  set (d4 := pydict_set (JStr "show_border") (JBool show) d3).
  assert (Hk1 : str_keys d1) by by apply pydict_set_str_keys.
  assert (Hk2 : str_keys d2) by by apply pydict_set_str_keys.
  assert (Hk3 : str_keys d3) by by apply pydict_set_str_keys.
  assert (Hget : ∀ s, pydict_get (JStr s) d4 =
            if bool_decide (s = "show_border") then Some (JBool show)
            else if bool_decide (s = "border_color") then Some (JStr border)
            else if bool_decide (s = "text_color") then Some (JStr text)
            else if bool_decide (s = "bg_color") then Some (JStr bg)
            else pydict_get (JStr s) d0).
  { intros s. unfold d4.
    case_bool_decide as H4; [subst s; by apply pydict_get_set_eq|].
    rewrite pydict_get_set_ne by (done || congruence). unfold d3.
    case_bool_decide as H3; [subst s; by apply pydict_get_set_eq|].
    rewrite pydict_get_set_ne by (done || congruence). unfold d2.
    case_bool_decide as H2; [subst s; by apply pydict_get_set_eq|].
    rewrite pydict_get_set_ne by (done || congruence). unfold d1.
    case_bool_decide as H1; [subst s; by apply pydict_get_set_eq|].
    by rewrite pydict_get_set_ne by (done || congruence). }
  unfold get_config, apply_preset, pydict_getitem, pydict_get_default.
  cbn [dialog_config widgets pydict_update_dict foldl fst snd].
  fold d0 d1 d2 d3 d4. rewrite !Hget. cbn [bool_decide].
  rewrite !bool_decide_eq_false_2 by discriminate.
  rewrite !bool_decide_eq_true_2 by reflexivity.
  cbn [mbind res_bind].
  eexists. split; [reflexivity|]. split_and!; try reflexivity.
  intros cfg0 s. fold d0.
  destruct (pydict_get (JStr "bg_color") d0); [|done].
  destruct (pydict_get (JStr "text_color") d0); [|done].
  destruct (pydict_get (JStr "border_color") d0); [|done].
  cbn [mbind res_bind]. intros [= <-] Hs.
  unfold preset_keys in Hs.
  rewrite !not_elem_of_cons in Hs. destruct Hs as (Hs1 & Hs2 & Hs3 & Hs4 & _).
  cbn [pydict_get]. rewrite !key_eqb_str_str.
  rewrite (bool_decide_eq_false_2 ("bg_color" = s)) by congruence.
  rewrite (bool_decide_eq_false_2 ("text_color" = s)) by congruence.
  rewrite (bool_decide_eq_false_2 ("border_color" = s)) by congruence.
  rewrite (bool_decide_eq_false_2 ("show_border" = s)) by congruence.
  reflexivity.
Qed.

(** X24. After any of the four presets [get_config] returns, whatever colours
    the dialog had or lacked before: the returned configuration has the
    three colours and the border flag of the preset, and every other
    option as the dialog would have returned it without the preset. *)
Theorem preset_sets_four_options (self : SettingsDialog) :
  str_keys (dialog_config self) →
  Forall (λ '(apply, (bg, text, border, show)),
    ∃ cfg,
      get_config (apply self) = Ret cfg ∧
      pydict_get (JStr "bg_color") cfg = Some (JStr bg) ∧
      pydict_get (JStr "text_color") cfg = Some (JStr text) ∧
      pydict_get (JStr "border_color") cfg = Some (JStr border) ∧
      pydict_get (JStr "show_border") cfg = Some (JBool show) ∧
      (∀ cfg0 s, get_config self = Ret cfg0 → s ∉ preset_keys →
         pydict_get (JStr s) cfg = pydict_get (JStr s) cfg0))
    presets.
Proof.
  intros Hkeys. unfold presets. repeat constructor; by apply apply_preset_config.
Qed.

Lemma preset_sets_four_options_witness :
  ∃ cfg,
    get_config (apply_minimal_preset (mkDialog [(JStr "max_keys", JInt 3)] custom_widgets))
      = Ret cfg ∧
    pydict_get (JStr "bg_color") cfg = Some (JStr "#000000") ∧
    pydict_get (JStr "show_border") cfg = Some (JBool false).
Proof.
  assert (Hkeys : str_keys [(JStr "max_keys", JInt 3)]).
  { repeat constructor. cbn. eauto. }
  pose proof (preset_sets_four_options
                (mkDialog [(JStr "max_keys", JInt 3)] custom_widgets) Hkeys) as Hall.
  unfold presets in Hall.
  apply List.Forall_inv_tail, List.Forall_inv_tail, List.Forall_inv in Hall.
  destruct Hall as (cfg & Hcfg & Hbg & _ & _ & Hshow & _).
  exists cfg. split; [exact Hcfg|]. split; [exact Hbg | exact Hshow].
Defined.
